(** * EmailScraping: crawl-and-extract engine

    A shallow embedding of the Python harvesters
    ([deep_email_harvester.py], [multi_engine_harvester.py],
    [cloudflare_bypass_extractor.py], [search_based_extractor.py])
    and the properties their specification states about them,
    followed by further properties of the code itself.

    Text is modelled as 8-bit text ([list ascii]).  Case mapping and the
    whitespace class are those of Python on the ASCII range; a code
    point of 128 or more has no case and is not whitespace. *)

From Stdlib Require Import List Bool Arith NArith ZArith Lia Ascii String Permutation.
From Stdlib Require Import DecimalString Sorted.
Import ListNotations.

Set Implicit Arguments.

(* ================================================================== *)
(** ** Python [str] operations *)
(* ================================================================== *)

Module PyStr.

Definition str := list ascii.

(** A string literal of the source. *)
Definition lit (s : string) : str := list_ascii_of_string s.

Definition in_range (lo hi c : ascii) : bool :=
  (N_of_ascii lo <=? N_of_ascii c)%N && (N_of_ascii c <=? N_of_ascii hi)%N.

Definition is_upper (c : ascii) : bool := in_range "A" "Z" c.
Definition is_lower (c : ascii) : bool := in_range "a" "z" c.
Definition is_alpha (c : ascii) : bool := is_upper c || is_lower c.
Definition is_digit (c : ascii) : bool := in_range "0" "9" c.
Definition is_alnum (c : ascii) : bool := is_alpha c || is_digit c.

(** [str.isspace] on the ASCII range: TAB, LF, VT, FF, CR, FS, GS, RS,
    US and SPACE.  The same class is [\s] of [re] on [str] patterns. *)
Definition is_space (c : ascii) : bool :=
  in_range "009" "013" c || in_range "028" "032" c.

Definition one_of (chars : string) (c : ascii) : bool :=
  existsb (Ascii.eqb c) (lit chars).

Definition lower_char (c : ascii) : ascii :=
  if is_upper c then ascii_of_N (N_of_ascii c + 32) else c.

(** [s.lower()] *)
Definition lower (s : str) : str := map lower_char s.

(** [a == b] *)
Fixpoint eqb (a b : str) : bool :=
  match a, b with
  | [], [] => true
  | x :: a', y :: b' => Ascii.eqb x y && eqb a' b'
  | _, _ => false
  end.

(** [x in xs] for a collection of strings *)
Definition mem (x : str) (xs : list str) : bool := existsb (eqb x) xs.

(** [s.startswith(p)] *)
Fixpoint startswith (s p : str) {struct p} : bool :=
  match p, s with
  | [], _ => true
  | x :: p', y :: s' => Ascii.eqb x y && startswith s' p'
  | _ :: _, [] => false
  end.

(** [s.endswith(p)] *)
Definition endswith (s p : str) : bool := startswith (rev s) (rev p).

(** [needle in hay] *)
Fixpoint str_in (needle hay : str) : bool :=
  startswith hay needle ||
  match hay with
  | [] => false
  | _ :: hay' => str_in needle hay'
  end.

(** First occurrence of the one-character separator [sep]. *)
Fixpoint partition_at (sep : ascii) (s : str) : option (str * str) :=
  match s with
  | [] => None
  | c :: s' =>
      if Ascii.eqb c sep then Some ([], s')
      else match partition_at sep s' with
           | Some (a, b) => Some (c :: a, b)
           | None => None
           end
  end.

(** [s.split(sep, 1)] for a one-character [sep] *)
Definition split_1 (sep : ascii) (s : str) : list str :=
  match partition_at sep s with
  | Some (a, b) => [a; b]
  | None => [s]
  end.

(** [s.rsplit(sep, 1)] for a one-character [sep] *)
Definition rsplit_1 (sep : ascii) (s : str) : list str :=
  match partition_at sep (rev s) with
  | Some (a, b) => [rev b; rev a]
  | None => [s]
  end.

(** [xs[-1]] of a non-empty list *)
Definition last_item (xs : list str) : str := last xs [].

Fixpoint dropwhile (p : ascii -> bool) (s : str) : str :=
  match s with
  | [] => []
  | c :: s' => if p c then dropwhile p s' else s
  end.

Definition strip_by (p : ascii -> bool) (s : str) : str :=
  rev (dropwhile p (rev (dropwhile p s))).

(** [s.strip()] *)
Definition strip (s : str) : str := strip_by is_space s.

(** [s.strip(chars)] *)
Definition strip_chars (chars : string) (s : str) : str :=
  strip_by (one_of chars) s.

(** [s.replace(old, new)] for a non-empty [old]: the occurrences are
    taken from the left and do not overlap.  [skip] counts the
    characters of the occurrence that is being replaced. *)
Fixpoint replace_from (old new : str) (skip : nat) (s : str) : str :=
  match s with
  | [] => []
  | c :: s' =>
      match skip with
      | S k => replace_from old new k s'
      | O =>
          if startswith s old
          then new ++ replace_from old new (List.length old - 1) s'
          else c :: replace_from old new 0 s'
      end
  end.

(** With an empty [old], Python puts [new] before every character and
    at the end. *)
Definition replace (old new s : str) : str :=
  match old with
  | [] => flat_map (fun c => new ++ [c]) s ++ new
  | _ :: _ => replace_from old new 0 s
  end.

(** [codecs.decode(s, rot13)] *)
Definition rot13_char (c : ascii) : ascii :=
  if in_range "a" "m" c || in_range "A" "M" c then ascii_of_N (N_of_ascii c + 13)
  else if in_range "n" "z" c || in_range "N" "Z" c then ascii_of_N (N_of_ascii c - 13)
  else c.

Definition rot13 (s : str) : str := map rot13_char s.

(** [sorted(xs)] of strings: insertion into the code-point order. *)
Fixpoint leb (a b : str) : bool :=
  match a, b with
  | [], _ => true
  | _ :: _, [] => false
  | x :: a', y :: b' =>
      if Ascii.eqb x y then leb a' b'
      else (N_of_ascii x <? N_of_ascii y)%N
  end.

Fixpoint insert_sorted (x : str) (xs : list str) : list str :=
  match xs with
  | [] => [x]
  | y :: ys => if leb x y then x :: xs else y :: insert_sorted x ys
  end.

Definition sorted (xs : list str) : list str :=
  fold_right insert_sorted [] xs.

(** A Python [set] of strings, kept as a duplicate-free list;
    [set_add] is [s.add(x)] and [set_update] is [s.update(xs)]. *)
Definition set_add (x : str) (s : list str) : list str :=
  if mem x s then s else s ++ [x].

Definition set_update (s xs : list str) : list str :=
  fold_left (fun acc x => set_add x acc) xs s.

End PyStr.
Import PyStr.

(* ================================================================== *)
(** ** The fragment of Python's [re] the program uses *)
(* ================================================================== *)

(** The patterns of the program are sequences of greedy repetitions of
    a character class, literals, alternatives of literals, at most one
    capture group and a final [$].  [re] matches by backtracking: a
    greedy repetition takes the longest run first and gives characters
    back one at a time, alternatives are tried from the left, and the
    first way that lets the rest of the pattern match is the match. *)

Module Re.

Inductive atom : Type :=
| Rep (cls : ascii -> bool) (lo : nat) (hi : option nat) (* [cls]{lo,hi} *)
| Lit (w : str)
| Alt (ws : list str)                                    (* (?:w1|w2) *)
| Open                                                   (* ( *)
| Close                                                  (* ) *)
| Dollar.                                                (* $ *)

Definition regex := list atom.

(** [c+], [c*] and [c{n,}] *)
Definition plus (cls : ascii -> bool) : atom := Rep cls 1 None.
Definition star (cls : ascii -> bool) : atom := Rep cls 0 None.
Definition at_least (n : nat) (cls : ascii -> bool) : atom := Rep cls n None.

(** Length of the longest prefix of [s] inside [cls]. *)
Fixpoint run (cls : ascii -> bool) (s : str) : nat :=
  match s with
  | c :: s' => if cls c then S (run cls s') else 0
  | [] => 0
  end.

(** Backtracking of a greedy repetition: [k], then [k-1], ... down to [lo]. *)
Fixpoint try_down (R : Type) (f : nat -> option R) (lo k : nat) : option R :=
  if k <? lo then None
  else match f k with
       | Some r => Some r
       | None => match k with
                 | O => None
                 | S k' => try_down f lo k'
                 end
       end.

Fixpoint first_some (A R : Type) (f : A -> option R) (xs : list A) : option R :=
  match xs with
  | [] => None
  | x :: xs' => match f x with
                | Some r => Some r
                | None => first_some f xs'
                end
  end.

(** A match: the number of characters consumed, and the bounds of the
    capture group when the pattern has one. *)
Definition found : Type := nat * option (nat * nat).

(** [match_here full r s n gopen grp] matches [r] at the head of [s];
    [n] characters of the match were consumed before [s], the group
    was opened at offset [gopen], and [grp] holds its bounds once it
    is closed.  With [full] the match has to end where [s] ends. *)
Fixpoint match_here (full : bool) (r : regex) (s : str)
         (n gopen : nat) (grp : option (nat * nat)) : option found :=
  match r with
  | [] =>
      if full then match s with
                   | [] => Some (n, grp)
                   | _ :: _ => None
                   end
      else Some (n, grp)
  | Rep cls lo hi :: r' =>
      let avail := run cls s in
      let kmax := match hi with
                  | Some h => Nat.min h avail
                  | None => avail
                  end in
      try_down (fun k => match_here full r' (skipn k s) (n + k) gopen grp) lo kmax
  | Lit w :: r' =>
      if startswith s w
      then match_here full r' (skipn (List.length w) s) (n + List.length w) gopen grp
      else None
  | Alt ws :: r' =>
      first_some
        (fun w => if startswith s w
                  then match_here full r' (skipn (List.length w) s)
                                  (n + List.length w) gopen grp
                  else None)
        ws
  | Open :: r' => match_here full r' s n n grp
  | Close :: r' => match_here full r' s n gopen (Some (gopen, n))
  | Dollar :: r' =>
      match s with
      | [] => match_here full r' s n gopen grp
      | ["010"%char] => match_here full r' s n gopen grp
      | _ => None
      end
  end.

(** [r.fullmatch(s)] and [r.match(s)], as truth values *)
Definition fullmatch (r : regex) (s : str) : bool :=
  match match_here true r s 0 0 None with
  | Some _ => true
  | None => false
  end.


(** What [findall] reports for a match at the head of [s]: the group
    when the pattern has one, the whole match otherwise. *)
Definition item (s : str) (m : found) : str :=
  match m with
  | (_, Some (a, b)) => firstn (b - a) (skipn a s)
  | (n, None) => firstn n s
  end.

(** [r.findall(s)]: the matches from the left, without overlap.
    [skip] counts the characters of the last match still to be passed.
    The patterns of the program consume at least one character; an
    empty match is passed over. *)
Fixpoint findall_from (r : regex) (skip : nat) (s : str) : list str :=
  match s with
  | [] => []
  | _ :: s' =>
      match skip with
      | S k => findall_from r k s'
      | O =>
          match match_here false r s 0 0 None with
          | Some (S n, grp) => item s (S n, grp) :: findall_from r n s'
          | _ => findall_from r 0 s'
          end
      end
  end.

Definition findall (r : regex) (s : str) : list str := findall_from r 0 s.

(** [re.sub(r, repl, s)] for a literal replacement *)
Fixpoint sub_from (r : regex) (repl : str) (skip : nat) (s : str) : str :=
  match s with
  | [] => []
  | c :: s' =>
      match skip with
      | S k => sub_from r repl k s'
      | O =>
          match match_here false r s 0 0 None with
          | Some (S n, _) => repl ++ sub_from r repl n s'
          | _ => c :: sub_from r repl 0 s'
          end
      end
  end.

Definition sub (r : regex) (repl s : str) : str := sub_from r repl 0 s.

(** The least number of characters a match of the pattern consumes. *)
Definition atom_min_length (a : atom) : nat :=
  match a with
  | Rep _ lo _ => lo
  | Lit w => List.length w
  | Alt [] => 0
  | Alt (w :: ws) => fold_left (fun m v => Nat.min m (List.length v)) ws (List.length w)
  | Open | Close | Dollar => 0
  end.

Definition min_length (r : regex) : nat :=
  fold_right (fun a m => atom_min_length a + m) 0 r.

End Re.

(* ================================================================== *)
(** ** Python library functions the extractor calls *)
(* ================================================================== *)

(** What the 8-bit model of text cannot compute is taken as given: the
    table of named HTML entities, the text a numeric character
    reference outside the ASCII range stands for, the UTF-8 decoding
    of bytes outside the ASCII range, and base64 decoding. *)
Class PyEnv : Type := {
  (** [html.entities.html5], a lookup; the keys carry their [;] *)
  html5 : str -> option str;
  (** the replacement of [&#num;] for [num = 0] or [num >= 128] *)
  nonascii_charref : N -> str;
  (** [bytes.decode] for UTF-8 with [errors=replace], on bytes that are
      not all ASCII *)
  utf8_replace : str -> str;
  (** [base64.b64decode(s)] decoded as UTF-8 with [errors=ignore];
      [None] when [b64decode] raises *)
  b64decode_utf8 : str -> option str
}.

Module PyLib.
Section WithEnv.
Context {env : PyEnv}.

Definition is_ascii (c : ascii) : bool := (N_of_ascii c <? 128)%N.
Definition is_hex (c : ascii) : bool :=
  is_digit c || in_range "a" "f" c || in_range "A" "F" c.

Definition digit_val (c : ascii) : N :=
  if is_digit c then N_of_ascii c - 48
  else if in_range "a" "f" c then N_of_ascii c - 87
  else N_of_ascii c - 55.

(** [int(s, base)] of a string of digits *)
Definition int_of (base : N) (s : str) : N :=
  fold_left (fun acc c => acc * base + digit_val c)%N s 0%N.

(** The replacement of a numeric character reference
    ([html._replace_charref], numeric branch). *)
Definition numeric_charref (num : N) : str :=
  if (num =? 13)%N then ["013"%char]
  else if ((1 <=? num) && (num <=? 8) || (num =? 11)
           || (14 <=? num) && (num <=? 31) || (num =? 127))%N then []
  else if ((1 <=? num) && (num <? 128))%N then [ascii_of_N num]
  else nonascii_charref num.

(** The longest proper prefix [s[:x]], [len(s) > x > 1], that names an
    entity, tried from the longest. *)
Fixpoint longest_entity (s : str) (x : nat) : option str :=
  match x with
  | O | S O => None
  | S x' =>
      match html5 (firstn x s) with
      | Some v => Some (v ++ skipn x s)
      | None => longest_entity s x'
      end
  end.

(** The replacement of a named reference ([html._replace_charref],
    named branch). *)
Definition named_charref (s : str) : str :=
  match html5 s with
  | Some v => v
  | None =>
      match longest_entity s (List.length s - 1) with
      | Some v => v
      | None => "&"%char :: s
      end
  end.

Definition name_char (c : ascii) : bool :=
  negb (one_of " <&#;" c || in_range "009" "010" c || Ascii.eqb c "012").

Definition semicolon (s : str) : nat :=
  match s with
  | ";"%char :: _ => 1
  | _ => 0
  end.

(** One reference at the head of [s], the text after the [&]: the
    replacement and the number of characters of [s] it covers.  The
    three alternatives of [html._charref] are tried in their order. *)
Definition charref (s : str) : option (str * nat) :=
  match s with
  | "#"%char :: s1 =>
      let d := Re.run is_digit s1 in
      if 1 <=? d then
        Some (numeric_charref (int_of 10 (firstn d s1)),
              1 + d + semicolon (skipn d s1))
      else
        match s1 with
        | x :: s2 =>
            let h := Re.run is_hex s2 in
            if (Ascii.eqb x "x" || Ascii.eqb x "X") && (1 <=? h) then
              Some (numeric_charref (int_of 16 (firstn h s2)),
                    2 + h + semicolon (skipn h s2))
            else None
        | [] => None
        end
  | _ =>
      let k := Nat.min 32 (Re.run name_char s) in
      if 1 <=? k then
        let len := k + semicolon (skipn k s) in
        Some (named_charref (firstn len s), len)
      else None
  end.

Fixpoint unescape_from (skip : nat) (s : str) : str :=
  match s with
  | [] => []
  | c :: s' =>
      match skip with
      | S k => unescape_from k s'
      | O =>
          if Ascii.eqb c "&" then
            match charref s' with
            | Some (v, len) => v ++ unescape_from len s'
            | None => c :: unescape_from 0 s'
            end
          else c :: unescape_from 0 s'
      end
  end.

(** [html.unescape(s)] *)
Definition html_unescape (s : str) : str :=
  if negb (str_in (lit "&") s) then s else unescape_from 0 s.

(** [urllib.parse.unquote_to_bytes]: every [%XX] with two hexadecimal
    digits becomes the byte [XX]; any other [%] stays. *)
Fixpoint unquote_to_bytes_from (skip : nat) (s : str) : str :=
  match s with
  | [] => []
  | c :: s' =>
      match skip with
      | S k => unquote_to_bytes_from k s'
      | O =>
          match c, s' with
          | "%"%char, h1 :: h2 :: _ =>
              if is_hex h1 && is_hex h2
              then ascii_of_N (int_of 16 [h1; h2]) :: unquote_to_bytes_from 2 s'
              else c :: unquote_to_bytes_from 0 s'
          | _, _ => c :: unquote_to_bytes_from 0 s'
          end
      end
  end.

Definition unquote_to_bytes (s : str) : str := unquote_to_bytes_from 0 s.

Definition decode_utf8 (bytes : str) : str :=
  if forallb is_ascii bytes then bytes else utf8_replace bytes.

(** The ASCII runs of the text are unquoted and decoded one by one;
    [run] is the current run, reversed. *)
Fixpoint unquote_runs (run s : str) : str :=
  match s with
  | [] => decode_utf8 (unquote_to_bytes (rev run))
  | c :: s' =>
      if is_ascii c then unquote_runs (c :: run) s'
      else decode_utf8 (unquote_to_bytes (rev run)) ++ c :: unquote_runs [] s'
  end.

(** [urllib.parse.unquote(s)] *)
Definition unquote (s : str) : str :=
  if negb (str_in (lit "%") s) then s else unquote_runs [] s.

End WithEnv.
End PyLib.
Import PyLib.

(* ================================================================== *)
(** ** cloudflare_bypass_extractor.py: the signal extractor *)
(* ================================================================== *)

Module Cloudflare.
Import Re.

Definition dq : ascii := "034".  (* the double quote *)
Definition sq : ascii := "039".  (* the single quote *)

(** [[a-zA-Z0-9._%+-]] *)
Definition local_char (c : ascii) : bool := is_alnum c || one_of "._%+-" c.
(** [[a-zA-Z0-9.-]] *)
Definition domain_char (c : ascii) : bool := is_alnum c || one_of ".-" c.
(** [[A-Za-z0-9+/]] *)
Definition base64_char (c : ascii) : bool := is_alnum c || one_of "+/" c.
(** [[A-Za-z0-9._%+-@]]: inside the brackets [+-@] is the range from
    [+] to [@]. *)
Definition rot13_char_class (c : ascii) : bool :=
  is_alnum c || one_of "._%" c || in_range "+" "@" c.
Definition is_quote (c : ascii) : bool := Ascii.eqb c dq || Ascii.eqb c sq.
Definition not_quote (c : ascii) : bool := negb (is_quote c).

(** [[a-zA-Z0-9._%+-]+@[a-zA-Z0-9.-]+\.[a-zA-Z]{2,}] *)
Definition EMAIL_REGEX : regex :=
  [plus local_char; Lit (lit "@"); plus domain_char; Lit (lit "."); at_least 2 is_alpha].

(** [[A-Za-z0-9+/]{32,}={0,2}] *)
Definition BASE64_REGEX : regex :=
  [at_least 32 base64_char; Rep (Ascii.eqb "=") 0 (Some 2)].

(** [[A-Za-z0-9._%+-@]{10,}] *)
Definition ROT13_CANDIDATE_REGEX : regex := [at_least 10 rot13_char_class].

(** [head[Q]([^Q]+)[Q]], where [Q] stands for the two quote characters:
    a quoted value after the text [head]. *)
Definition quoted_value (head : regex) : regex :=
  head ++ [Rep is_quote 1 (Some 1); Open; plus not_quote; Close; Rep is_quote 1 (Some 1)].

Definition _advanced_patterns : list regex :=
  [ (* [a-zA-Z0-9._%+-]+\s*@\s*[a-zA-Z0-9.-]+\s*\.\s*[a-zA-Z]{2,} *)
    [plus local_char; star is_space; Lit (lit "@"); star is_space;
     plus domain_char; star is_space; Lit (lit "."); star is_space;
     at_least 2 is_alpha];
    (* [a-zA-Z0-9._%+-]+%40[a-zA-Z0-9.-]+\.[a-zA-Z]{2,} *)
    [plus local_char; Lit (lit "%40"); plus domain_char; Lit (lit ".");
     at_least 2 is_alpha];
    (* [a-zA-Z0-9._%+-]+&#64;[a-zA-Z0-9.-]+\.[a-zA-Z]{2,} *)
    [plus local_char; Lit (lit "&#64;"); plus domain_char; Lit (lit ".");
     at_least 2 is_alpha];
    (* [a-zA-Z0-9._%+-]+\s*(?:at|@)\s*[a-zA-Z0-9.-]+\s*(?:dot|\.)\s*[a-zA-Z0-9.-]+ *)
    [plus local_char; star is_space; Alt [lit "at"; lit "@"]; star is_space;
     plus domain_char; star is_space; Alt [lit "dot"; lit "."]; star is_space;
     plus domain_char];
    (* DQemailDQ\s*:\s*DQ([^DQ]+)DQ, with DQ the double quote *)
    [Lit (dq :: lit "email" ++ [dq]); star is_space; Lit (lit ":"); star is_space;
     Lit [dq]; Open; plus (fun c => negb (Ascii.eqb c dq)); Close; Lit [dq]];
    (* SQemailSQ\s*:\s*SQ([^SQ]+)SQ, with SQ the single quote *)
    [Lit (sq :: lit "email" ++ [sq]); star is_space; Lit (lit ":"); star is_space;
     Lit [sq]; Open; plus (fun c => negb (Ascii.eqb c sq)); Close; Lit [sq]];
    (* data-email=[Q]([^Q]+)[Q] *)
    quoted_value [Lit (lit "data-email=")];
    (* data-contact=[Q]([^Q]+)[Q] *)
    quoted_value [Lit (lit "data-contact=")];
    (* data-mail=[Q]([^Q]+)[Q] *)
    quoted_value [Lit (lit "data-mail=")];
    (* content\s*:\s*[Q]([^Q]+)[Q] *)
    quoted_value [Lit (lit "content"); star is_space; Lit (lit ":"); star is_space] ].

Section WithEnv.
Context {env : PyEnv}.

Definition _clean_email (email : str) : str :=
  match email with
  | [] => []
  | _ :: _ =>
      let email := html_unescape email in
      let email := unquote email in
      let email := replace (lit "&amp;") (lit "&") email in
      let email := sub [star is_space; Lit (lit "@"); star is_space] (lit "@") email in
      let email := sub [star is_space; Lit (lit "."); star is_space] (lit ".") email in
      let email := replace (lit " dot ") (lit ".") (replace (lit " at ") (lit "@") email) in
      let email := strip_by (fun c => one_of " '()[]{}<>" c || Ascii.eqb c dq) email in
      lower email
  end.

(** The loop shared by the extraction functions: clean every raw
    match and keep it when the cleaned text matches in full. *)
Definition add_cleaned (emails : list str) (raw : str) : list str :=
  let cleaned := _clean_email raw in
  if fullmatch EMAIL_REGEX cleaned then set_add cleaned emails else emails.

Definition _extract_from_decoded (text : str) : list str :=
  match text with
  | [] => []
  | _ :: _ => fold_left add_cleaned (findall EMAIL_REGEX text) []
  end.

Definition _extract_advanced_emails (content : str) : list str :=
  match content with
  | [] => []
  | _ :: _ =>
      let working := html_unescape content in
      let emails :=
        fold_left
          (fun emails pattern => fold_left add_cleaned (findall pattern working) emails)
          _advanced_patterns [] in
      let emails :=
        fold_left
          (fun emails encoded =>
             if negb (List.length encoded mod 4 =? 0) then emails
             else match b64decode_utf8 encoded with
                  | None => emails
                  | Some decoded => set_update emails (_extract_from_decoded decoded)
                  end)
          (findall BASE64_REGEX working) emails in
      let emails :=
        fold_left
          (fun emails candidate =>
             let decoded := rot13 candidate in
             if negb (PyStr.eqb decoded []) && negb (PyStr.eqb decoded candidate)
                && str_in (lit "@") decoded
             then set_update emails (_extract_from_decoded decoded)
             else emails)
          (findall ROT13_CANDIDATE_REGEX working) emails in
      let url_decoded := unquote working in
      if negb (PyStr.eqb url_decoded working)
      then set_update emails (_extract_from_decoded url_decoded)
      else emails
  end.

Definition extract_emails_from_text (text : str) : list str :=
  match text with
  | [] => []
  | _ :: _ =>
      let emails := fold_left add_cleaned (findall EMAIL_REGEX text) [] in
      set_update emails (_extract_advanced_emails text)
  end.

End WithEnv.
End Cloudflare.

(** An environment to evaluate examples in: the entities [&amp;],
    [&lt;], [&gt;] and [&quot;]; everything outside the ASCII range is
    rendered as [?]; no base64 decoding. *)
Definition example_env : PyEnv := {|
  html5 := fun s =>
    if PyStr.eqb s (lit "amp;") || PyStr.eqb s (lit "amp") then Some (lit "&")
    else if PyStr.eqb s (lit "lt;") || PyStr.eqb s (lit "lt") then Some (lit "<")
    else if PyStr.eqb s (lit "gt;") || PyStr.eqb s (lit "gt") then Some (lit ">")
    else if PyStr.eqb s (lit "quot;") || PyStr.eqb s (lit "quot") then Some [Cloudflare.dq]
    else None;
  nonascii_charref := fun _ => lit "?";
  utf8_replace := map (fun byte => if is_ascii byte then byte else "?"%char);
  b64decode_utf8 := fun _ => None
|}.

(* ================================================================== *)
(** ** The web: URL parsing, HTML parsing, the network, the search provider *)
(* ================================================================== *)

(** [urlparse(url).hostname]: the call raises [ValueError], or yields
    a host name or [None]. *)
Inductive parse_result : Type :=
| ValueError
| Hostname (h : option str).

(** The outcome of [session.get(url, timeout=15)]. *)
Inductive response : Type :=
| RequestException
| Response (ok : bool) (content_type : str) (text : str).

(** A result of the search provider. *)
Record search_item : Type := {
  item_href : str;   (* [item.get(href)], empty when absent *)
  item_url : str;    (* [item.get(url)] *)
  item_title : str   (* [item.get(title)] *)
}.

Class WebEnv : Type := {
  urlparse_hostname : str -> parse_result;
  (** [urllib.parse.urljoin(base, href)] *)
  urljoin : str -> str -> str;
  (** the [href] values of the [a] elements of a page that carry one,
      in document order: what BeautifulSoup's [find_all] and [select]
      give the two harvesters *)
  anchors : str -> list str;
  (** the network: the answer to a GET of a URL, after the requests
      made so far *)
  respond : list str -> str -> response;
  (** the search provider, [ddgs.text(query, max_results=n)]: the
      results for a query, after the queries made so far *)
  ddgs_text : list str -> str -> Z -> list search_item;
  (** the order in which Python iterates over a set of strings, given
      in the order its elements were added *)
  set_iter : list str -> list str;
  set_iter_perm : forall s, Permutation (set_iter s) s
}.

(** What a run has done to the outside: the GET requests sent to
    crawled pages and the queries sent to the search provider. *)
Record world : Type := {
  requests : list str;
  searches : list str
}.

Definition get `{WebEnv} (w : world) (url : str) : response * world :=
  (respond (requests w) url,
   {| requests := requests w ++ [url]; searches := searches w |}).

(** [hostname or ""] *)
Definition or_empty (h : option str) : str :=
  match h with
  | Some s => s
  | None => []
  end.

(** A row of the output CSV. *)
Record row : Type := {
  Query : str;
  Title : str;
  Email : str;
  SourceURL : str
}.

(** A bound of the crawl loops below: a session runs its seed and at
    most four discovered links. *)
Definition session_fuel : nat := 5.

(* ================================================================== *)
(** ** deep_email_harvester.py *)
(* ================================================================== *)

Module Deep.

Definition EMAIL_RE : Re.regex := Cloudflare.EMAIL_REGEX.

Definition GENERIC_PROVIDERS : list str :=
  map lit ["gmail.com"; "yahoo.com"; "hotmail.com"; "outlook.com"; "mail.ru";
           "yandex.ru"; "ya.ru"; "bk.ru"; "inbox.ru"]%string.

Definition DISALLOWED_TLDS : list str :=
  map lit ["png"; "gif"; "jpg"; "jpeg"; "svg"; "webp"]%string.

Definition CONTACT_KEYWORDS : list str :=
  map lit ["contact"; "kontakt"; "about"; "company"; "support"; "team";
           "contacts"; "kontakt"]%string.

Definition default_exclude : list str :=
  map lit ["wixpress.com"; "sentry.io"; "mysite.com"; "hubspot.com";
           "mailchimp.com"; "zohomail.com"]%string.

Section WithWeb.
Context {web : WebEnv}.

Definition fetch (w : world) (url : str) : str * world :=
  match get w url with
  | (Response true _ text, w') => (text, w')
  | (_, w') => ([], w')
  end.

Definition extract_emails (text : str) : list str :=
  match text with
  | [] => []
  | _ :: _ =>
      fold_left (fun acc email => set_add (lower (strip email)) acc)
                (Re.findall EMAIL_RE text) []
  end.

Definition same_host (base candidate : str) : bool :=
  match urlparse_hostname base, urlparse_hostname candidate with
  | Hostname h, Hostname c =>
      let host := or_empty h in
      let cand := or_empty c in
      endswith cand (hd [] (split_1 ":" host))
  | _, _ => false
  end.

Definition skipped_href (href : str) : bool :=
  PyStr.eqb href [] || startswith href (lit "mailto:")
  || startswith href (lit "javascript:") || startswith href (lit "#").

(** The [for anchor in ...] loop of [discover_related]; [related] is a
    set, kept in the order its elements were added. *)
Fixpoint discover_loop (base_url : str) (limit : Z) (hrefs related : list str)
  : list str :=
  match hrefs with
  | [] => related
  | raw :: rest =>
      let href := strip raw in
      if skipped_href href then discover_loop base_url limit rest related
      else
        let dest := urljoin base_url href in
        if negb (same_host base_url dest) then discover_loop base_url limit rest related
        else
          let related :=
            if existsb (fun keyword => str_in keyword (lower href)) CONTACT_KEYWORDS
            then set_add dest related else related in
          if (limit <=? Z.of_nat (List.length related))%Z then related
          else discover_loop base_url limit rest related
  end.

Definition discover_related (base_url html : str) (limit : Z) : list str :=
  discover_loop base_url limit (anchors html) [].

(** The state of the loop of [harvest_emails]. *)
Record crawl : Type := {
  visited : list str;
  queue : list str;
  collected : list str;
  net : world
}.

(** [if current in visited: continue] and [visited.add(current)]: the
    test that lets a URL through once, and the set after it. *)
Definition check_and_set (current : str) (visited : list str) : bool * list str :=
  (negb (mem current visited), set_add current visited).

(** One round of the loop, [current] taken off the queue [rest]. *)
Definition harvest_round (st : crawl) (current : str) (rest : list str) : crawl :=
  match check_and_set current (visited st) with
  | (false, _) =>
      {| visited := visited st; queue := rest; collected := collected st; net := net st |}
  | (true, visited') =>
      let (html, w) := fetch (net st) current in
      match html with
      | [] => {| visited := visited'; queue := rest; collected := collected st; net := w |}
      | _ :: _ =>
          let collected' := set_update (collected st) (extract_emails html) in
          let queue' :=
            if List.length visited' =? 1
            then rest ++ filter (fun link => negb (mem link visited'))
                                (set_iter (discover_related current html 4))
            else rest in
          {| visited := visited'; queue := queue'; collected := collected'; net := w |}
      end
  end.

(** [while queue and len(visited) < max_pages] *)
Fixpoint harvest_loop (fuel : nat) (max_pages : Z) (st : crawl) : crawl :=
  match fuel with
  | O => st
  | S fuel' =>
      match queue st with
      | [] => st
      | current :: rest =>
          if (Z.of_nat (List.length (visited st)) <? max_pages)%Z
          then harvest_loop fuel' max_pages (harvest_round st current rest)
          else st
      end
  end.

Definition harvest_start (url : str) (w : world) : crawl :=
  {| visited := []; queue := [url]; collected := []; net := w |}.

Definition harvest_emails (w : world) (url : str) (max_pages : Z) : list str * world :=
  let st := harvest_loop session_fuel max_pages (harvest_start url w) in
  (collected st, net st).

End WithWeb.

Definition domain_of (email : str) : str := lower (last_item (split_1 "@" email)).

Definition filter_email (email : str) (required exclude : list str) : bool :=
  let domain := domain_of email in
  if mem domain GENERIC_PROVIDERS then false
  else if negb (str_in (lit ".") domain) then false
  else
    let tld := last_item (rsplit_1 "." domain) in
    if mem tld DISALLOWED_TLDS then false
    else if existsb (fun substr => str_in substr email) exclude then false
    else
      match required with
      | _ :: _ =>
          if negb (existsb (fun token => str_in token domain) required) then false
          else true
      | [] => true
      end.

(** The parsed command line; [queries_file] holds the lines of the
    file when a path was given and the file exists. *)
Record args : Type := {
  queries : list str;
  queries_file : option (list str);
  limit : Z;
  max_pages : Z;
  require : list str;
  exclude : list str
}.

Definition collect_queries (file : option (list str)) (inline : list str) : list str :=
  let queries :=
    match file with
    | Some lines =>
        inline ++ map strip
                      (filter (fun line => negb (PyStr.eqb (strip line) [])
                                           && negb (startswith line (lit "#")))
                              lines)
    | None => inline
    end in
  sorted (set_update [] queries).

(** What [main] prints. *)
Inductive message : Type :=
| No_queries_supplied
| No_emails_discovered
| Captured (emails urls : nat).

(** What [main] leaves behind: its exit code, its message, the rows of
    the CSV when it writes one, and the requests and searches made. *)
Record outcome : Type := {
  exit_code : Z;
  printed : message;
  written : option (list row);
  final : world
}.

(** The variables of the loops of [main]. *)
Record run : Type := {
  seen_urls : list str;
  seen_emails : list str;
  rows : list row;
  now : world
}.

(** The body of [for email in sorted(filtered)]. *)
Definition store (query title url : str) (st : list str * list row) (email : str)
  : list str * list row :=
  let (seen, rs) := st in
  if mem email seen then st
  else (set_add email seen,
        rs ++ [{| Query := query; Title := title; Email := email; SourceURL := url |}]).

Section MainWithWeb.
Context {web : WebEnv}.

(** The body of [for item in results], down to the loop that stores:
    the URL of the item, and [sorted(filtered)] of what its session
    harvests; [None] when the item is passed over. *)
Definition harvest_item (a : args) (seen_urls : list str) (w : world) (item : search_item)
  : option (str * list str * world) :=
  let url := match item_href item with
             | [] => item_url item
             | _ :: _ => item_href item
             end in
  if PyStr.eqb url [] || mem url seen_urls then None
  else
    let (emails, w') := harvest_emails w url (Z.max (max_pages a) 1) in
    let filtered := filter (fun email => filter_email email (require a) (exclude a)) emails in
    Some (url, sorted filtered, w').

(** The body of [for item in results]. *)
Definition visit_item (a : args) (query : str) (st : run) (item : search_item) : run :=
  match harvest_item a (seen_urls st) (now st) item with
  | None => st
  | Some (url, accepted, w) =>
      let (seen, rs) :=
        fold_left (store query (item_title item) url) accepted (seen_emails st, rows st) in
      {| seen_urls := set_add url (seen_urls st); seen_emails := seen; rows := rs; now := w |}
  end.

(** The body of [for query in queries]. *)
Definition run_query (a : args) (st : run) (query : str) : run :=
  let results := ddgs_text (searches (now st)) query (Z.max (limit a) 1) in
  let w := {| requests := requests (now st); searches := searches (now st) ++ [query] |} in
  fold_left (visit_item a query)
            results
            {| seen_urls := seen_urls st; seen_emails := seen_emails st;
               rows := rows st; now := w |}.

Definition main (a : args) (w : world) : outcome :=
  match collect_queries (queries_file a) (queries a) with
  | [] => {| exit_code := 1; printed := No_queries_supplied; written := None; final := w |}
  | qs =>
      let st := fold_left (run_query a) qs
                          {| seen_urls := []; seen_emails := []; rows := []; now := w |} in
      match rows st with
      | [] => {| exit_code := 0; printed := No_emails_discovered; written := None;
                 final := now st |}
      | rs => {| exit_code := 0;
                 printed := Captured (List.length rs) (List.length (seen_urls st));
                 written := Some rs; final := now st |}
      end
  end.

End MainWithWeb.

End Deep.

(* ================================================================== *)
(** ** multi_engine_harvester.py *)
(* ================================================================== *)

Module Multi.

Definition EMAIL_RE : Re.regex := Cloudflare.EMAIL_REGEX.

Definition SUPPORTED_ENGINES : list str :=
  map lit ["google"; "bing"; "yahoo"; "yandex"; "duckduckgo"]%string.

Definition CONTACT_KEYWORDS : list str :=
  map lit ["contact"; "kontakt"; "about"; "team"; "company"; "support"; "services";
           "locations"; "branches"; "offices"; "directions"]%string.

Definition SOCIAL_DOMAINS : list str :=
  map lit ["facebook.com"; "m.facebook.com"; "twitter.com"; "x.com"; "instagram.com";
           "linkedin.com"; "youtube.com"; "tiktok.com"; "wa.me";
           "api.whatsapp.com"]%string.

Definition GENERIC_PROVIDERS : list str :=
  map lit ["gmail.com"; "yahoo.com"; "hotmail.com"; "outlook.com"; "icloud.com";
           "mail.ru"; "yandex.ru"; "ya.ru"; "bk.ru"; "inbox.ru"]%string.

Definition EXCLUDED_DOMAINS : list str :=
  map lit ["wixpress.com"; "sentry.io"; "mysite.com"; "hubspot.com"; "mailchimp.com";
           "zoho.com"; "zohomail.com"; "medium.com"; "wordpress.com";
           "googleusercontent.com"; "amazonaws.com"]%string.

Definition AVIATION_KEYWORDS : list str :=
  map lit ["air"; "avia"; "airline"; "airlines"; "airways"; "airport"; "aircraft";
           "jet"; "jets"; "charter"; "charters"; "flight"; "flights"; "aero"; "ops";
           "heli"; "helicopter"; "cargo"; "fleet"; "crew"; "dispatch"; "ground";
           "hangar"; "handling"; "dnata"; "emirates"; "etihad"; "flydubai"; "jetex";
           "aeroflot"; "rossiya"]%string.

Definition TRUSTED_LOCAL_PARTS : list str :=
  map lit ["info"; "sales"; "ops"; "charter"; "booking"; "reservations"; "dispatch";
           "support"; "cargo"; "handling"]%string.

Definition REGIONAL_TLDS : list str :=
  map lit ["ru"; "su"; "ae"; "qa"; "sa"; "bh"; "kw"; "om"; "aero"; "za"; "zm"; "zw";
           "ng"; "gh"; "ke"; "ug"; "tz"; "et"; "er"; "dj"; "sd"; "ss"; "eg"; "ly";
           "tn"; "ma"; "dz"; "ao"; "na"; "bw"; "mz"; "mw"; "mg"; "ga"; "cm"; "cg";
           "cd"; "cf"; "td"; "ne"; "ml"; "bf"; "ci"; "gn"; "gw"; "gm"; "sl"; "lr";
           "bj"; "tg"; "sn"; "mr"; "st"; "gq"; "cv"; "sc"; "mu"; "km"; "sz"; "ls";
           "bi"; "so"]%string.

(** The harvester object. *)
Record harvester : Type := {
  engines : list str;
  url_limit : Z;
  visited_urls : list str
}.

Definition default_engines : list str :=
  map lit ["google"; "bing"; "yahoo"; "yandex"]%string.

(** The end of [MultiEngineHarvester.__init__]. *)
Definition __init__ (engines : list str) (url_limit : Z) : harvester :=
  let supported := filter (fun engine => mem engine SUPPORTED_ENGINES) engines in
  {| engines := match supported with
                | [] => default_engines
                | _ :: _ => supported
                end;
     url_limit := url_limit;
     visited_urls := [] |}.

(** The three signals of [is_aviation_email]. *)
Definition keyword_hit (email_lower : str) : bool :=
  existsb (fun token => str_in token email_lower) AVIATION_KEYWORDS.

Definition trusted_local (local_part : str) : bool :=
  existsb (fun prefix => startswith local_part prefix) TRUSTED_LOCAL_PARTS.

Definition regional_tld (domain : str) : bool :=
  let tld := last_item (rsplit_1 "." domain) in
  mem tld REGIONAL_TLDS || endswith domain (lit ".aero").

Definition is_aviation_email (email : str) : bool :=
  let email_lower := lower email in
  if negb (str_in (lit "@") email_lower) then false
  else
    match split_1 "@" email_lower with
    | [local_part; domain] =>
        if mem domain GENERIC_PROVIDERS then false
        else if endswith domain (lit ".gov") || endswith domain (lit ".edu") then false
        else if existsb (fun exclusion => endswith domain exclusion) EXCLUDED_DOMAINS
             then false
        else
          let signal :=
            keyword_hit email_lower || trusted_local local_part || regional_tld domain in
          if endswith domain (lit ".com") && negb signal then false
          else signal
    | _ => false
    end.

Section WithWeb.
Context {web : WebEnv}.

Definition hostname_for (url : str) : str :=
  match urlparse_hostname url with
  | ValueError => []
  | Hostname h => lower (or_empty h)
  end.

Definition should_skip_url (url : str) : bool :=
  let host := hostname_for url in
  match host with
  | [] => true
  | _ :: _ =>
      if existsb (fun domain => endswith host domain) SOCIAL_DOMAINS then true
      else if existsb (fun domain => endswith host domain) EXCLUDED_DOMAINS then true
      else false
  end.

(** The list [cleaned] of [multi_engine_search], made of the URLs the
    engines returned; the seeds of the sessions are drawn from it. *)
Definition cleaned (urls : list str) : list str :=
  filter (fun url => startswith url (lit "http") && negb (should_skip_url url)) urls.

Definition fetch_html (self : harvester) (w : world) (url : str)
  : str * harvester * world :=
  if mem url (visited_urls self) || should_skip_url url then ([], self, w)
  else
    match get w url with
    | (RequestException, w') => ([], self, w')
    | (Response false _ _, w') => ([], self, w')
    | (Response true content_type text, w') =>
        if negb (str_in (lit "text/html") content_type) then ([], self, w')
        else (text,
              {| engines := engines self; url_limit := url_limit self;
                 visited_urls := set_add url (visited_urls self) |},
              w')
    end.

(** The [for anchor in ...] loop of [discover_related]; [related] is a
    list. *)
Fixpoint discover_loop (base_url base_host : str) (limit : Z)
         (hrefs related : list str) : list str :=
  match hrefs with
  | [] => related
  | raw :: rest =>
      let href := strip raw in
      if Deep.skipped_href href then discover_loop base_url base_host limit rest related
      else
        let dest := urljoin base_url href in
        let dest_host := hostname_for dest in
        if PyStr.eqb dest_host [] || negb (PyStr.eqb dest_host base_host)
        then discover_loop base_url base_host limit rest related
        else if should_skip_url dest
        then discover_loop base_url base_host limit rest related
        else
          let related :=
            if existsb (fun keyword => str_in keyword (lower href)) CONTACT_KEYWORDS
            then related ++ [dest] else related in
          if (limit <=? Z.of_nat (List.length related))%Z then related
          else discover_loop base_url base_host limit rest related
  end.

Definition discover_related (base_url html : str) (limit : Z) : list str :=
  discover_loop base_url (hostname_for base_url) limit (anchors html) [].

Definition extract_emails_from_html (html : str) : list str :=
  fold_left (fun matches email =>
               let email_lower := lower email in
               if is_aviation_email email_lower then set_add email_lower matches
               else matches)
            (Re.findall EMAIL_RE html) [].

(** The state of the loop of [extract_emails_from_url]. *)
Record crawl : Type := {
  emails : list str;
  queue : list str;
  seen : list str;
  self : harvester;
  net : world
}.

(** [if current in seen or self.should_skip_url(current): continue]
    and [seen.add(current)]. *)
Definition check_and_set (current : str) (seen : list str) : bool * list str :=
  if mem current seen || should_skip_url current then (false, seen)
  else (true, set_add current seen).

(** One round of the loop, [current] taken off the queue [rest]. *)
Definition extract_round (url : str) (st : crawl) (current : str) (rest : list str)
  : crawl :=
  match check_and_set current (seen st) with
  | (false, _) =>
      {| emails := emails st; queue := rest; seen := seen st; self := self st;
         net := net st |}
  | (true, seen') =>
      match fetch_html (self st) (net st) current with
      | ([], h, w) =>
          {| emails := emails st; queue := rest; seen := seen'; self := h; net := w |}
      | (html, h, w) =>
          let emails' := set_update (emails st) (extract_emails_from_html html) in
          let queue' :=
            if PyStr.eqb current url
            then rest ++ filter (fun link => negb (mem link seen'))
                                (discover_related current html 4)
            else rest in
          {| emails := emails'; queue := queue'; seen := seen'; self := h; net := w |}
      end
  end.

(** [while queue and len(seen) < 6] *)
Fixpoint extract_loop (fuel : nat) (url : str) (st : crawl) : crawl :=
  match fuel with
  | O => st
  | S fuel' =>
      match queue st with
      | [] => st
      | current :: rest =>
          if List.length (seen st) <? 6
          then extract_loop fuel' url (extract_round url st current rest)
          else st
      end
  end.

Definition extract_start (h : harvester) (w : world) (url : str) : crawl :=
  {| emails := []; queue := [url]; seen := []; self := h; net := w |}.

Definition extract_emails_from_url (h : harvester) (w : world) (url : str)
  : list str * harvester * world :=
  let st := extract_loop session_fuel url (extract_start h w url) in
  (emails st, self st, net st).

End WithWeb.



End Multi.

(* ================================================================== *)
(** ** search_based_extractor.py: the validity test *)
(* ================================================================== *)

Module SearchBased.
Import Re.


(** [[a-z0-9._%+-]] and [[a-z0-9.-]] *)
Definition local_char (c : ascii) : bool := is_lower c || is_digit c || one_of "._%+-" c.
Definition domain_char (c : ascii) : bool := is_lower c || is_digit c || one_of ".-" c.




End SearchBased.

(* ================================================================== *)
(** ** A small web to evaluate examples in *)
(* ================================================================== *)

Module Example.

(** The text after the first occurrence of [sep]. *)
Fixpoint after (sep s : str) : option str :=
  if startswith s sep then Some (skipn (List.length sep) s)
  else match s with
       | [] => None
       | _ :: s' => after sep s'
       end.

Fixpoint takewhile (p : ascii -> bool) (s : str) : str :=
  match s with
  | c :: s' => if p c then c :: takewhile p s' else []
  | [] => []
  end.

(** The authority of [scheme://authority/path]. *)
Definition netloc (url : str) : option str :=
  match after (lit "://") url with
  | Some rest => Some (takewhile (fun c => negb (one_of "/?#" c)) rest)
  | None => None
  end.

(** [urlparse(url).hostname] for URLs of the shape
    [scheme://host:port/path]. *)
Definition hostname (url : str) : parse_result :=
  match netloc url with
  | Some loc =>
      match lower (hd [] (split_1 ":" loc)) with
      | [] => Hostname None
      | h => Hostname (Some h)
      end
  | None => Hostname None
  end.

(** [urljoin(base, href)] for an absolute [href], a [href] that starts
    with a slash, and a [href] relative to the directory of [base]. *)
Definition join (base href : str) : str :=
  match after (lit "://") href with
  | Some _ => href
  | None =>
      match netloc base, after (lit "://") base with
      | Some loc, Some rest =>
          let scheme := firstn (List.length base - List.length rest) base in
          if startswith href (lit "/") then scheme ++ loc ++ href
          else
            let path := skipn (List.length loc) rest in
            let dir := match rsplit_1 "/" path with
                       | [d; _] => d ++ lit "/"
                       | _ => lit "/"
                       end in
            scheme ++ loc ++ dir ++ href
      | _, _ => href
      end
  end.

(** The [href] values written [<a href=Q...Q], [Q] the double quote. *)
Definition hrefs (html : str) : list str :=
  Re.findall [Re.Lit (lit "<a href=" ++ [Cloudflare.dq]); Re.Open;
              Re.star (fun c => negb (Ascii.eqb c Cloudflare.dq)); Re.Close;
              Re.Lit [Cloudflare.dq]]
             html.

Definition a (href text : string) : str :=
  lit "<a href=" ++ [Cloudflare.dq] ++ lit href ++ [Cloudflare.dq] ++ lit ">"
  ++ lit text ++ lit "</a>".

(** The seed page of the site: two contact links (one of them twice),
    a link off the site, and two addresses. *)
Definition home_page : str :=
  lit "<html>" ++ a "/contact" "Contact Us" ++ a "/about/team" "Team"
  ++ a "/contact" "Write" ++ a "http://notexample.com/contact" "Partner"
  ++ a "mailto:info@airline.aero" "Mail" ++ lit " Ops@Airline.Aero, jane@gmail.com</html>".

Definition contact_page : str :=
  lit "<html>sales@airline.aero info@airline.aero john@acme.com</html>".

Definition site (url : str) : response :=
  if PyStr.eqb url (lit "http://example.com/")
  then Response true (lit "text/html; charset=utf-8") home_page
  else if PyStr.eqb url (lit "http://example.com/contact")
  then Response true (lit "text/html") contact_page
  else if PyStr.eqb url (lit "http://example.com/about/team")
  then Response false (lit "text/html") (lit "gone")
  else RequestException.

Definition result (href title : string) : search_item :=
  {| item_href := lit href; item_url := []; item_title := lit title |}.

Definition web : WebEnv := {|
  urlparse_hostname := hostname;
  urljoin := join;
  anchors := hrefs;
  respond := fun _ url => site url;
  ddgs_text := fun _ query _ =>
    if PyStr.eqb query (lit "air charter")
    then [result "http://example.com/" "Example Air"]
    else if PyStr.eqb query (lit "private jet")
    then [result "http://example.com/contact" "Contact";
          result "http://example.com/" "Example Air again"]
    else [];
  set_iter := fun s => s;
  set_iter_perm := fun s => Permutation_refl s
|}.

Definition quiet : world := {| requests := []; searches := [] |}.

(** A command line of the deep harvester with two queries, and one
    with none. *)
Definition two_queries : Deep.args := {|
  Deep.queries := [lit "private jet"; lit "air charter"];
  Deep.queries_file := None;
  Deep.limit := 60;
  Deep.max_pages := 6;
  Deep.require := [];
  Deep.exclude := Deep.default_exclude
|}.

Definition no_queries : Deep.args := {|
  Deep.queries := [];
  Deep.queries_file := Some [lit "# queries"; lit "   "];
  Deep.limit := 60;
  Deep.max_pages := 6;
  Deep.require := [];
  Deep.exclude := Deep.default_exclude
|}.



End Example.

(* ================================================================== *)
(** ** The notions the properties are stated with *)
(* ================================================================== *)

(** The reject rules of [Deep.filter_email] that come before the test
    of the required substrings. *)
Definition deep_reject_hit (email : str) (exclude : list str) : bool :=
  let domain := Deep.domain_of email in
  mem domain Deep.GENERIC_PROVIDERS
  || negb (str_in (lit ".") domain)
  || mem (last_item (rsplit_1 "." domain)) Deep.DISALLOWED_TLDS
  || existsb (fun substr => str_in substr email) exclude.

(** What a pattern matches, without the search: [matches r w rest]
    says that [r] matches the word [w] when [rest] follows it. *)
Inductive matches : Re.regex -> str -> str -> Prop :=
| matches_nil rest :
    matches [] [] rest
| matches_rep cls lo hi r w1 w2 rest :
    Forall (fun c => cls c = true) w1 ->
    lo <= List.length w1 ->
    (forall h, hi = Some h -> List.length w1 <= h) ->
    matches r w2 rest ->
    matches (Re.Rep cls lo hi :: r) (w1 ++ w2) rest
| matches_lit w r w2 rest :
    matches r w2 rest ->
    matches (Re.Lit w :: r) (w ++ w2) rest
| matches_alt ws w r w2 rest :
    In w ws ->
    matches r w2 rest ->
    matches (Re.Alt ws :: r) (w ++ w2) rest
| matches_open r w rest :
    matches r w rest ->
    matches (Re.Open :: r) w rest
| matches_close r w rest :
    matches r w rest ->
    matches (Re.Close :: r) w rest
| matches_dollar r w rest :
    w ++ rest = [] \/ w ++ rest = ["010"%char] ->
    matches r w rest ->
    matches (Re.Dollar :: r) w rest.

(** A pattern without a capture group. *)
Definition groupless (r : Re.regex) : bool :=
  forallb (fun a => match a with
                    | Re.Close => false
                    | _ => true
                    end) r.

(** The canonical email grammar: a non-empty local part, [@], and a
    domain that ends with a dot and a top-level domain of two letters
    or more. *)
Definition canonical_email (e : str) : Prop :=
  exists local_part domain tld,
    e = local_part ++ lit "@" ++ domain ++ lit "." ++ tld
    /\ local_part <> [] /\ Forall (fun c => Cloudflare.local_char c = true) local_part
    /\ domain <> [] /\ Forall (fun c => Cloudflare.domain_char c = true) domain
    /\ 2 <= List.length tld /\ Forall (fun c => is_alpha c = true) tld.

Definition lowercase (e : str) : Prop := Forall (fun c => is_upper c = false) e.

(** What a stored address has to be. *)
Definition well_formed (e : str) : Prop := canonical_email e /\ lowercase e.

(** The patterns the program searches a text with, by [findall] or by
    [re.sub]. *)
Definition patterns_in_use : list Re.regex :=
  [Cloudflare.EMAIL_REGEX; Cloudflare.BASE64_REGEX; Cloudflare.ROT13_CANDIDATE_REGEX;
   [Re.star is_space; Re.Lit (lit "@"); Re.star is_space];
   [Re.star is_space; Re.Lit (lit "."); Re.star is_space]]
  ++ Cloudflare._advanced_patterns.


(** A [href] the link discoverers do not skip: not empty, and not a
    [mailto:], a [javascript:] or a fragment reference. *)
Definition followable (href : str) : Prop :=
  href <> []
  /\ (forall t, href <> lit "mailto:" ++ t)
  /\ (forall t, href <> lit "javascript:" ++ t)
  /\ (forall t, href <> lit "#" ++ t).

(** [dest] is the target of one of the anchors [hrefs], whose [href]
    can be followed and contains, in lowercase, one of the [keywords]. *)
Definition origin `{WebEnv} (base_url : str) (keywords hrefs : list str)
           (dest : str) : Prop :=
  exists raw keyword before behind,
    In raw hrefs
    /\ followable (strip raw)
    /\ dest = urljoin base_url (strip raw)
    /\ In keyword keywords
    /\ lower (strip raw) = before ++ keyword ++ behind.

Definition from_contact_anchor `{WebEnv} (keywords : list str)
           (base_url html dest : str) : Prop :=
  origin base_url keywords (anchors html) dest.

(** The requests a computation added to those of [w]. *)
Definition fetched_since (w w' : world) : list str :=
  skipn (List.length (requests w)) (requests w').

(** How many of the [urls] are pages of the host [h]. *)
Definition pages_of `{WebEnv} (h : str) (urls : list str) : nat :=
  List.length (filter (fun u => PyStr.eqb (Multi.hostname_for u) h) urls).

(** The visited set after the URLs [later] were presented to the
    check of a session, one after the other. *)
Definition deep_presented (later visited : list str) : list str :=
  fold_left (fun v u => snd (Deep.check_and_set u v)) later visited.

Definition multi_presented `{WebEnv} (later seen : list str) : list str :=
  fold_left (fun v u => snd (Multi.check_and_set u v)) later seen.

(** The loops of the two sessions have come to their end: the queue
    is empty, or the count of visited pages has reached the budget. *)
Definition deep_done (max_pages : Z) (st : Deep.crawl) : Prop :=
  Deep.queue st = [] \/ (max_pages <= Z.of_nat (List.length (Deep.visited st)))%Z.

Definition multi_done (st : Multi.crawl) : Prop :=
  Multi.queue st = [] \/ 6 <= List.length (Multi.seen st).

(** Rounds a loop can still make: the queue, and the four links the
    seed may add to it. *)
Definition deep_rounds (st : Deep.crawl) : nat :=
  List.length (Deep.queue st)
  + match Deep.visited st with
    | [] => 4
    | _ :: _ => 0
    end.

Definition multi_rounds (url : str) (st : Multi.crawl) : nat :=
  List.length (Multi.queue st) + (if mem url (Multi.seen st) then 0 else 4).

(** First writer wins: a record is kept when no record kept before
    it has its address. *)
Definition keep (kept : list row) (r : row) : list row :=
  if mem (Email r) (map Email kept) then kept else kept ++ [r].

Definition keep_first (records : list row) : list row := fold_left keep records [].

(** The records the sessions of a run of the deep harvester offer to
    the aggregation, in their order: one for every accepted address of
    every session, under the query, the title and the URL of the
    session. *)
Definition offered_by_item `{WebEnv} (a : Deep.args) (query : str)
           (st : list str * world * list row) (item : search_item)
  : list str * world * list row :=
  let '(seen, w, records) := st in
  match Deep.harvest_item a seen w item with
  | None => st
  | Some (url, accepted, w') =>
      (set_add url seen, w',
       records ++ map (fun email => {| Query := query; Title := item_title item;
                                       Email := email; SourceURL := url |})
                      accepted)
  end.

Definition offered_by_query `{WebEnv} (a : Deep.args)
           (st : list str * world * list row) (query : str)
  : list str * world * list row :=
  let '(seen, w, records) := st in
  fold_left (offered_by_item a query)
            (ddgs_text (searches w) query (Z.max (Deep.limit a) 1))
            (seen, {| requests := requests w; searches := searches w ++ [query] |},
             records).

Definition offered `{WebEnv} (a : Deep.args) (w : world) : list row :=
  snd (fold_left (offered_by_query a)
                 (Deep.collect_queries (Deep.queries_file a) (Deep.queries a))
                 ([], w, [])).

(** The rows a run writes; none when it writes no file. *)
Definition rows_written (o : Deep.outcome) : list row :=
  match Deep.written o with
  | Some rs => rs
  | None => []
  end.

(** The invariant of the loop of [Deep.harvest_emails], started in the
    world [w0]: the requests of the session are the visited URLs, in
    their order. *)
Definition deep_inv (w0 : world) (max_pages : Z) (st : Deep.crawl) : Prop :=
  requests (Deep.net st) = requests w0 ++ Deep.visited st
  /\ searches (Deep.net st) = searches w0
  /\ NoDup (Deep.visited st)
  /\ (Z.of_nat (List.length (Deep.visited st)) <= Z.max max_pages 0)%Z.

(** The invariant of the loop of [Multi.extract_emails_from_url]: the
    requests of the session are some of the URLs its check let
    through, each of them once. *)
Definition multi_inv (w0 : world) (st : Multi.crawl) : Prop :=
  exists fetched,
    requests (Multi.net st) = requests w0 ++ fetched
    /\ searches (Multi.net st) = searches w0
    /\ NoDup fetched
    /\ incl fetched (Multi.seen st)
    /\ NoDup (Multi.seen st)
    /\ List.length (Multi.seen st) <= 6.

(** The loops of [Deep.main] and the stream of offered records go
    together. *)
Definition together (st : Deep.run) (off : list str * world * list row) : Prop :=
  Deep.seen_urls st = fst (fst off)
  /\ Deep.now st = snd (fst off)
  /\ Deep.rows st = keep_first (snd off)
  /\ Deep.seen_emails st = map Email (Deep.rows st).

(* ================================================================== *)
(** ** More of Python: [split], slices, sorting by a key, [quote_plus] *)
(* ================================================================== *)

Module PyMore.

(** [s.split(sep)] for a non-empty [sep]: the occurrences of [sep] are
    taken from the left and do not overlap.  [skip] counts the
    characters of the separator still to be passed, [cur] is the item
    being read, reversed. *)
Fixpoint split_from (sep : str) (skip : nat) (cur s : str) : list str :=
  match s with
  | [] => [rev cur]
  | c :: s' =>
      match skip with
      | S k => split_from sep k cur s'
      | O =>
          if startswith s sep
          then rev cur :: split_from sep (List.length sep - 1) [] s'
          else split_from sep 0 (c :: cur) s'
      end
  end.

Definition split (sep s : str) : list str := split_from sep 0 [] s.

(** [xs[:n]]: the first [n] items, or all but the last [-n] when [n]
    is negative. *)
Definition slice_to (A : Type) (n : Z) (xs : list A) : list A :=
  firstn (Z.to_nat (if (n <? 0)%Z then Z.of_nat (List.length xs) + n else n)%Z) xs.

(** [str(n)] of an integer, as an f-string writes it. *)
Definition str_of_int (n : Z) : str := lit (NilZero.string_of_int (Z.to_int n)).



(** [urllib.parse.quote_plus(s)].  The text is encoded as UTF-8; the
    bytes of [_ALWAYS_SAFE] stand for themselves, a space becomes [+],
    and every other byte becomes [%XX] in upper-case hexadecimal. *)
Definition always_safe (c : ascii) : bool := is_alnum c || one_of "_.-~" c.

Definition hex_upper (n : N) : ascii :=
  nth (N.to_nat n) (lit "0123456789ABCDEF") "0"%char.

Definition percent_byte (byte : N) : str :=
  ["%"%char; hex_upper (byte / 16); hex_upper (byte mod 16)].

(** The UTF-8 bytes of a code point below 256. *)
Definition utf8_encode (c : ascii) : list N :=
  let n := N_of_ascii c in
  if (n <? 128)%N then [n] else [192 + n / 64; 128 + n mod 64]%N.

(** [urllib.parse.quote(s, safe)] *)
Definition quote (safe : ascii -> bool) (s : str) : str :=
  flat_map (fun c => if always_safe c || safe c then [c]
                     else flat_map percent_byte (utf8_encode c))
           s.

Definition quote_plus (s : str) : str :=
  if negb (str_in (lit " ") s) then quote (fun _ => false) s
  else replace (lit " ") (lit "+") (quote (Ascii.eqb " ") s).

End PyMore.
Import PyMore.

(* ================================================================== *)
(** ** multi_engine_harvester.py: the search engines *)
(* ================================================================== *)

(** What the search of the multi-engine harvester takes from outside,
    besides the web: the result links of a DuckDuckGo page and the
    order [random.shuffle] leaves a list in. *)
Class SerpEnv : Type := {
  (** for the elements [a.result__a] of a page, in document order,
      their [href], or the empty text when they have none *)
  result_anchors : str -> list str;
  shuffle : list str -> list str;
  shuffle_perm : forall urls, Permutation (shuffle urls) urls
}.

Module MultiSearch.
Section WithWeb.
Context {web : WebEnv} {serp : SerpEnv}.

(** The [try] block the five search functions share: the request, the
    links [pick] takes from the page of an answer that is [ok], and
    the slice that is returned.  An exception of the request leaves
    the results empty. *)
Definition search (self : Multi.harvester) (w : world) (url : str)
           (pick : str -> list str) : list str * world :=
  match get w url with
  | (Response true _ text, w') => (slice_to (Multi.url_limit self) (pick text), w')
  | (_, w') => (slice_to (Multi.url_limit self) [], w')
  end.

(** The loop of [search_google] over the links of the page.  An
    [IndexError] of [split(...)[1]] would end the loop with the results
    found so far. *)
Fixpoint google_links (hrefs results : list str) : list str :=
  match hrefs with
  | [] => results
  | href :: rest =>
      if startswith href (lit "/url?q=") then
        match nth_error (split (lit "/url?q=") href) 1 with
        | None => results
        | Some part =>
            let actual := nth 0 (split (lit "&") part) [] in
            if startswith actual (lit "http")
            then google_links rest (results ++ [actual])
            else google_links rest results
        end
      else google_links rest results
  end.

Definition search_google (self : Multi.harvester) (w : world) (query : str)
  : list str * world :=
  search self w
         (lit "https://www.google.com/search?q=" ++ quote_plus query ++ lit "&num="
          ++ str_of_int (Multi.url_limit self))
         (fun text => google_links (anchors text) []).

Definition search_bing (self : Multi.harvester) (w : world) (query : str)
  : list str * world :=
  search self w
         (lit "https://www.bing.com/search?q=" ++ quote_plus query ++ lit "&count="
          ++ str_of_int (Multi.url_limit self))
         (fun text =>
            filter (fun href => startswith href (lit "http")
                                && negb (str_in (lit "bing.com") href))
                   (anchors text)).

Definition search_yahoo (self : Multi.harvester) (w : world) (query : str)
  : list str * world :=
  search self w
         (lit "https://search.yahoo.com/search?p=" ++ quote_plus query ++ lit "&n="
          ++ str_of_int (Multi.url_limit self))
         (fun text =>
            filter (fun href => startswith href (lit "http")
                                && negb (str_in (lit "yahoo.com") href))
                   (anchors text)).

Definition search_yandex (self : Multi.harvester) (w : world) (query : str)
  : list str * world :=
  search self w
         (lit "https://yandex.com/search/?text=" ++ quote_plus query ++ lit "&numdoc="
          ++ str_of_int (Multi.url_limit self))
         (fun text =>
            filter (fun href => startswith href (lit "http")
                                && negb (str_in (lit "yandex") href))
                   (anchors text)).

Definition search_duckduckgo (self : Multi.harvester) (w : world) (query : str)
  : list str * world :=
  search self w
         (lit "https://duckduckgo.com/html/?q=" ++ quote_plus query ++ lit "&num="
          ++ str_of_int (Multi.url_limit self))
         (fun text => filter (fun href => startswith href (lit "http"))
                             (result_anchors text)).

(** The body of [for engine in self.engines]: the chain of [if] and
    [elif]; a name that is none of the five does nothing. *)
Definition search_with (self : Multi.harvester) (engine : str) (w : world) (query : str)
  : list str * world :=
  if PyStr.eqb engine (lit "google") then search_google self w query
  else if PyStr.eqb engine (lit "bing") then search_bing self w query
  else if PyStr.eqb engine (lit "yahoo") then search_yahoo self w query
  else if PyStr.eqb engine (lit "yandex") then search_yandex self w query
  else if PyStr.eqb engine (lit "duckduckgo") then search_duckduckgo self w query
  else ([], w).

Definition search_step (self : Multi.harvester) (query : str)
           (st : list str * world) (engine : str) : list str * world :=
  let (urls, w) := st in
  let (found, w') := search_with self engine w query in
  (set_update urls found, w').

Definition multi_engine_search (self : Multi.harvester) (w : world) (query : str)
  : list str * world :=
  let (urls, w') := fold_left (search_step self query) (Multi.engines self) ([], w) in
  (slice_to (Multi.url_limit self) (shuffle (Multi.cleaned (set_iter urls))), w').

End WithWeb.
End MultiSearch.

(* ================================================================== *)
(** ** multi_engine_harvester.py: countries, queries and the output
       per country *)
(* ================================================================== *)

Module MultiCountry.

(** Code points outside the ASCII range in the names of the countries. *)
Definition o_circumflex : ascii := "244".
Definition a_tilde : ascii := "227".
Definition e_acute : ascii := "233".
Definition i_acute : ascii := "237".

Definition cote_d_ivoire : str := lit "C" ++ [o_circumflex] ++ lit "te d'Ivoire".
Definition sao_tome_and_principe : str :=
  lit "S" ++ [a_tilde] ++ lit "o Tom" ++ [e_acute] ++ lit " and Pr" ++ [i_acute]
  ++ lit "ncipe".

Definition COUNTRY_TLD_MAP : list (str * str) :=
  [ (lit "Angola", lit "ao"); (lit "Benin", lit "bj"); (lit "Botswana", lit "bw");
    (lit "Burkina Faso", lit "bf"); (lit "Burundi", lit "bi");
    (lit "Cabo Verde", lit "cv"); (lit "Cameroon", lit "cm");
    (lit "Central African Republic", lit "cf"); (lit "Chad", lit "td");
    (lit "Comoros", lit "km"); (cote_d_ivoire, lit "ci");
    (lit "Democratic Republic of Congo", lit "cd"); (lit "Djibouti", lit "dj");
    (lit "Egypt", lit "eg"); (lit "Equatorial Guinea", lit "gq");
    (lit "Eritrea", lit "er"); (lit "Eswatini", lit "sz"); (lit "Ethiopia", lit "et");
    (lit "Gabon", lit "ga"); (lit "Gambia", lit "gm"); (lit "Ghana", lit "gh");
    (lit "Guinea", lit "gn"); (lit "Guinea-Bissau", lit "gw"); (lit "Kenya", lit "ke");
    (lit "Lesotho", lit "ls"); (lit "Liberia", lit "lr"); (lit "Libya", lit "ly");
    (lit "Madagascar", lit "mg"); (lit "Malawi", lit "mw"); (lit "Mali", lit "ml");
    (lit "Mauritania", lit "mr"); (lit "Mauritius", lit "mu");
    (lit "Mozambique", lit "mz"); (lit "Namibia", lit "na"); (lit "Niger", lit "ne");
    (lit "Nigeria", lit "ng"); (lit "Republic of Congo", lit "cg");
    (lit "Rwanda", lit "rw"); (sao_tome_and_principe, lit "st");
    (lit "Senegal", lit "sn"); (lit "Seychelles", lit "sc");
    (lit "Sierra Leone", lit "sl"); (lit "Somalia", lit "so");
    (lit "South Africa", lit "za"); (lit "South Sudan", lit "ss");
    (lit "Sudan", lit "sd"); (lit "Tanzania", lit "tz"); (lit "Togo", lit "tg");
    (lit "Tunisia", lit "tn"); (lit "Uganda", lit "ug"); (lit "Zambia", lit "zm");
    (lit "Zimbabwe", lit "zw"); (lit "Russia", lit "ru");
    (lit "Russian Federation", lit "ru"); (lit "United Arab Emirates", lit "ae");
    (lit "UAE", lit "ae"); (lit "Saudi Arabia", lit "sa"); (lit "Qatar", lit "qa");
    (lit "Bahrain", lit "bh"); (lit "Oman", lit "om") ].

Definition DEFAULT_AFRICAN_COUNTRIES : list str :=
  [ lit "Angola"; lit "Benin"; lit "Botswana"; lit "Burkina Faso"; lit "Burundi";
    lit "Cabo Verde"; lit "Cameroon"; lit "Central African Republic"; lit "Chad";
    lit "Comoros"; cote_d_ivoire; lit "Democratic Republic of Congo"; lit "Djibouti";
    lit "Egypt"; lit "Equatorial Guinea"; lit "Eritrea"; lit "Eswatini";
    lit "Ethiopia"; lit "Gabon"; lit "Gambia"; lit "Ghana"; lit "Guinea";
    lit "Guinea-Bissau"; lit "Kenya"; lit "Lesotho"; lit "Liberia"; lit "Libya";
    lit "Madagascar"; lit "Malawi"; lit "Mali"; lit "Mauritania"; lit "Mauritius";
    lit "Mozambique"; lit "Namibia"; lit "Niger"; lit "Nigeria";
    lit "Republic of Congo"; lit "Rwanda"; sao_tome_and_principe; lit "Senegal";
    lit "Seychelles"; lit "Sierra Leone"; lit "Somalia"; lit "South Africa";
    lit "South Sudan"; lit "Sudan"; lit "Tanzania"; lit "Togo"; lit "Tunisia";
    lit "Uganda"; lit "Zambia"; lit "Zimbabwe" ].

(** [d.get(key, default)] of a dict written as the list of its items *)
Fixpoint dict_get (A : Type) (d : list (str * A)) (key : str) (default : A) : A :=
  match d with
  | [] => default
  | (k, v) :: d' => if PyStr.eqb k key then v else dict_get d' key default
  end.


Definition base_keywords : list str :=
  map lit ["air charter"; "private jet"; "aviation"; "charter flights";
           "business aviation"; "helicopter charter"; "aircraft operator";
           "flight services"; "aviation broker"; "air taxi"]%string.

(** A text between double quotes. *)
Definition quoted (s : str) : str := [Cloudflare.dq] ++ s ++ [Cloudflare.dq].

(** The five queries [build_queries] appends for a keyword. *)
Definition keyword_queries (country tld keyword : str) : list str :=
  [ quoted keyword ++ lit " " ++ quoted country ++ lit " " ++ quoted (lit "contact")
    ++ lit " email";
    quoted keyword ++ lit " " ++ quoted country ++ lit " "
    ++ quoted (lit "email address") ++ lit " contact";
    quoted keyword ++ lit " " ++ quoted country ++ lit " " ++ quoted (lit "contact us")
    ++ lit " email";
    lit "site:." ++ tld ++ lit " " ++ quoted keyword ++ lit " " ++ quoted country
    ++ lit " email";
    quoted keyword ++ lit " " ++ quoted country ++ lit " " ++ quoted (lit "ops@") ].

Definition build_queries (country : str) : list str :=
  let tld := dict_get COUNTRY_TLD_MAP country (lit "com") in
  flat_map (keyword_queries country tld) base_keywords.

(** [load_countries]; [file] holds the lines of the file when a path
    was given and the file exists. *)
Definition load_countries (file : option (list str)) (inline : list str) : list str :=
  let countries :=
    match inline with
    | [] => []
    | _ :: _ => inline
    end in
  let countries :=
    match file with
    | Some lines =>
        countries ++ filter (fun line => negb (PyStr.eqb line [])
                                         && negb (startswith line (lit "#")))
                            (map strip lines)
    | None => countries
    end in
  match countries with
  | [] => DEFAULT_AFRICAN_COUNTRIES
  | _ :: _ => countries
  end.




End MultiCountry.

(* ================================================================== *)
(** ** cloudflare_bypass_extractor.py: the listing, the challenge, the CSV *)
(* ================================================================== *)

Module CloudflareSite.

Definition build_listing_url (country_code : str) : str :=
  let country := lower (strip country_code) in
  lit "https://www.aircharterguide.com/listingsearch?dt=8&country=" ++ country.



(** The status [wait_for_cloudflare] returns beside its flag. *)
Inductive status : Type :=
| DRIVER_NOT_READY
| CAPTCHA
| DENIED
| SUCCESS
| TIMEOUT
| ERROR.

(** What the loop reads from the browser in one round. *)
Record snapshot : Type := {
  page_source : str;
  current_url : str
}.

(** The browser, as [wait_for_cloudflare] meets it: [driver.get]
    raises, or the rounds that begin before [max_wait] has passed find
    the snapshots of the list, [None] where reading one raises. *)
Inductive browser : Type :=
| GetRaises
| Rounds (snapshots : list (option snapshot)).

Definition captcha_tokens : list str :=
  map lit ["cf-captcha-container"; "cf-chl-captcha"; "g-recaptcha"; "hcaptcha"]%string.

(** The [while] loop; [challenge_seen] and the number of calls of
    [simulate_human_behaviour] made so far are carried along. *)
Fixpoint wait_loop (snapshots : list (option snapshot)) (challenge_seen : bool)
         (simulated : nat) : bool * status * nat :=
  match snapshots with
  | [] => (false, TIMEOUT, simulated)
  | None :: _ => (false, ERROR, simulated)
  | Some snap :: rest =>
      let page_source := lower (page_source snap) in
      let current_url := lower (current_url snap) in
      if str_in (lit "checking your browser") page_source
         || str_in (lit "enable cookies") page_source
      then wait_loop rest true simulated
      else if existsb (fun token => str_in token page_source) captcha_tokens
      then (false, CAPTCHA, simulated)
      else if str_in (lit "access denied") page_source
              || str_in (lit "forbidden") page_source
      then (false, DENIED, simulated)
      else if str_in (lit "aircharterguide") current_url
              || str_in (lit "aircharterguide") page_source
      then (true, SUCCESS, simulated)
      else wait_loop rest challenge_seen
                     (if challenge_seen then S simulated else simulated)
  end.

(** [driver] is [None] when the extractor has no browser. *)
Definition wait_for_cloudflare (driver : option browser) : bool * status :=
  match driver with
  | None => (false, DRIVER_NOT_READY)
  | Some GetRaises => (false, ERROR)
  | Some (Rounds snapshots) => fst (wait_loop snapshots false 0)
  end.

End CloudflareSite.

(* ================================================================== *)
(** ** The notions the further properties are stated with *)
(* ================================================================== *)




(** The characters [quote_plus] writes: the unreserved ones, [%] and
    [+]. *)
Definition query_safe (c : ascii) : bool := always_safe c || one_of "%+" c.

(** The requests a search function may send for a query: they begin
    with [https://] and carry the query as [quote_plus] encodes it. *)
Definition search_request (query url : str) : Prop :=
  exists head tail,
    url = lit "https://" ++ head ++ quote_plus query ++ tail.

(** The text [rest] does not go on with a character of the class. *)
Definition stops (cls : ascii -> bool) (rest : str) : Prop :=
  match rest with
  | [] => True
  | c :: _ => cls c = false
  end.

(** The text [before] does not end with a character of the class. *)
Definition ends_outside (cls : ascii -> bool) (before : str) : Prop :=
  before = [] \/ exists b c, before = b ++ [c] /\ cls c = false.

(** The characters of an address: those of a local part, and [@]. *)
Definition address_char (c : ascii) : bool := Cloudflare.local_char c || Ascii.eqb c "@".


(** The marks [wait_for_cloudflare] looks for in a page, lowercased:
    the text of the challenge, a CAPTCHA, a refusal. *)
Definition marked (page : str) : Prop :=
  str_in (lit "checking your browser") page = true
  \/ str_in (lit "enable cookies") page = true
  \/ (exists token, In token CloudflareSite.captcha_tokens /\ str_in token page = true)
  \/ str_in (lit "access denied") page = true
  \/ str_in (lit "forbidden") page = true.

(** The browser is on the site, by its address or by the page. *)
Definition on_site (snap : CloudflareSite.snapshot) : Prop :=
  str_in (lit "aircharterguide") (lower (CloudflareSite.current_url snap)) = true
  \/ str_in (lit "aircharterguide") (lower (CloudflareSite.page_source snap)) = true.

(** A web with a search engine, to evaluate examples in: the site of
    the examples, and a result page of Bing. *)
Module SearchExample.

Definition bing_page : str :=
  lit "<html>" ++ Example.a "https://www.bing.com/account" "Sign in"
  ++ Example.a "http://example.com/" "Example Air"
  ++ Example.a "https://x.com/airline" "Airline on X"
  ++ Example.a "/images" "Images"
  ++ Example.a "http://example.com/contact" "Contact"
  ++ Example.a "http://example.com/" "Example Air again" ++ lit "</html>".

Definition web : WebEnv := {|
  urlparse_hostname := Example.hostname;
  urljoin := Example.join;
  anchors := Example.hrefs;
  respond := fun _ url =>
    if startswith url (lit "https://www.bing.com/search?q=")
    then Response true (lit "text/html") bing_page
    else Example.site url;
  ddgs_text := fun _ _ _ => [];
  set_iter := fun s => s;
  set_iter_perm := fun s => Permutation_refl s
|}.

Definition serp : SerpEnv := {|
  result_anchors := Example.hrefs;
  shuffle := fun urls => rev urls;
  shuffle_perm := fun urls => Permutation_sym (Permutation_rev urls)
|}.

Definition bing_only : Multi.harvester := Multi.__init__ [lit "bing"; lit "altavista"] 20.

End SearchExample.

(** The row [r] of the deep harvester stands under one of the queries
    of the run with the arguments [a], and its title and its source
    are those of an item the search gave for that query, the source
    being the [href] of the item, or its [url] when it has no
    [href]. *)
Definition from_result `{WebEnv} (a : Deep.args) (r : row) : Prop :=
  In (Query r) (Deep.collect_queries (Deep.queries_file a) (Deep.queries a))
  /\ SourceURL r <> []
  /\ exists searched item,
      In item (ddgs_text searched (Query r) (Z.max (Deep.limit a) 1))
      /\ SourceURL r = match item_href item with
                       | [] => item_url item
                       | _ :: _ => item_href item
                       end
      /\ Title r = item_title item.

(** Such a row with an address that [filter_email] accepts with the
    lists of the run. *)
Definition accepted_result `{WebEnv} (a : Deep.args) (r : row) : Prop :=
  from_result a r
  /\ Deep.filter_email (Email r) (Deep.require a) (Deep.exclude a) = true.

(* ================================================================== *)
(** * Properties *)
(* ================================================================== *)

Unset Implicit Arguments.

(** ** Lists and characters *)

Lemma Forall_elim {A : Type} {P : A -> Prop} {l : list A} :
  Forall P l -> forall x, In x l -> P x.
Proof. intros H. now apply Forall_forall. Qed.

(** A fact about a character, settled on each of the 256. *)
Ltac each_char c := destruct c as [[] [] [] [] [] [] [] []].

(** ** Strings *)

Lemma eqb_eq (a b : str) : PyStr.eqb a b = true <-> a = b.
Proof.
  revert b; induction a as [|x a IH]; intros [|y b]; simpl; split;
    try congruence; try reflexivity.
  - intros H. apply andb_prop in H as [Hx Hab].
    apply Ascii.eqb_eq in Hx. apply IH in Hab. congruence.
  - intros H. injection H as -> ->.
    rewrite Ascii.eqb_refl. simpl. now apply IH.
Qed.

Lemma eqb_refl (a : str) : PyStr.eqb a a = true.
Proof. now apply eqb_eq. Qed.

Lemma eqb_neq (a b : str) : PyStr.eqb a b = false <-> a <> b.
Proof.
  split.
  - intros H E. apply eqb_eq in E. congruence.
  - intros H. destruct (PyStr.eqb a b) eqn:E; [|reflexivity].
    apply eqb_eq in E. contradiction.
Qed.

Lemma mem_In (x : str) (xs : list str) : mem x xs = true <-> In x xs.
Proof.
  unfold mem. rewrite existsb_exists. split.
  - intros (y & Hy & E). apply eqb_eq in E. now subst.
  - intros H. exists x. split; [assumption | apply eqb_refl].
Qed.

Lemma mem_not_In (x : str) (xs : list str) : mem x xs = false <-> ~ In x xs.
Proof.
  rewrite <- mem_In. destruct (mem x xs); split; congruence.
Qed.

Lemma startswith_spec (s p : str) :
  startswith s p = true <-> exists t, s = p ++ t.
Proof.
  revert s; induction p as [|x p IH]; intros s; simpl.
  - split; [intros _; now exists s | reflexivity].
  - destruct s as [|y s].
    + split; [discriminate | intros (t & H); discriminate].
    + rewrite andb_true_iff, IH. split.
      * intros (Hx & t & ->). apply Ascii.eqb_eq in Hx. subst. now exists t.
      * intros (t & H). injection H as -> ->. split; [apply Ascii.eqb_refl | now exists t].
Qed.

Lemma endswith_spec (s p : str) :
  endswith s p = true <-> exists t, s = t ++ p.
Proof.
  unfold endswith. rewrite startswith_spec. split.
  - intros (t & H). exists (rev t).
    rewrite <- (rev_involutive s), H, rev_app_distr, rev_involutive. reflexivity.
  - intros (t & ->). exists (rev t). apply rev_app_distr.
Qed.

Lemma set_add_In (x y : str) (s : list str) :
  In y (set_add x s) <-> y = x \/ In y s.
Proof.
  unfold set_add. destruct (mem x s) eqn:E.
  - apply mem_In in E. split; [tauto | intros [->|]; assumption].
  - rewrite in_app_iff. simpl. intuition congruence.
Qed.

Lemma NoDup_snoc (A : Type) (x : A) (s : list A) :
  NoDup s -> ~ In x s -> NoDup (s ++ [x]).
Proof.
  induction s as [|y s IH]; simpl; intros H Hx.
  - constructor; [tauto | constructor].
  - inversion H; subst. constructor.
    + rewrite in_app_iff. simpl. intuition congruence.
    + apply IH; tauto.
Qed.

Lemma set_add_NoDup (x : str) (s : list str) : NoDup s -> NoDup (set_add x s).
Proof.
  intros H. unfold set_add. destruct (mem x s) eqn:E; [assumption|].
  apply mem_not_In in E. now apply NoDup_snoc.
Qed.

Lemma set_update_In (s xs : list str) (y : str) :
  In y (set_update s xs) <-> In y s \/ In y xs.
Proof.
  unfold set_update. revert s; induction xs as [|x xs IH]; intros s; simpl.
  - tauto.
  - rewrite IH, set_add_In. intuition congruence.
Qed.

Lemma set_update_NoDup (s xs : list str) : NoDup s -> NoDup (set_update s xs).
Proof.
  unfold set_update. revert s; induction xs as [|x xs IH]; intros s H; simpl.
  - assumption.
  - apply IH. now apply set_add_NoDup.
Qed.

(** ** The relevance filters *)

(** C6.  An address whose domain is one of the generic providers is
    rejected by both filters, whatever its local part, its keywords or
    its top-level domain, and whatever substrings are required or
    excluded. *)
Theorem generic_provider_rejected :
  (forall email local_part domain,
      split_1 "@" (lower email) = [local_part; domain] ->
      In domain Multi.GENERIC_PROVIDERS ->
      Multi.is_aviation_email email = false)
  /\ (forall email required exclude,
      In (Deep.domain_of email) Deep.GENERIC_PROVIDERS ->
      Deep.filter_email email required exclude = false).
Proof.
  split.
  - intros email local_part domain Hsplit Hin.
    unfold Multi.is_aviation_email.
    destruct (negb (str_in (lit "@") (lower email))); [reflexivity|].
    rewrite Hsplit. apply mem_In in Hin. now rewrite Hin.
  - intros email required exclude Hin.
    unfold Deep.filter_email. apply mem_In in Hin. now rewrite Hin.
Qed.

(** [ops@gmail.com]: [ops] is a trusted local part and a keyword, and
    the address is rejected all the same. *)
Lemma generic_provider_rejected_witness :
  Multi.trusted_local (lit "ops") = true
  /\ Multi.keyword_hit (lit "ops@gmail.com") = true
  /\ Multi.is_aviation_email (lit "ops@gmail.com") = false
  /\ Deep.filter_email (lit "ops@gmail.com") [] [] = false.
Proof.
  split; [reflexivity|]. split; [reflexivity|]. split.
  - apply (proj1 generic_provider_rejected (lit "ops@gmail.com") (lit "ops") (lit "gmail.com")).
    + reflexivity.
    + vm_compute. left. reflexivity.
  - apply (proj2 generic_provider_rejected (lit "ops@gmail.com") [] []).
    vm_compute. left. reflexivity.
Defined.

(** C10.  The multi-engine filter rejects an address whose domain ends
    with [.gov] or [.edu], whatever its positive signals. *)
Theorem gov_edu_rejected (email local_part domain : str) :
  split_1 "@" (lower email) = [local_part; domain] ->
  (exists name, domain = name ++ lit ".gov") \/ (exists name, domain = name ++ lit ".edu") ->
  Multi.is_aviation_email email = false.
Proof.
  intros Hsplit Hend.
  unfold Multi.is_aviation_email.
  destruct (negb (str_in (lit "@") (lower email))); [reflexivity|].
  rewrite Hsplit.
  destruct (mem domain Multi.GENERIC_PROVIDERS); [reflexivity|].
  assert (E : endswith domain (lit ".gov") || endswith domain (lit ".edu") = true).
  { apply orb_true_iff. destruct Hend as [H|H]; [left|right]; now apply endswith_spec. }
  now rewrite E.
Qed.

(** [ops@nasa.gov] carries a trusted local part and a keyword. *)
Lemma gov_edu_rejected_witness :
  Multi.trusted_local (lit "ops") = true
  /\ Multi.keyword_hit (lit "ops@nasa.gov") = true
  /\ Multi.is_aviation_email (lit "Ops@NASA.gov") = false.
Proof.
  split; [reflexivity|]. split; [reflexivity|].
  apply (gov_edu_rejected (lit "Ops@NASA.gov") (lit "ops") (lit "nasa.gov")).
  - reflexivity.
  - left. exists (lit "nasa"). reflexivity.
Defined.

(** C7, as stated, fails on the deep harvester: with nothing required,
    an address that no reject rule hits and that carries no positive
    signal is accepted. *)
Lemma fallback_accepts_counterexample :
  deep_reject_hit (lit "john@acme.com") Deep.default_exclude = false
  /\ Multi.keyword_hit (lit "john@acme.com") = false
  /\ Multi.trusted_local (lit "john") = false
  /\ Multi.regional_tld (lit "acme.com") = false
  /\ Deep.filter_email (lit "john@acme.com") [] Deep.default_exclude = true.
Proof. repeat split; reflexivity. Qed.

(** C7, amended.  In the deep harvester an address that no reject rule
    hits is accepted when nothing is required, and otherwise accepted
    exactly when its domain contains a required substring.  In the
    multi-engine harvester, which has no required substrings, an
    address without a positive signal is rejected. *)
Theorem fallback_rule :
  (forall email required exclude,
      deep_reject_hit email exclude = false ->
      Deep.filter_email email required exclude =
        match required with
        | [] => true
        | _ :: _ => existsb (fun token => str_in token (Deep.domain_of email)) required
        end)
  /\ (forall email local_part domain,
      split_1 "@" (lower email) = [local_part; domain] ->
      Multi.keyword_hit (lower email) = false ->
      Multi.trusted_local local_part = false ->
      Multi.regional_tld domain = false ->
      Multi.is_aviation_email email = false).
Proof.
  split.
  - intros email required exclude H.
    unfold deep_reject_hit in H. unfold Deep.filter_email.
    apply orb_false_iff in H as [H Hexclude].
    apply orb_false_iff in H as [H Htld].
    apply orb_false_iff in H as [Hgeneric Hdot].
    rewrite Hgeneric, Hdot, Htld, Hexclude.
    destruct required as [|r rs]; [reflexivity|].
    now destruct (existsb _ (r :: rs)).
  - intros email local_part domain Hsplit Hk Ht Hr.
    unfold Multi.is_aviation_email.
    destruct (negb (str_in (lit "@") (lower email))); [reflexivity|].
    rewrite Hsplit, Hk, Ht, Hr. simpl.
    repeat match goal with |- (if ?c then _ else _) = _ => destruct c; try reflexivity end.
Qed.

Lemma fallback_rule_witness :
  Deep.filter_email (lit "john@acme.com") [] Deep.default_exclude = true
  /\ Deep.filter_email (lit "john@acme.com") [lit ".ru"; lit "aero"] Deep.default_exclude = false
  /\ Deep.filter_email (lit "john@acme.ru") [lit ".ru"; lit "aero"] Deep.default_exclude = true
  /\ Multi.is_aviation_email (lit "john@acme.com") = false.
Proof.
  split; [|split; [|split]].
  - now rewrite (proj1 fallback_rule (lit "john@acme.com") [] Deep.default_exclude).
  - now rewrite (proj1 fallback_rule (lit "john@acme.com") [lit ".ru"; lit "aero"] Deep.default_exclude).
  - now rewrite (proj1 fallback_rule (lit "john@acme.ru") [lit ".ru"; lit "aero"] Deep.default_exclude).
  - now apply (proj2 fallback_rule (lit "john@acme.com") (lit "john") (lit "acme.com")).
Defined.

(** ** The pattern matcher finds only what the pattern matches *)

Lemma try_down_some (R : Type) (f : nat -> option R) (lo k : nat) (r : R) :
  Re.try_down f lo k = Some r -> exists j, lo <= j <= k /\ f j = Some r.
Proof.
  induction k as [|k IH]; simpl.
  - destruct (0 <? lo) eqn:E; [discriminate|].
    apply Nat.ltb_ge in E. destruct (f 0) eqn:F; [|discriminate].
    intros H. injection H as ->. exists 0. split; [lia | assumption].
  - destruct (S k <? lo) eqn:E; [discriminate|].
    apply Nat.ltb_ge in E. destruct (f (S k)) eqn:F.
    + intros H. injection H as ->. exists (S k). split; [lia | assumption].
    + intros H. destruct (IH H) as (j & Hj & Fj). exists j. split; [lia | assumption].
Qed.

Lemma first_some_some (A R : Type) (f : A -> option R) (xs : list A) (r : R) :
  Re.first_some f xs = Some r -> exists x, In x xs /\ f x = Some r.
Proof.
  induction xs as [|x xs IH]; simpl; [discriminate|].
  destruct (f x) eqn:F.
  - intros H. injection H as ->. exists x. split; [now left | assumption].
  - intros H. destruct (IH H) as (y & Hy & Fy). exists y. split; [now right | assumption].
Qed.

Lemma run_firstn (cls : ascii -> bool) (s : str) (j : nat) :
  j <= Re.run cls s ->
  Forall (fun c => cls c = true) (firstn j s) /\ List.length (firstn j s) = j.
Proof.
  revert j; induction s as [|c s IH]; intros j Hj; simpl in Hj.
  - assert (j = 0) by lia. subst. simpl. split; [constructor | reflexivity].
  - destruct j as [|j]; [simpl; split; [constructor | reflexivity]|].
    destruct (cls c) eqn:E; [|lia].
    destruct (IH j) as [HF HL]; [lia|].
    simpl. split; [constructor; assumption | now rewrite HL].
Qed.

Lemma startswith_skipn (s p : str) :
  startswith s p = true -> s = p ++ skipn (List.length p) s.
Proof.
  intros H. apply startswith_spec in H as (t & ->).
  rewrite skipn_app, skipn_all, Nat.sub_diag. reflexivity.
Qed.

Lemma match_here_sound (full : bool) (r : Re.regex) :
  forall s n gopen grp n' grp',
    Re.match_here full r s n gopen grp = Some (n', grp') ->
    exists w rest,
      s = w ++ rest /\ n' = n + List.length w /\ matches r w rest
      /\ (full = true -> rest = []).
Proof.
  induction r as [|a r IH]; intros s n gopen grp n' grp' H; simpl in H.
  - destruct full.
    + destruct s; [|discriminate]. injection H as <- <-.
      exists [], []. repeat split; [simpl; lia | constructor].
    + injection H as <- <-.
      exists [], s. repeat split; [simpl; lia | constructor | discriminate].
  - destruct a as [cls lo hi | w | ws | | | ].
    + apply try_down_some in H as (j & Hj & H).
      apply IH in H as (w2 & rest & Hs & Hn & Hm & Hfull).
      assert (Hrun : j <= Re.run cls s) by (destruct hi; lia).
      destruct (run_firstn cls s j Hrun) as [HF HL].
      exists (firstn j s ++ w2), rest. repeat split.
      * rewrite <- app_assoc, <- Hs. symmetry. apply firstn_skipn.
      * rewrite length_app, HL. lia.
      * constructor; try assumption; [lia|].
        intros h ->. lia.
      * assumption.
    + destruct (startswith s w) eqn:E; [|discriminate].
      apply IH in H as (w2 & rest & Hs & Hn & Hm & Hfull).
      exists (w ++ w2), rest. repeat split.
      * rewrite <- app_assoc, <- Hs. now apply startswith_skipn.
      * rewrite length_app. lia.
      * now constructor.
      * assumption.
    + apply first_some_some in H as (w & Hw & H).
      destruct (startswith s w) eqn:E; [|discriminate].
      apply IH in H as (w2 & rest & Hs & Hn & Hm & Hfull).
      exists (w ++ w2), rest. repeat split.
      * rewrite <- app_assoc, <- Hs. now apply startswith_skipn.
      * rewrite length_app. lia.
      * now apply matches_alt.
      * assumption.
    + apply IH in H as (w & rest & Hs & Hn & Hm & Hfull).
      exists w, rest. repeat split; try assumption. now constructor.
    + apply IH in H as (w & rest & Hs & Hn & Hm & Hfull).
      exists w, rest. repeat split; try assumption. now constructor.
    + assert (Hend : s = [] \/ s = ["010"%char]).
      { destruct s as [|c s]; [now left|].
        each_char c; try discriminate.
        destruct s; [now right | discriminate]. }
      assert (H' : Re.match_here full r s n gopen grp = Some (n', grp')).
      { destruct Hend as [->| ->]; assumption. }
      apply IH in H' as (w & rest & Hs & Hn & Hm & Hfull).
      exists w, rest. repeat split; try assumption.
      constructor; [rewrite <- Hs; assumption | assumption].
Qed.


Lemma Forall_nonempty (A : Type) (w : list A) : 1 <= List.length w -> w <> [].
Proof. destruct w; simpl; [lia | discriminate]. Qed.

Lemma matches_email_canonical (w rest : str) :
  matches Cloudflare.EMAIL_REGEX w rest -> canonical_email w.
Proof.
  intros H. unfold Cloudflare.EMAIL_REGEX in H.
  inversion H as [|? ? ? ? w1 x1 ? F1 L1 _ H1| | | | |]; subst; clear H.
  inversion H1 as [| |? ? x2 ? H2| | | |]; subst; clear H1.
  inversion H2 as [|? ? ? ? w3 x3 ? F3 L3 _ H3| | | | |]; subst; clear H2.
  inversion H3 as [| |? ? x4 ? H4| | | |]; subst; clear H3.
  inversion H4 as [|? ? ? ? w5 x5 ? F5 L5 _ H5| | | | |]; subst; clear H4.
  inversion H5; subst; clear H5.
  exists w1, w3, w5. rewrite app_nil_r.
  repeat split; try assumption; now apply Forall_nonempty.
Qed.


(** *** A match consumes what the pattern asks for *)

Lemma alternatives_min_length (ws : list str) (m : nat) :
  fold_left (fun m v => Nat.min m (List.length v)) ws m <= m
  /\ forall w, In w ws ->
       fold_left (fun m v => Nat.min m (List.length v)) ws m <= List.length w.
Proof.
  revert m; induction ws as [|v ws IH]; intros m; simpl.
  - split; [lia | intros w []].
  - destruct (IH (Nat.min m (List.length v))) as [H1 H2]. split; [lia|].
    intros w [->|Hw]; [lia | now apply H2].
Qed.

Lemma matches_min_length (r : Re.regex) (w rest : str) :
  matches r w rest -> Re.min_length r <= List.length w.
Proof.
  induction 1 as [rest | cls lo hi r w1 w2 rest F L _ _ IH | w r w2 rest _ IH
                  | ws w r w2 rest Hw _ IH | | | ]; simpl in *;
    rewrite ?length_app; try lia.
  destruct ws as [|v ws]; [destruct Hw|].
  destruct (alternatives_min_length ws (List.length v)) as [H1 H2].
  destruct Hw as [->|Hw]; [|specialize (H2 w Hw)]; lia.
Qed.

Lemma match_consumes (r : Re.regex) (s : str) (n : nat) (g : option (nat * nat)) :
  Re.match_here false r s 0 0 None = Some (n, g) -> Re.min_length r <= n.
Proof.
  intros H. apply match_here_sound in H as (w & rest & _ & -> & Hm & _).
  now apply matches_min_length in Hm.
Qed.

(** No pattern the program searches with can match the empty text;
    the scan of [findall] and [re.sub] relies on it. *)
Lemma patterns_consume :
  Forall (fun r => 1 <= Re.min_length r) patterns_in_use.
Proof.
  apply Forall_forall. intros r Hr.
  assert (H : forallb (fun r => 1 <=? Re.min_length r) patterns_in_use = true)
    by reflexivity.
  apply Nat.leb_le. revert r Hr. now apply forallb_forall.
Qed.

(** *** What [findall] returns *)

Lemma match_here_groupless (full : bool) (r : Re.regex) :
  groupless r = true ->
  forall s n gopen grp n' grp',
    Re.match_here full r s n gopen grp = Some (n', grp') -> grp' = grp.
Proof.
  induction r as [|a r IH]; intros Hg s n gopen grp n' grp' H; simpl in H.
  - destruct full; [destruct s; [|discriminate]|]; now injection H as _ <-.
  - simpl in Hg. apply andb_prop in Hg as [Ha Hg]. specialize (IH Hg).
    destruct a as [cls lo hi | w | ws | | | ].
    + apply try_down_some in H as (j & _ & H). now apply IH in H.
    + destruct (startswith s w); [|discriminate]. now apply IH in H.
    + apply first_some_some in H as (w & _ & H).
      destruct (startswith s w); [|discriminate]. now apply IH in H.
    + now apply IH in H.
    + discriminate.
    + destruct s as [|c s]; [now apply IH in H|].
      each_char c; try discriminate.
      destruct s; [now apply IH in H | discriminate].
Qed.

Lemma findall_items (r : Re.regex) (m : str) :
  forall s skip,
    In m (Re.findall_from r skip s) ->
    exists s' found,
      Re.match_here false r s' 0 0 None = Some found /\ m = Re.item s' found.
Proof.
  induction s as [|c s IH]; intros skip H; simpl in H; [destruct H|].
  destruct skip as [|k]; [|now apply IH in H].
  destruct (Re.match_here false r (c :: s) 0 0 None) as [[[|n] g]|] eqn:E;
    try now apply IH in H.
  destruct H as [<-|H]; [|now apply IH in H].
  now exists (c :: s), (S n, g).
Qed.

Lemma findall_email_canonical (text m : str) :
  In m (Re.findall Cloudflare.EMAIL_REGEX text) -> canonical_email m.
Proof.
  intros H. apply findall_items in H as (s & [n g] & H & ->).
  pose proof (match_here_groupless false Cloudflare.EMAIL_REGEX eq_refl _ _ _ _ _ _ H) as ->.
  apply match_here_sound in H as (w & rest & -> & -> & Hm & _).
  simpl. rewrite firstn_app, firstn_all, Nat.sub_diag. simpl. rewrite app_nil_r.
  now apply matches_email_canonical in Hm.
Qed.

(** *** Canonical addresses under [strip] and [lower] *)

Lemma email_chars (c : ascii) :
  (Cloudflare.local_char c = true ->
     is_space c = false /\ Cloudflare.local_char (lower_char c) = true)
  /\ (Cloudflare.domain_char c = true -> Cloudflare.domain_char (lower_char c) = true)
  /\ (is_alpha c = true -> is_space c = false /\ is_alpha (lower_char c) = true).
Proof. each_char c; repeat split; intros; discriminate || reflexivity. Qed.

Lemma dropwhile_keeps (p : ascii -> bool) (c : ascii) (s : str) :
  p c = false -> dropwhile p (c :: s) = c :: s.
Proof. intros H. simpl. now rewrite H. Qed.

Lemma strip_by_ends (p : ascii -> bool) (c z : ascii) (s : str) :
  p c = false -> p z = false -> strip_by p (c :: s ++ [z]) = c :: s ++ [z].
Proof.
  intros Hc Hz. unfold strip_by. rewrite dropwhile_keeps by assumption.
  replace (rev (c :: s ++ [z])) with (z :: rev s ++ [c])
    by (simpl; now rewrite rev_app_distr).
  rewrite dropwhile_keeps by assumption.
  simpl. now rewrite rev_app_distr, rev_involutive.
Qed.

Lemma canonical_strip (e : str) : canonical_email e -> strip e = e.
Proof.
  intros (l & d & t & -> & Hl & Fl & _ & _ & Ht & Ft).
  destruct l as [|c l]; [contradiction|]. inversion Fl as [|? ? Hc _]; subst.
  destruct (exists_last (l := t)) as (t0 & z & ->);
    [intros ->; simpl in Ht; lia|].
  apply Forall_app in Ft as [_ Fz]. inversion Fz as [|? ? Hz _]; subst.
  rewrite !app_assoc. cbn [app].
  apply strip_by_ends.
  - apply (proj1 (email_chars c)), Hc.
  - apply (proj2 (proj2 (email_chars z))), Hz.
Qed.

Lemma Forall_lower (P : ascii -> bool) (w : str) :
  (forall c, P c = true -> P (lower_char c) = true) ->
  Forall (fun c => P c = true) w -> Forall (fun c => P c = true) (lower w).
Proof.
  intros HP H. unfold lower. apply Forall_forall. intros c Hc.
  apply in_map_iff in Hc as (x & <- & Hx). apply HP.
  now apply (Forall_elim H).
Qed.

Lemma canonical_lower (e : str) : canonical_email e -> canonical_email (lower e).
Proof.
  intros (l & d & t & -> & Hl & Fl & Hd & Fd & Ht & Ft).
  exists (lower l), (lower d), (lower t). unfold lower. repeat split.
  - now rewrite !map_app.
  - destruct l; [contradiction | discriminate].
  - apply Forall_lower; [|assumption]. intros c. apply (proj1 (email_chars c)).
  - destruct d; [contradiction | discriminate].
  - apply Forall_lower; [|assumption]. intros c. apply (proj1 (proj2 (email_chars c))).
  - now rewrite length_map.
  - apply Forall_lower; [|assumption]. intros c. apply (proj2 (proj2 (email_chars c))).
Qed.

(** ** The signal extractor validates what it emits *)

Lemma lower_char_not_upper (c : ascii) : is_upper (lower_char c) = false.
Proof. each_char c; reflexivity. Qed.


Lemma lower_lowercase (s : str) : lowercase (lower s).
Proof.
  unfold lowercase, lower. apply Forall_forall. intros c Hc.
  apply in_map_iff in Hc as (d & <- & _). apply lower_char_not_upper.
Qed.

Section Extractor.
Context {env : PyEnv}.











End Extractor.







(** ** The obfuscated forms *)



(** ** The link discoverers *)

Lemma str_in_spec (needle hay : str) :
  str_in needle hay = true <-> exists a b, hay = a ++ needle ++ b.
Proof.
  induction hay as [|c hay IH]; simpl.
  - rewrite orb_false_r, startswith_spec. split.
    + intros (t & H). now exists [], t.
    + intros (a & b & H). destruct a; [now exists b | discriminate].
  - rewrite orb_true_iff, startswith_spec, IH. split.
    + intros [(t & H)|(a & b & ->)]; [now exists [], t | now exists (c :: a), b].
    + intros (a & b & H). destruct a as [|d a].
      * left. now exists b.
      * right. injection H as _ ->. now exists a, b.
Qed.

Lemma skipped_href_followable (href : str) :
  Deep.skipped_href href = false -> followable href.
Proof.
  unfold Deep.skipped_href. intros H.
  apply orb_false_iff in H as [H H4].
  apply orb_false_iff in H as [H H3].
  apply orb_false_iff in H as [H1 H2].
  repeat split.
  - now apply eqb_neq.
  - intros t E. assert (X : startswith href (lit "mailto:") = true)
      by (apply startswith_spec; now exists t). congruence.
  - intros t E. assert (X : startswith href (lit "javascript:") = true)
      by (apply startswith_spec; now exists t). congruence.
  - intros t E. assert (X : startswith href (lit "#") = true)
      by (apply startswith_spec; now exists t). congruence.
Qed.

Lemma keyword_found (keywords : list str) (href : str) :
  existsb (fun keyword => str_in keyword (lower href)) keywords = true ->
  exists keyword before behind,
    In keyword keywords /\ lower href = before ++ keyword ++ behind.
Proof.
  intros H. apply existsb_exists in H as (k & Hk & H).
  apply str_in_spec in H as (a & b & H). now exists k, a, b.
Qed.

Lemma set_add_length (x : str) (s : list str) :
  List.length (set_add x s) <= S (List.length s).
Proof.
  unfold set_add. destruct (mem x s); [lia|]. rewrite length_app. simpl. lia.
Qed.

Section Discover.
Context {web : WebEnv}.
Variables (base_url : str) (limit : Z).

Lemma origin_later (keywords : list str) (raw : str) (hrefs : list str) (dest : str) :
  origin base_url keywords hrefs dest -> origin base_url keywords (raw :: hrefs) dest.
Proof.
  intros (r & k & a & b & H & ?). exists r, k, a, b. split; [now right | assumption].
Qed.

Lemma multi_discover_loop_spec (base_host : str) (hrefs related : list str) :
  (Z.of_nat (List.length related) < Z.max limit 1)%Z ->
  let found := Multi.discover_loop base_url base_host limit hrefs related in
  (Z.of_nat (List.length found) <= Z.max limit 1)%Z
  /\ forall dest, In dest found ->
       In dest related
       \/ (Multi.hostname_for dest = base_host
           /\ origin base_url Multi.CONTACT_KEYWORDS hrefs dest).
Proof.
  revert related; induction hrefs as [|raw hrefs IH]; intros related Hlen;
    cbn [Multi.discover_loop].
  - split; [lia | now left].
  - assert (Hskip : let found := Multi.discover_loop base_url base_host limit hrefs related in
                    (Z.of_nat (List.length found) <= Z.max limit 1)%Z
                    /\ forall dest, In dest found ->
                         In dest related
                         \/ (Multi.hostname_for dest = base_host
                             /\ origin base_url Multi.CONTACT_KEYWORDS (raw :: hrefs) dest)).
    { destruct (IH related Hlen) as [H1 H2]. split; [assumption|].
      intros dest Hd. destruct (H2 dest Hd) as [?|[? ?]]; [now left | right].
      split; [assumption | now apply origin_later]. }
    destruct (Deep.skipped_href (strip raw)) eqn:Eskip; [exact Hskip|].
    destruct (PyStr.eqb _ [] || _) eqn:Ehost; [exact Hskip|].
    destruct (Multi.should_skip_url _); [exact Hskip|].
    apply orb_false_iff in Ehost as [_ Ehost].
    apply negb_false_iff, eqb_eq in Ehost.
    destruct (existsb _ Multi.CONTACT_KEYWORDS) eqn:Ekw;
      [|destruct (limit <=? _)%Z; [split; [lia | now left] | exact Hskip]].
    assert (Hnew : Multi.hostname_for (urljoin base_url (strip raw)) = base_host
                   /\ origin base_url Multi.CONTACT_KEYWORDS (raw :: hrefs)
                             (urljoin base_url (strip raw))).
    { split; [assumption|].
      apply keyword_found in Ekw as (k & a & b & Hk & Hkw).
      exists raw, k, a, b. repeat split; try assumption; try now left.
      all: now apply skipped_href_followable. }
    destruct (limit <=? _)%Z eqn:Elim.
    + split; [rewrite length_app; simpl; lia|].
      intros dest Hd. apply in_app_iff in Hd as [Hd|[<-|[]]]; [now left | now right].
    + apply Z.leb_gt in Elim.
      destruct (IH (related ++ [urljoin base_url (strip raw)])) as [H1 H2]; [lia|].
      split; [assumption|].
      intros dest Hd. destruct (H2 dest Hd) as [Hin|[? ?]].
      * apply in_app_iff in Hin as [Hin|[<-|[]]]; [now left | now right].
      * right. split; [assumption | now apply origin_later].
Qed.

Lemma deep_discover_loop_spec (hrefs related : list str) :
  (Z.of_nat (List.length related) < Z.max limit 1)%Z ->
  let found := Deep.discover_loop base_url limit hrefs related in
  (Z.of_nat (List.length found) <= Z.max limit 1)%Z
  /\ forall dest, In dest found ->
       In dest related \/ origin base_url Deep.CONTACT_KEYWORDS hrefs dest.
Proof.
  revert related; induction hrefs as [|raw hrefs IH]; intros related Hlen;
    cbn [Deep.discover_loop].
  - split; [lia | now left].
  - assert (Hskip : let found := Deep.discover_loop base_url limit hrefs related in
                    (Z.of_nat (List.length found) <= Z.max limit 1)%Z
                    /\ forall dest, In dest found ->
                         In dest related
                         \/ origin base_url Deep.CONTACT_KEYWORDS (raw :: hrefs) dest).
    { destruct (IH related Hlen) as [H1 H2]. split; [assumption|].
      intros dest Hd. destruct (H2 dest Hd) as [?|?]; [now left | right].
      now apply origin_later. }
    destruct (Deep.skipped_href (strip raw)) eqn:Eskip; [exact Hskip|].
    destruct (negb (Deep.same_host _ _)); [exact Hskip|].
    destruct (existsb _ Deep.CONTACT_KEYWORDS) eqn:Ekw.
    + assert (Hnew : origin base_url Deep.CONTACT_KEYWORDS (raw :: hrefs)
                            (urljoin base_url (strip raw))).
      { apply keyword_found in Ekw as (k & a & b & Hk & Hkw).
        exists raw, k, a, b. repeat split; try assumption; try now left.
        all: now apply skipped_href_followable. }
      pose proof (set_add_length (urljoin base_url (strip raw)) related) as Hadd.
      destruct (limit <=? _)%Z eqn:Elim.
      * split; [lia|].
        intros dest Hd. apply set_add_In in Hd as [->|Hd]; [now right | now left].
      * apply Z.leb_gt in Elim.
        destruct (IH (set_add (urljoin base_url (strip raw)) related)) as [H1 H2]; [lia|].
        split; [assumption|].
        intros dest Hd. destruct (H2 dest Hd) as [Hin|?].
        -- apply set_add_In in Hin as [->|Hin]; [now right | now left].
        -- right. now apply origin_later.
    + destruct (limit <=? _)%Z eqn:Elim; [|exact Hskip].
      split; [lia | now left].
Qed.

End Discover.

Lemma multi_discover_not_skipped (web : WebEnv) (base_url base_host : str) (limit : Z)
      (hrefs related : list str) :
  Forall (fun u => Multi.should_skip_url u = false) related ->
  Forall (fun u => Multi.should_skip_url u = false)
         (Multi.discover_loop base_url base_host limit hrefs related).
Proof.
  revert related; induction hrefs as [|raw hrefs IH]; intros related H;
    cbn [Multi.discover_loop].
  - assumption.
  - destruct (Deep.skipped_href _); [now apply IH|].
    destruct (_ || _); [now apply IH|].
    destruct (Multi.should_skip_url (urljoin base_url (strip raw))) eqn:E; [now apply IH|].
    cbv zeta.
    assert (H' : Forall (fun u => Multi.should_skip_url u = false)
                        (related ++ [urljoin base_url (strip raw)])).
    { apply Forall_app. split; [assumption | now constructor]. }
    destruct (existsb _ _); destruct (limit <=? _)%Z; try apply IH; assumption.
Qed.

Lemma deep_discover_NoDup (web : WebEnv) (base_url : str) (limit : Z)
      (hrefs related : list str) :
  NoDup related -> NoDup (Deep.discover_loop base_url limit hrefs related).
Proof.
  revert related; induction hrefs as [|raw hrefs IH]; intros related H;
    cbn [Deep.discover_loop].
  - assumption.
  - destruct (Deep.skipped_href _); [now apply IH|].
    destruct (negb _); [now apply IH|]. cbv zeta.
    destruct (existsb _ _); destruct (limit <=? _)%Z;
      try apply IH; try apply set_add_NoDup; assumption.
Qed.

(** C5.  The link discoverer of the deep harvester returns a link to
    another host: [same_host] asks whether the host of the link ends
    with the host of the base URL, and [notexample.com] ends with
    [example.com].  The discoverer of the multi-engine harvester,
    which compares the two hosts for equality, drops the same link.
    Both discoverers, besides, test the limit after they have taken a
    link, and return one link for a limit of zero. *)
Lemma deep_discover_other_host :
  @Deep.discover_related Example.web (lit "http://example.com/")
     (Example.a "http://notexample.com/contact" "Partner") 4
  = [lit "http://notexample.com/contact"]
  /\ @Multi.hostname_for Example.web (lit "http://notexample.com/contact")
     = lit "notexample.com"
  /\ @Multi.hostname_for Example.web (lit "http://example.com/") = lit "example.com"
  /\ @Multi.discover_related Example.web (lit "http://example.com/")
       (Example.a "http://notexample.com/contact" "Partner") 4
     = []
  /\ @Multi.discover_related Example.web (lit "http://example.com/")
       (Example.a "/contact" "Contact Us") 0
     = [lit "http://example.com/contact"]
  /\ @Deep.discover_related Example.web (lit "http://example.com/")
       (Example.a "/contact" "Contact Us") 0
     = [lit "http://example.com/contact"].
Proof. repeat split; vm_compute; reflexivity. Qed.

(** What the discoverers do keep to: both return at most [limit]
    links for a limit of one or more (at most [max limit 1] for any
    limit); every link returned is the target of an anchor whose
    [href] is not empty, not a [mailto:], [javascript:] or fragment
    reference, and contains a contact keyword whatever its case; and
    every link the multi-engine discoverer returns has the host of the
    base URL. *)
Theorem discover_related_bounded (web : WebEnv) (base_url html : str) (limit : Z) :
  ((Z.of_nat (List.length (Multi.discover_related base_url html limit)) <= Z.max limit 1)%Z
   /\ forall dest, In dest (Multi.discover_related base_url html limit) ->
        Multi.hostname_for dest = Multi.hostname_for base_url
        /\ from_contact_anchor Multi.CONTACT_KEYWORDS base_url html dest)
  /\ ((Z.of_nat (List.length (Deep.discover_related base_url html limit)) <= Z.max limit 1)%Z
      /\ forall dest, In dest (Deep.discover_related base_url html limit) ->
           from_contact_anchor Deep.CONTACT_KEYWORDS base_url html dest).
Proof.
  split.
  - destruct (multi_discover_loop_spec base_url limit (Multi.hostname_for base_url)
                (anchors html) []) as [H1 H2]; [simpl; lia|].
    split; [exact H1|]. intros dest Hd.
    destruct (H2 dest Hd) as [[]|[Hh Ho]]. split; assumption.
  - destruct (deep_discover_loop_spec base_url limit (anchors html) []) as [H1 H2];
      [simpl; lia|].
    split; [exact H1|]. intros dest Hd.
    destruct (H2 dest Hd) as [[]|Ho]. assumption.
Qed.

Lemma discover_related_bounded_example :
  (List.length (@Multi.discover_related Example.web (lit "http://example.com/")
                                        Example.home_page 2) <= 2)
  /\ @Multi.hostname_for Example.web (lit "http://example.com/about/team")
     = lit "example.com"
  /\ @from_contact_anchor Example.web Deep.CONTACT_KEYWORDS (lit "http://example.com/")
       Example.home_page (lit "http://example.com/contact").
Proof.
  pose proof (discover_related_bounded Example.web (lit "http://example.com/")
                                       Example.home_page 2) as [[H1 H2] [H3 H4]].
  split; [|split].
  - lia.
  - apply (H2 (lit "http://example.com/about/team")).
    vm_compute. right. left. reflexivity.
  - apply (H4 (lit "http://example.com/contact")).
    vm_compute. left. reflexivity.
Defined.

(** ** The crawl session of the deep harvester *)

Section DeepSession.
Context {web : WebEnv}.
Variables (w0 : world) (max_pages : Z).

Lemma deep_fetch_world (w : world) (url : str) :
  requests (snd (Deep.fetch w url)) = requests w ++ [url]
  /\ searches (snd (Deep.fetch w url)) = searches w.
Proof.
  unfold Deep.fetch, get.
  destruct (respond (requests w) url) as [|[] ? ?]; simpl; split; reflexivity.
Qed.

Lemma deep_round_inv (st : Deep.crawl) (current : str) (rest : list str) :
  (Z.of_nat (List.length (Deep.visited st)) < max_pages)%Z ->
  deep_inv w0 max_pages st -> deep_inv w0 max_pages (Deep.harvest_round st current rest).
Proof.
  intros Hguard (Hreq & Hsearch & Hnd & Hlen).
  unfold Deep.harvest_round, Deep.check_and_set, set_add.
  destruct (mem current (Deep.visited st)) eqn:Emem; simpl.
  - repeat split; assumption.
  - apply mem_not_In in Emem.
    pose proof (deep_fetch_world (Deep.net st) current) as [Hr Hs].
    destruct (Deep.fetch (Deep.net st) current) as [html w]. simpl in Hr, Hs.
    assert (Hinv : requests w = requests w0 ++ Deep.visited st ++ [current]
                   /\ searches w = searches w0
                   /\ NoDup (Deep.visited st ++ [current])
                   /\ (Z.of_nat (List.length (Deep.visited st ++ [current]))
                       <= Z.max max_pages 0)%Z).
    { repeat split.
      - now rewrite Hr, Hreq, app_assoc.
      - congruence.
      - now apply NoDup_snoc.
      - rewrite length_app. simpl. lia. }
    destruct html; exact Hinv.
Qed.

Lemma deep_loop_inv (fuel : nat) (st : Deep.crawl) :
  deep_inv w0 max_pages st -> deep_inv w0 max_pages (Deep.harvest_loop fuel max_pages st).
Proof.
  revert st; induction fuel as [|fuel IH]; intros st H; simpl; [assumption|].
  destruct (Deep.queue st) as [|current rest]; [assumption|].
  destruct (_ <? _)%Z eqn:E; [|assumption].
  apply IH. apply deep_round_inv; [now apply Z.ltb_lt | assumption].
Qed.

Lemma deep_start_inv (url : str) : deep_inv w0 max_pages (Deep.harvest_start url w0).
Proof.
  unfold Deep.harvest_start. repeat split; simpl.
  - now rewrite app_nil_r.
  - constructor.
  - lia.
Qed.

(** Every round takes the loop nearer to its end. *)
Lemma deep_round_rounds (st : Deep.crawl) (current : str) (rest : list str) :
  Deep.queue st = current :: rest ->
  deep_rounds (Deep.harvest_round st current rest) < deep_rounds st.
Proof.
  intros Hq. unfold deep_rounds at 2. rewrite Hq.
  unfold Deep.harvest_round, Deep.check_and_set, set_add.
  destruct (mem current (Deep.visited st)) eqn:Emem; cbn [negb].
  - unfold deep_rounds. simpl. lia.
  - destruct (Deep.fetch (Deep.net st) current) as [html w].
    destruct html as [|c html].
    + unfold deep_rounds. simpl.
      destruct (Deep.visited st); simpl; lia.
    + unfold deep_rounds. cbn [Deep.queue Deep.visited].
      destruct (Deep.visited st) as [|v vs] eqn:Ev.
      * cbn [app List.length Nat.eqb]. rewrite length_app.
        pose proof (deep_discover_loop_spec current 4 (anchors (c :: html)) []) as [Hb _];
          [simpl; lia|].
        fold (Deep.discover_related current (c :: html) 4) in Hb.
        pose proof (filter_length_le
                      (fun link => negb (mem link [current]))
                      (set_iter (Deep.discover_related current (c :: html) 4))).
        pose proof (Permutation_length
                      (set_iter_perm (Deep.discover_related current (c :: html) 4))).
        lia.
      * replace (List.length ((v :: vs) ++ [current]) =? 1) with false.
        -- simpl. destruct (vs ++ [current]); lia.
        -- symmetry. apply Nat.eqb_neq. rewrite length_app. simpl. lia.
Qed.

Lemma deep_loop_settles (fuel : nat) :
  forall st, deep_rounds st <= fuel ->
    deep_done max_pages (Deep.harvest_loop fuel max_pages st)
    /\ forall more, fuel <= more ->
         Deep.harvest_loop more max_pages st = Deep.harvest_loop fuel max_pages st.
Proof.
  induction fuel as [|fuel IH]; intros st Hm.
  - assert (Hq : Deep.queue st = []).
    { unfold deep_rounds in Hm. destruct (Deep.queue st); [reflexivity | simpl in Hm; lia]. }
    simpl. split; [now left|].
    intros more _. destruct more; simpl; [reflexivity | now rewrite Hq].
  - simpl. destruct (Deep.queue st) as [|current rest] eqn:Hq.
    + split; [now left|].
      intros more _. destruct more; simpl; [reflexivity | now rewrite Hq].
    + destruct (_ <? _)%Z eqn:E.
      * pose proof (deep_round_rounds st current rest Hq) as Hlt.
        destruct (IH (Deep.harvest_round st current rest)) as [Hdone Hmore]; [lia|].
        split; [assumption|].
        intros more Hle. destruct more as [|more]; [lia|].
        simpl. rewrite Hq, E. apply Hmore. lia.
      * split; [right; now apply Z.ltb_ge|].
        intros more _. destruct more; simpl; [reflexivity | now rewrite Hq, E].
Qed.

End DeepSession.

(** ** The crawl session of the multi-engine harvester *)

Section MultiSession.
Context {web : WebEnv}.
Variables (w0 : world) (url : str).

Lemma multi_fetch_world (h : Multi.harvester) (w : world) (u : str) :
  let w' := snd (Multi.fetch_html h w u) in
  (requests w' = requests w \/ requests w' = requests w ++ [u])
  /\ searches w' = searches w.
Proof.
  unfold Multi.fetch_html, get.
  destruct (_ || _); [simpl; split; [now left | reflexivity]|].
  destruct (respond (requests w) u) as [|[] content_type text]; simpl;
    try (split; [now right | reflexivity]).
  destruct (negb _); simpl; split; (now right) || reflexivity.
Qed.

Lemma multi_round_inv (st : Multi.crawl) (current : str) (rest : list str) :
  List.length (Multi.seen st) < 6 ->
  multi_inv w0 st -> multi_inv w0 (Multi.extract_round url st current rest).
Proof.
  intros Hguard (fetched & Hreq & Hsearch & Hnd & Hincl & Hseen & Hlen).
  unfold Multi.extract_round, Multi.check_and_set, set_add.
  destruct (mem current (Multi.seen st)) eqn:Emem; cbn [orb].
  - exists fetched. repeat split; assumption.
  - destruct (Multi.should_skip_url current).
    + exists fetched. repeat split; assumption.
    + apply mem_not_In in Emem.
      pose proof (multi_fetch_world (Multi.self st) (Multi.net st) current) as [Hr Hs].
      destruct (Multi.fetch_html (Multi.self st) (Multi.net st) current) as [[html h] w].
      simpl in Hr, Hs.
      assert (Hinv : exists fetched',
                 requests w = requests w0 ++ fetched'
                 /\ searches w = searches w0
                 /\ NoDup fetched'
                 /\ incl fetched' (Multi.seen st ++ [current])
                 /\ NoDup (Multi.seen st ++ [current])
                 /\ List.length (Multi.seen st ++ [current]) <= 6).
      { assert (Hl : List.length (Multi.seen st ++ [current]) <= 6)
          by (rewrite length_app; simpl; lia).
        destruct Hr as [Hr|Hr].
        - exists fetched. repeat split; try congruence; try assumption.
          + now apply incl_appl.
          + now apply NoDup_snoc.
        - exists (fetched ++ [current]). repeat split; try congruence; try assumption.
          + now rewrite Hr, Hreq, app_assoc.
          + apply NoDup_snoc; [assumption|]. intros Hin. apply Emem. now apply Hincl.
          + apply incl_app; [now apply incl_appl | apply incl_appr, incl_refl].
          + now apply NoDup_snoc. }
      destruct html; exact Hinv.
Qed.

Lemma multi_loop_inv (fuel : nat) (st : Multi.crawl) :
  multi_inv w0 st -> multi_inv w0 (Multi.extract_loop fuel url st).
Proof.
  revert st; induction fuel as [|fuel IH]; intros st H; simpl; [assumption|].
  destruct (Multi.queue st) as [|current rest]; [assumption|].
  destruct (_ <? 6) eqn:E; [|assumption].
  apply IH. apply multi_round_inv; [now apply Nat.ltb_lt | assumption].
Qed.

Lemma multi_start_inv (h : Multi.harvester) : multi_inv w0 (Multi.extract_start h w0 url).
Proof.
  exists []. unfold Multi.extract_start. simpl. repeat split.
  - now rewrite app_nil_r.
  - constructor.
  - apply incl_refl.
  - constructor.
  - lia.
Qed.

(** A session started on a URL that is not skipped never queues one
    that is. *)
Lemma multi_round_queue (st : Multi.crawl) (current : str) (rest : list str) :
  Forall (fun u => Multi.should_skip_url u = false) rest ->
  Forall (fun u => Multi.should_skip_url u = false)
         (Multi.queue (Multi.extract_round url st current rest)).
Proof.
  intros H. unfold Multi.extract_round.
  destruct (Multi.check_and_set current (Multi.seen st)) as [[] seen']; [|assumption].
  destruct (Multi.fetch_html (Multi.self st) (Multi.net st) current) as [[html h] w].
  destruct html as [|c html]; [assumption|]. cbn [Multi.queue].
  destruct (PyStr.eqb current url); [|assumption].
  apply Forall_app. split; [assumption|].
  apply Forall_forall. intros u Hu. apply filter_In in Hu as [Hu _].
  revert u Hu. apply Forall_forall.
  apply multi_discover_not_skipped. constructor.
Qed.

Lemma multi_loop_queue (fuel : nat) (st : Multi.crawl) :
  Forall (fun u => Multi.should_skip_url u = false) (Multi.queue st) ->
  Forall (fun u => Multi.should_skip_url u = false)
         (Multi.queue (Multi.extract_loop fuel url st)).
Proof.
  revert st; induction fuel as [|fuel IH]; intros st H; simpl; [assumption|].
  destruct (Multi.queue st) as [|current rest] eqn:Hq; [now rewrite Hq|].
  destruct (_ <? 6); [|now rewrite Hq].
  apply IH. apply multi_round_queue. now inversion H.
Qed.

Lemma mem_snoc (x y : str) (s : list str) :
  mem x s = true -> mem x (s ++ [y]) = true.
Proof. rewrite !mem_In, in_app_iff. tauto. Qed.

(** Every round takes the loop nearer to its end. *)
Lemma multi_round_rounds (st : Multi.crawl) (current : str) (rest : list str) :
  Multi.queue st = current :: rest ->
  multi_rounds url (Multi.extract_round url st current rest) < multi_rounds url st.
Proof.
  intros Hq. unfold multi_rounds at 2. rewrite Hq.
  unfold Multi.extract_round, Multi.check_and_set, set_add.
  destruct (mem current (Multi.seen st)) eqn:Emem; cbn [orb].
  - unfold multi_rounds. cbn [Multi.queue Multi.seen List.length].
    destruct (mem url (Multi.seen st)); lia.
  - destruct (Multi.should_skip_url current).
    + unfold multi_rounds. cbn [Multi.queue Multi.seen List.length].
      destruct (mem url (Multi.seen st)); lia.
    + assert (Hmono : (if mem url (Multi.seen st ++ [current]) then 0 else 4)
                      <= (if mem url (Multi.seen st) then 0 else 4)).
      { destruct (mem url (Multi.seen st)) eqn:E.
        - now rewrite (mem_snoc url current _ E).
        - destruct (mem url (Multi.seen st ++ [current])); lia. }
      destruct (Multi.fetch_html (Multi.self st) (Multi.net st) current) as [[html h] w].
      destruct html as [|c html].
      * unfold multi_rounds. cbn [Multi.queue Multi.seen]. simpl List.length. lia.
      * unfold multi_rounds. cbn [Multi.queue Multi.seen].
        destruct (PyStr.eqb current url) eqn:Eurl.
        -- apply eqb_eq in Eurl. subst current. rewrite Emem.
           replace (mem url (Multi.seen st ++ [url])) with true
             by (symmetry; apply mem_In, in_app_iff; right; now left).
           rewrite length_app.
           pose proof (multi_discover_loop_spec url 4 (Multi.hostname_for url)
                         (anchors (c :: html)) []) as [Hb _]; [simpl; lia|].
           fold (Multi.discover_related url (c :: html) 4) in Hb.
           pose proof (filter_length_le
                         (fun link => negb (mem link (Multi.seen st ++ [url])))
                         (Multi.discover_related url (c :: html) 4)).
           simpl List.length. lia.
        -- simpl List.length. lia.
Qed.

Lemma multi_loop_settles (fuel : nat) :
  forall st, multi_rounds url st <= fuel ->
    multi_done (Multi.extract_loop fuel url st)
    /\ forall more, fuel <= more ->
         Multi.extract_loop more url st = Multi.extract_loop fuel url st.
Proof.
  induction fuel as [|fuel IH]; intros st Hm.
  - assert (Hq : Multi.queue st = []).
    { unfold multi_rounds in Hm. destruct (Multi.queue st); [reflexivity | simpl in Hm; lia]. }
    simpl. split; [now left|].
    intros more _. destruct more; simpl; [reflexivity | now rewrite Hq].
  - simpl. destruct (Multi.queue st) as [|current rest] eqn:Hq.
    + split; [now left|].
      intros more _. destruct more; simpl; [reflexivity | now rewrite Hq].
    + destruct (_ <? 6) eqn:E.
      * pose proof (multi_round_rounds st current rest Hq) as Hlt.
        destruct (IH (Multi.extract_round url st current rest)) as [Hdone Hmore]; [lia|].
        split; [assumption|].
        intros more Hle. destruct more as [|more]; [lia|].
        simpl. rewrite Hq, E. apply Hmore. lia.
      * split; [right; now apply Nat.ltb_ge|].
        intros more _. destruct more; simpl; [reflexivity | now rewrite Hq, E].
Qed.

End MultiSession.

(** ** Sessions: every URL once, and no more pages than the budget *)

Lemma deep_presented_keeps (u : str) (later visited : list str) :
  In u visited -> In u (deep_presented later visited).
Proof.
  unfold deep_presented. revert visited.
  induction later as [|x later IH]; intros visited H; simpl; [assumption|].
  apply IH. apply set_add_In. now right.
Qed.

Lemma multi_presented_keeps (web : WebEnv) (u : str) (later seen : list str) :
  In u seen -> In u (multi_presented later seen).
Proof.
  unfold multi_presented. revert seen.
  induction later as [|x later IH]; intros seen H; simpl; [assumption|].
  apply IH. unfold Multi.check_and_set.
  destruct (_ || _); simpl; [assumption | apply set_add_In; now right].
Qed.

(** C1.  A session of either harvester requests no URL twice.  The
    check of the deep harvester answers true when a URL is first
    presented and false whenever it is presented again.  So does the
    check of the multi-engine harvester for the URLs its sessions
    present: a session is started on a URL [should_skip_url] does not
    reject, as the seeds drawn from [cleaned] are, and queues no URL
    that [should_skip_url] rejects; a URL that it rejects would be
    answered false, marked nowhere and never fetched. *)
Theorem fetched_at_most_once (web : WebEnv) :
  (forall w url max_pages, exists fetched,
      requests (snd (Deep.harvest_emails w url max_pages)) = requests w ++ fetched
      /\ NoDup fetched)
  /\ (forall h w url, exists fetched,
      requests (snd (Multi.extract_emails_from_url h w url)) = requests w ++ fetched
      /\ NoDup fetched)
  /\ (forall u visited later,
      ~ In u visited ->
      fst (Deep.check_and_set u visited) = true
      /\ fst (Deep.check_and_set
                u (deep_presented later (snd (Deep.check_and_set u visited)))) = false)
  /\ (forall u seen later,
      ~ In u seen -> Multi.should_skip_url u = false ->
      fst (Multi.check_and_set u seen) = true
      /\ fst (Multi.check_and_set
                u (multi_presented later (snd (Multi.check_and_set u seen)))) = false)
  /\ (forall urls u, In u (Multi.cleaned urls) -> Multi.should_skip_url u = false)
  /\ (forall fuel h w url u,
      Multi.should_skip_url url = false ->
      In u (Multi.queue (Multi.extract_loop fuel url (Multi.extract_start h w url))) ->
      Multi.should_skip_url u = false)
  /\ (forall u seen,
      Multi.should_skip_url u = true -> Multi.check_and_set u seen = (false, seen)).
Proof.
  split; [|split; [|split; [|split; [|split; [|split]]]]].
  - intros w url max_pages. unfold Deep.harvest_emails. simpl.
    destruct (deep_loop_inv w max_pages session_fuel (Deep.harvest_start url w)
                (deep_start_inv w max_pages url)) as (Hreq & _ & Hnd & _).
    eexists. split; [exact Hreq | exact Hnd].
  - intros h w url. unfold Multi.extract_emails_from_url. simpl.
    destruct (multi_loop_inv w url session_fuel (Multi.extract_start h w url)
                (multi_start_inv w url h)) as (fetched & Hreq & _ & Hnd & _).
    exists fetched. split; assumption.
  - intros u visited later Hu. unfold Deep.check_and_set. simpl. split.
    + apply negb_true_iff. now apply mem_not_In.
    + apply negb_false_iff, mem_In, deep_presented_keeps, set_add_In. now left.
  - intros u seen later Hu Hskip. apply mem_not_In in Hu.
    unfold Multi.check_and_set at 1 3. rewrite Hu, Hskip. simpl. split; [reflexivity|].
    unfold Multi.check_and_set.
    replace (mem u (multi_presented later (set_add u seen))) with true; [reflexivity|].
    symmetry. apply mem_In, multi_presented_keeps, set_add_In. now left.
  - intros urls u Hu. apply filter_In in Hu as [_ Hu].
    apply andb_prop in Hu as [_ Hu]. now apply negb_true_iff.
  - intros fuel h w url u Hurl. revert u. apply Forall_forall.
    apply multi_loop_queue. simpl. now constructor.
  - intros u seen Hskip. unfold Multi.check_and_set. rewrite Hskip.
    now rewrite orb_true_r.
Qed.

Lemma fetched_at_most_once_witness :
  fst (Deep.check_and_set (lit "http://example.com/") []) = true
  /\ fst (Deep.check_and_set
            (lit "http://example.com/")
            (deep_presented [lit "http://example.com/contact"]
               (snd (Deep.check_and_set (lit "http://example.com/") [])))) = false
  /\ fst (@Multi.check_and_set Example.web (lit "http://example.com/") []) = true
  /\ @Multi.should_skip_url Example.web (lit "http://example.com/contact") = false
  /\ @Multi.should_skip_url Example.web (lit "http://example.com/about/team") = false
  /\ @Multi.check_and_set Example.web (lit "https://x.com/airline") [lit "http://example.com/"]
     = (false, [lit "http://example.com/"]).
Proof.
  destruct (fetched_at_most_once Example.web)
    as (_ & _ & Hdeep & Hmulti & Hseed & Hqueue & Hskip).
  destruct (Hdeep (lit "http://example.com/") [] [lit "http://example.com/contact"])
    as [H1 H2]; [intros [] |].
  destruct (Hmulti (lit "http://example.com/") [] [])
    as [H3 _]; [intros [] | reflexivity |].
  split; [exact H1 | split; [exact H2 | split; [exact H3 | split; [|split]]]].
  - apply (Hseed [lit "https://x.com/airline"; lit "http://example.com/contact"]).
    vm_compute. left. reflexivity.
  - apply (Hqueue 1 (Multi.__init__ [] 20) Example.quiet (lit "http://example.com/"));
      [reflexivity|].
    vm_compute. right. left. reflexivity.
  - apply Hskip. reflexivity.
Defined.

Lemma pages_of_le (web : WebEnv) (h : str) (urls : list str) :
  pages_of h urls <= List.length urls.
Proof. unfold pages_of. apply filter_length_le. Qed.

(** C2.  A session of the deep harvester requests at most [max_pages]
    pages, and a session of the multi-engine harvester at most six, so
    no host sees more; the loop they come from has reached its end --
    the queue is empty or the count of visited pages has reached the
    budget -- and more rounds would change nothing.  The sessions
    [main] runs have the configured budget, one page at the least. *)
Theorem page_budget (web : WebEnv) :
  (forall w url max_pages,
      let st := Deep.harvest_loop session_fuel max_pages (Deep.harvest_start url w) in
      deep_done max_pages st
      /\ (forall more, session_fuel <= more ->
            Deep.harvest_loop more max_pages (Deep.harvest_start url w) = st)
      /\ exists fetched,
           requests (snd (Deep.harvest_emails w url max_pages)) = requests w ++ fetched
           /\ (Z.of_nat (List.length fetched) <= Z.max max_pages 0)%Z
           /\ forall h, (Z.of_nat (pages_of h fetched) <= Z.max max_pages 0)%Z)
  /\ (forall hv w url,
      let st := Multi.extract_loop session_fuel url (Multi.extract_start hv w url) in
      multi_done st
      /\ (forall more, session_fuel <= more ->
            Multi.extract_loop more url (Multi.extract_start hv w url) = st)
      /\ exists fetched,
           requests (snd (Multi.extract_emails_from_url hv w url)) = requests w ++ fetched
           /\ List.length fetched <= 6
           /\ forall h, pages_of h fetched <= 6)
  /\ (forall a seen w item url accepted w',
      Deep.harvest_item a seen w item = Some (url, accepted, w') ->
      exists fetched,
        requests w' = requests w ++ fetched
        /\ (Z.of_nat (List.length fetched) <= Z.max (Deep.max_pages a) 1)%Z).
Proof.
  split; [|split].
  - intros w url max_pages st.
    destruct (deep_loop_settles max_pages session_fuel (Deep.harvest_start url w))
      as [Hdone Hmore]; [unfold deep_rounds, session_fuel; simpl; lia|].
    split; [exact Hdone|]. split; [exact Hmore|].
    destruct (deep_loop_inv w max_pages session_fuel (Deep.harvest_start url w)
                (deep_start_inv w max_pages url)) as (Hreq & _ & _ & Hlen).
    exists (Deep.visited st). split; [exact Hreq|]. split; [exact Hlen|].
    intros h. pose proof (pages_of_le web h (Deep.visited st)). subst st. lia.
  - intros hv w url st.
    destruct (multi_loop_settles url session_fuel (Multi.extract_start hv w url))
      as [Hdone Hmore]; [unfold multi_rounds, session_fuel; simpl; lia|].
    split; [exact Hdone|]. split; [exact Hmore|].
    destruct (multi_loop_inv w url session_fuel (Multi.extract_start hv w url)
                (multi_start_inv w url hv))
      as (fetched & Hreq & _ & Hnd & Hincl & _ & Hlen).
    exists fetched. split; [exact Hreq|].
    pose proof (NoDup_incl_length Hnd Hincl) as Hle.
    split; [lia|].
    intros h. pose proof (pages_of_le web h fetched). lia.
  - intros a seen w item url accepted w'. unfold Deep.harvest_item.
    destruct (_ || _); [discriminate|].
    set (u := match item_href item with [] => item_url item | _ :: _ => item_href item end).
    destruct (deep_loop_inv w (Z.max (Deep.max_pages a) 1) session_fuel
                (Deep.harvest_start u w) (deep_start_inv w _ u)) as (Hreq & _ & _ & Hlen).
    unfold Deep.harvest_emails. intros H. injection H as _ _ <-.
    eexists. split; [exact Hreq | lia].
Qed.

(** The site of the examples, crawled with a budget of two pages: the
    seed and the contact page are requested, and nine rounds do what
    five do. *)
Lemma page_budget_witness :
  @Deep.harvest_loop Example.web 9 2
     (Deep.harvest_start (lit "http://example.com/") Example.quiet)
  = @Deep.harvest_loop Example.web session_fuel 2
      (Deep.harvest_start (lit "http://example.com/") Example.quiet)
  /\ requests (snd (@Deep.harvest_emails Example.web Example.quiet
                      (lit "http://example.com/") 2))
     = [lit "http://example.com/"; lit "http://example.com/contact"]
  /\ @Multi.extract_loop Example.web 9 (lit "http://example.com/")
       (Multi.extract_start (Multi.__init__ [] 20) Example.quiet (lit "http://example.com/"))
     = @Multi.extract_loop Example.web session_fuel (lit "http://example.com/")
         (Multi.extract_start (Multi.__init__ [] 20) Example.quiet (lit "http://example.com/")).
Proof.
  destruct (page_budget Example.web) as (Hdeep & Hmulti & _).
  destruct (Hdeep Example.quiet (lit "http://example.com/") 2%Z) as (_ & Hmore & _).
  destruct (Hmulti (Multi.__init__ [] 20) Example.quiet (lit "http://example.com/"))
    as (_ & Hmore' & _).
  split; [|split].
  - apply Hmore. unfold session_fuel. lia.
  - reflexivity.
  - apply Hmore'. unfold session_fuel. lia.
Defined.

(** ** The aggregation *)

Lemma keep_first_snoc (records : list row) (r : row) :
  keep_first (records ++ [r]) = keep (keep_first records) r.
Proof. unfold keep_first. now rewrite fold_left_app. Qed.

Lemma keep_first_app (records more : list row) :
  keep_first (records ++ more) = fold_left keep more (keep_first records).
Proof. unfold keep_first. now rewrite fold_left_app. Qed.

(** What first-writer-wins keeps: no address twice, every record kept
    is the first of its address, and every address offered is kept. *)
Lemma keep_first_spec (records : list row) :
  NoDup (map Email (keep_first records))
  /\ (forall r, In r (keep_first records) ->
        exists before behind,
          records = before ++ r :: behind /\ ~ In (Email r) (map Email before))
  /\ (forall r, In r records -> In (Email r) (map Email (keep_first records))).
Proof.
  induction records as [|r records (IH1 & IH2 & IH3)] using rev_ind.
  - split; [constructor | split; intros r []].
  - rewrite keep_first_snoc. unfold keep.
    destruct (mem (Email r) (map Email (keep_first records))) eqn:E.
    + apply mem_In in E. split; [assumption | split].
      * intros r' Hr'. destruct (IH2 r' Hr') as (b & c & -> & Hb).
        exists b, (c ++ [r]). split; [now rewrite <- app_assoc | assumption].
      * intros r' Hr'. apply in_app_iff in Hr' as [Hr'|[<-|[]]]; [now apply IH3 | assumption].
    + apply mem_not_In in E. split; [|split].
      * rewrite map_app. simpl. now apply NoDup_snoc.
      * intros r' Hr'. apply in_app_iff in Hr' as [Hr'|[<-|[]]].
        -- destruct (IH2 r' Hr') as (b & c & -> & Hb).
           exists b, (c ++ [r]). split; [now rewrite <- app_assoc | assumption].
        -- exists records, []. split; [reflexivity|].
           intros Hin. apply E. apply in_map_iff in Hin as (r0 & Hr0 & Hin).
           rewrite <- Hr0. now apply IH3.
      * intros r' Hr'. rewrite map_app, in_app_iff.
        apply in_app_iff in Hr' as [Hr'|[<-|[]]]; [left; now apply IH3 | right; now left].
Qed.

Lemma store_keep (query title url email : str) (rs : list row) :
  let r := {| Query := query; Title := title; Email := email; SourceURL := url |} in
  Deep.store query title url (map Email rs, rs) email = (map Email (keep rs r), keep rs r).
Proof.
  unfold Deep.store, keep, set_add. simpl.
  destruct (mem email (map Email rs)); [reflexivity|].
  now rewrite map_app.
Qed.

Lemma store_fold (query title url : str) (accepted : list str) (rs : list row) :
  let rs' := fold_left keep
               (map (fun email => {| Query := query; Title := title;
                                     Email := email; SourceURL := url |}) accepted)
               rs in
  fold_left (Deep.store query title url) accepted (map Email rs, rs)
  = (map Email rs', rs').
Proof.
  revert rs; induction accepted as [|email accepted IH]; intros rs;
    cbn [fold_left map]; [reflexivity|].
  rewrite store_keep. apply IH.
Qed.

Lemma insert_sorted_In (x y : str) (xs : list str) :
  In x (insert_sorted y xs) <-> x = y \/ In x xs.
Proof.
  induction xs as [|z xs IH]; simpl.
  - intuition congruence.
  - destruct (leb y z); simpl; [intuition congruence|].
    rewrite IH. intuition congruence.
Qed.

Lemma sorted_In (x : str) (xs : list str) : In x (sorted xs) <-> In x xs.
Proof.
  unfold sorted. induction xs as [|y xs IH]; simpl; [tauto|].
  rewrite insert_sorted_In, IH. intuition congruence.
Qed.




Section DeepRun.
Context {web : WebEnv}.
Variable a : Deep.args.

Lemma deep_extract_emails_well_formed (text : str) :
  Forall well_formed (Deep.extract_emails text).
Proof.
  unfold Deep.extract_emails. destruct text as [|c text]; [constructor|].
  assert (G : forall ms acc,
             (forall m, In m ms -> canonical_email m) ->
             Forall well_formed acc ->
             Forall well_formed
               (fold_left (fun acc email => set_add (lower (strip email)) acc) ms acc)).
  { induction ms as [|m ms IHm]; intros acc Hms Hacc; simpl; [assumption|].
    apply IHm; [intros x Hx; apply Hms; now right|].
    apply Forall_forall. intros x Hx.
    apply set_add_In in Hx as [->|Hx]; [|now apply (Forall_elim Hacc)].
    rewrite canonical_strip by (apply Hms; now left).
    split; [apply canonical_lower, Hms; now left | apply lower_lowercase]. }
  apply G; [|constructor].
  intros m Hm. now apply findall_email_canonical in Hm.
Qed.

Lemma deep_round_well_formed (st : Deep.crawl) (current : str) (rest : list str) :
  Forall well_formed (Deep.collected st) ->
  Forall well_formed (Deep.collected (Deep.harvest_round st current rest)).
Proof.
  intros H. unfold Deep.harvest_round.
  destruct (Deep.check_and_set current (Deep.visited st)) as [[] visited']; [|assumption].
  destruct (Deep.fetch (Deep.net st) current) as [html w].
  destruct html as [|c html]; [assumption|]. cbn [Deep.collected].
  apply Forall_forall. intros e He. apply set_update_In in He as [He|He].
  - now apply (Forall_elim H).
  - now apply (Forall_elim (deep_extract_emails_well_formed (c :: html))).
Qed.

Lemma deep_loop_well_formed (fuel : nat) (max_pages : Z) (st : Deep.crawl) :
  Forall well_formed (Deep.collected st) ->
  Forall well_formed (Deep.collected (Deep.harvest_loop fuel max_pages st)).
Proof.
  revert st; induction fuel as [|fuel IH]; intros st H; simpl; [assumption|].
  destruct (Deep.queue st) as [|current rest]; [assumption|].
  destruct (_ <? _)%Z; [|assumption].
  apply IH. now apply deep_round_well_formed.
Qed.

Lemma harvest_item_spec (seen : list str) (w : world) (item : search_item)
      (url : str) (accepted : list str) (w' : world) :
  Deep.harvest_item a seen w item = Some (url, accepted, w') ->
  Forall well_formed accepted /\ searches w' = searches w.
Proof.
  unfold Deep.harvest_item.
  destruct (_ || _); [discriminate|].
  set (u := match item_href item with [] => item_url item | _ :: _ => item_href item end).
  pose proof (deep_loop_well_formed session_fuel (Z.max (Deep.max_pages a) 1)
                (Deep.harvest_start u w) (Forall_nil _)) as Hlow.
  destruct (deep_loop_inv w (Z.max (Deep.max_pages a) 1) session_fuel
              (Deep.harvest_start u w) (deep_start_inv w _ u)) as (_ & Hs & _).
  unfold Deep.harvest_emails.
  intros H. injection H as <- <- <-. split; [|exact Hs].
  apply Forall_forall. intros e He. apply sorted_In, filter_In in He as [He _].
  now apply (Forall_elim Hlow).
Qed.

Lemma visit_item_together (query : str) (item : search_item)
      (st : Deep.run) (off : list str * world * list row) :
  together st off ->
  together (Deep.visit_item a query st item) (offered_by_item a query off item).
Proof.
  destruct off as [[seen w] records]. intros (H1 & H2 & H3 & H4). simpl in H1, H2, H3.
  unfold Deep.visit_item, offered_by_item. rewrite H1, H2.
  destruct (Deep.harvest_item a seen w item) as [[[url accepted] w']|].
  - rewrite H4, store_fold. rewrite H3.
    repeat split; simpl; try reflexivity. now rewrite keep_first_app.
  - repeat split; assumption.
Qed.

Lemma run_query_together (query : str) (st : Deep.run)
      (off : list str * world * list row) :
  together st off ->
  together (Deep.run_query a st query) (offered_by_query a off query).
Proof.
  destruct off as [[seen w] records]. intros (H1 & H2 & H3 & H4). simpl in H1, H2, H3.
  unfold Deep.run_query, offered_by_query. rewrite H2.
  generalize (ddgs_text (searches w) query (Z.max (Deep.limit a) 1)). intros items.
  assert (H0 : together
                 {| Deep.seen_urls := Deep.seen_urls st;
                    Deep.seen_emails := Deep.seen_emails st;
                    Deep.rows := Deep.rows st;
                    Deep.now := {| requests := requests w;
                                   searches := searches w ++ [query] |} |}
                 (seen, {| requests := requests w; searches := searches w ++ [query] |},
                  records))
    by (repeat split; assumption).
  revert H0. generalize (seen, {| requests := requests w; searches := searches w ++ [query] |},
                         records).
  generalize {| Deep.seen_urls := Deep.seen_urls st;
                Deep.seen_emails := Deep.seen_emails st;
                Deep.rows := Deep.rows st;
                Deep.now := {| requests := requests w;
                               searches := searches w ++ [query] |} |}.
  induction items as [|item items IH]; intros s o H; simpl; [assumption|].
  apply IH. now apply visit_item_together.
Qed.

Lemma queries_together (qs : list str) (st : Deep.run)
      (off : list str * world * list row) :
  together st off ->
  together (fold_left (Deep.run_query a) qs st) (fold_left (offered_by_query a) qs off).
Proof.
  revert st off; induction qs as [|q qs IH]; intros st off H; simpl; [assumption|].
  apply IH. now apply run_query_together.
Qed.

Lemma main_rows_offered (w : world) :
  rows_written (Deep.main a w) = keep_first (offered a w).
Proof.
  unfold Deep.main, offered.
  pose proof (queries_together
                (Deep.collect_queries (Deep.queries_file a) (Deep.queries a))
                {| Deep.seen_urls := []; Deep.seen_emails := []; Deep.rows := [];
                   Deep.now := w |}
                ([], w, [])) as H.
  destruct (Deep.collect_queries (Deep.queries_file a) (Deep.queries a)) as [|q qs] eqn:Eq.
  - reflexivity.
  - destruct H as (_ & _ & H & _); [repeat split|].
    rewrite <- H.
    destruct (Deep.rows _); reflexivity.
Qed.


End DeepRun.

Section MultiRun.
Context {web : WebEnv}.




End MultiRun.





(** ** Configuration *)

Section DeepSearches.
Context {web : WebEnv}.
Variable a : Deep.args.

Lemma visit_item_searches (query : str) (st : Deep.run) (item : search_item) :
  searches (Deep.now (Deep.visit_item a query st item)) = searches (Deep.now st).
Proof.
  unfold Deep.visit_item.
  destruct (Deep.harvest_item a _ _ item) as [[[url accepted] w']|] eqn:E; [|reflexivity].
  apply harvest_item_spec in E as [_ E].
  destruct (fold_left _ accepted _). exact E.
Qed.

Lemma run_query_searches (st : Deep.run) (query : str) :
  searches (Deep.now (Deep.run_query a st query)) = searches (Deep.now st) ++ [query].
Proof.
  unfold Deep.run_query.
  generalize (ddgs_text (searches (Deep.now st)) query (Z.max (Deep.limit a) 1)).
  intros items.
  set (st0 := {| Deep.seen_urls := _; Deep.seen_emails := _; Deep.rows := _; Deep.now := _ |}).
  change (searches (Deep.now st) ++ [query]) with (searches (Deep.now st0)).
  generalize st0. clear st0.
  induction items as [|item items IH]; intros s; simpl; [reflexivity|].
  rewrite IH. apply visit_item_searches.
Qed.

Lemma queries_searches (qs : list str) (st : Deep.run) :
  searches (Deep.now (fold_left (Deep.run_query a) qs st)) = searches (Deep.now st) ++ qs.
Proof.
  revert st; induction qs as [|q qs IH]; intros st; simpl.
  - now rewrite app_nil_r.
  - now rewrite IH, run_query_searches, <- app_assoc.
Qed.

End DeepSearches.

(** C9, as stated, fails on the engine list: an engine name that is
    not supported is dropped, the default engines stand in when none
    is left, and the harvester is built. *)
Lemma unsupported_engine_counterexample :
  mem (lit "altavista") Multi.SUPPORTED_ENGINES = false
  /\ Multi.engines (Multi.__init__ [lit "altavista"] 20) = Multi.default_engines
  /\ Multi.engines (Multi.__init__ [lit "bing"; lit "altavista"] 20) = [lit "bing"].
Proof. repeat split; reflexivity. Qed.

(** C9, amended.  With no query the deep harvester stops at once: it
    prints that no queries were supplied, returns 1, writes nothing
    and has sent no search and no request; with queries it sends
    every one of them to the search provider.  An engine name that is
    not supported stops nothing: the multi-engine harvester keeps the
    supported names of the list, or the default engines when none is
    supported. *)
Theorem configuration_errors (web : WebEnv) :
  (forall a w,
      Deep.collect_queries (Deep.queries_file a) (Deep.queries a) = [] ->
      Deep.main a w = {| Deep.exit_code := 1; Deep.printed := Deep.No_queries_supplied;
                         Deep.written := None; Deep.final := w |})
  /\ (forall a w,
      searches (Deep.final (Deep.main a w))
      = searches w ++ Deep.collect_queries (Deep.queries_file a) (Deep.queries a))
  /\ (forall engines url_limit,
      let supported := filter (fun engine => mem engine Multi.SUPPORTED_ENGINES) engines in
      Multi.engines (Multi.__init__ engines url_limit)
      = match supported with
        | [] => Multi.default_engines
        | _ :: _ => supported
        end)
  /\ (forall engines url_limit,
      Multi.engines (Multi.__init__ engines url_limit) <> []
      /\ Forall (fun engine => In engine Multi.SUPPORTED_ENGINES)
                (Multi.engines (Multi.__init__ engines url_limit))).
Proof.
  split; [|split; [|split]].
  - intros a w H. unfold Deep.main. now rewrite H.
  - intros a w. unfold Deep.main.
    pose proof (queries_searches a
                  (Deep.collect_queries (Deep.queries_file a) (Deep.queries a))
                  {| Deep.seen_urls := []; Deep.seen_emails := []; Deep.rows := [];
                     Deep.now := w |}) as H.
    destruct (Deep.collect_queries (Deep.queries_file a) (Deep.queries a)) as [|q qs].
    + simpl. now rewrite app_nil_r.
    + destruct (Deep.rows _); simpl; exact H.
  - reflexivity.
  - intros engines url_limit. unfold Multi.__init__. cbn [Multi.engines].
    destruct (filter _ engines) as [|e es] eqn:E.
    + split; [discriminate|].
      apply Forall_forall. intros x Hx. vm_compute in Hx. vm_compute. tauto.
    + split; [discriminate|].
      apply Forall_forall. intros x Hx. rewrite <- E in Hx.
      apply filter_In in Hx as [_ Hx]. now apply mem_In.
Qed.

Lemma configuration_errors_witness :
  @Deep.main Example.web Example.no_queries Example.quiet
  = {| Deep.exit_code := 1; Deep.printed := Deep.No_queries_supplied;
       Deep.written := None; Deep.final := Example.quiet |}
  /\ searches (Deep.final (@Deep.main Example.web Example.two_queries Example.quiet))
     = [lit "air charter"; lit "private jet"].
Proof.
  destruct (configuration_errors Example.web) as (Hnone & Hsome & _).
  split.
  - apply Hnone. reflexivity.
  - rewrite Hsome. reflexivity.
Defined.

(** ** Every stored address is validated *)









(* ================================================================== *)
(** * Further properties of the code *)
(* ================================================================== *)

(* ================================================================== *)
(** * Further properties of the code *)
(* ================================================================== *)

(** ** The order of [sorted] *)


Lemma ascii_eqb_sym (x y : ascii) : Ascii.eqb x y = Ascii.eqb y x.
Proof.
  destruct (Ascii.eqb x y) eqn:E.
  - apply Ascii.eqb_eq in E. subst. symmetry. apply Ascii.eqb_refl.
  - destruct (Ascii.eqb y x) eqn:E'; [|reflexivity].
    apply Ascii.eqb_eq in E'. subst. now rewrite Ascii.eqb_refl in E.
Qed.





Lemma leb_antisym (a b : str) : leb a b = true -> leb b a = true -> a = b.
Proof.
  revert b; induction a as [|x a IH]; intros [|y b]; simpl; try congruence.
  rewrite (ascii_eqb_sym y x). destruct (Ascii.eqb x y) eqn:E.
  - apply Ascii.eqb_eq in E. subst y. intros H1 H2. f_equal. now apply IH.
  - intros H1 H2. apply N.ltb_lt in H1, H2. lia.
Qed.

(** ** Sorting by a key *)

Section SortedBy.
Variable A : Type.
Variable key : A -> str.







End SortedBy.



(** ** Queries and countries *)




Lemma dict_get_In (A : Type) (d : list (str * A)) (key : str) (default : A) :
  (exists v, In (key, v) d /\ MultiCountry.dict_get d key default = v)
  \/ ((forall v, ~ In (key, v) d) /\ MultiCountry.dict_get d key default = default).
Proof.
  induction d as [|[k v] d IH]; simpl.
  - right. split; [intros v [] | reflexivity].
  - destruct (PyStr.eqb k key) eqn:E.
    + apply eqb_eq in E. subst. left. exists v. split; [now left | reflexivity].
    + apply eqb_neq in E. destruct IH as [(v' & Hin & H)|[Hno H]].
      * left. exists v'. split; [now right | assumption].
      * right. split; [|assumption].
        intros v' [H'|H']; [congruence | now apply (Hno v')].
Qed.

Lemma dict_get_unique (A : Type) (d : list (str * A)) (key : str) (default v : A) :
  NoDup (map fst d) -> In (key, v) d -> MultiCountry.dict_get d key default = v.
Proof.
  induction d as [|[k v'] d IH]; simpl; intros Hnd Hin; [destruct Hin|].
  inversion Hnd as [|? ? Hk Hd]; subst.
  destruct Hin as [E|Hin].
  - injection E as -> ->. now rewrite eqb_refl.
  - destruct (PyStr.eqb k key) eqn:E; [|now apply IH].
    apply eqb_eq in E. subst. exfalso. apply Hk.
    apply in_map_iff. now exists (key, v).
Qed.

Lemma country_keys_NoDup : NoDup (map fst MultiCountry.COUNTRY_TLD_MAP).
Proof.
  assert (H : forall xs : list str,
             (fix nodup (l : list str) : bool :=
                match l with
                | [] => true
                | x :: l' => negb (mem x l') && nodup l'
                end) xs = true -> NoDup xs).
  { induction xs as [|x xs IH]; intros H; [constructor|].
    apply andb_prop in H as [H1 H2]. constructor; [|now apply IH].
    apply negb_true_iff in H1. now apply mem_not_In. }
  apply H. vm_compute. reflexivity.
Qed.

(** X3.  [build_queries] makes fifty queries of a country, five for
    each of the ten keywords and in the order of the keywords; every
    query carries the country between double quotes, and the fourth of
    every five is scoped to the top-level domain the table gives for
    the country, or to [com] for a country the table does not have. *)
Theorem build_queries_fifty (country : str) :
  exists tld,
    (In (country, tld) MultiCountry.COUNTRY_TLD_MAP
     \/ ((forall t, ~ In (country, t) MultiCountry.COUNTRY_TLD_MAP) /\ tld = lit "com"))
    /\ (forall t, In (country, t) MultiCountry.COUNTRY_TLD_MAP -> t = tld)
    /\ MultiCountry.build_queries country
       = flat_map (MultiCountry.keyword_queries country tld) MultiCountry.base_keywords
    /\ List.length (MultiCountry.build_queries country) = 50
    /\ Forall (fun q => exists before behind,
                          q = before ++ MultiCountry.quoted country ++ behind)
              (MultiCountry.build_queries country)
    /\ (forall i keyword,
          nth_error MultiCountry.base_keywords i = Some keyword ->
          nth_error (MultiCountry.build_queries country) (5 * i + 3)
          = Some (lit "site:." ++ tld ++ lit " " ++ MultiCountry.quoted keyword
                  ++ lit " " ++ MultiCountry.quoted country ++ lit " email")).
Proof.
  exists (MultiCountry.dict_get MultiCountry.COUNTRY_TLD_MAP country (lit "com")).
  split; [|split; [|split; [reflexivity|split; [reflexivity|split]]]].
  - destruct (dict_get_In _ MultiCountry.COUNTRY_TLD_MAP country (lit "com"))
      as [(v & Hin & ->)|[Hno ->]]; [now left | right; now split].
  - intros t Hin. symmetry. apply dict_get_unique; [apply country_keys_NoDup | exact Hin].
  - unfold MultiCountry.build_queries.
    generalize (MultiCountry.dict_get MultiCountry.COUNTRY_TLD_MAP country (lit "com")).
    intros tld. apply Forall_forall. intros q Hq.
    apply in_flat_map in Hq as (keyword & _ & Hq).
    unfold MultiCountry.keyword_queries in Hq.
    destruct Hq as [<-|[<-|[<-|[<-|[<-|[]]]]]].
    + exists (MultiCountry.quoted keyword ++ lit " "). eexists.
      rewrite <- !app_assoc. reflexivity.
    + exists (MultiCountry.quoted keyword ++ lit " "). eexists.
      rewrite <- !app_assoc. reflexivity.
    + exists (MultiCountry.quoted keyword ++ lit " "). eexists.
      rewrite <- !app_assoc. reflexivity.
    + exists (lit "site:." ++ tld ++ lit " " ++ MultiCountry.quoted keyword ++ lit " ").
      eexists. rewrite <- !app_assoc. reflexivity.
    + exists (MultiCountry.quoted keyword ++ lit " "). eexists.
      rewrite <- !app_assoc. reflexivity.
  - unfold MultiCountry.build_queries.
    generalize (MultiCountry.dict_get MultiCountry.COUNTRY_TLD_MAP country (lit "com")).
    intros tld i keyword H.
    do 10 (destruct i as [|i]; [injection H as <-; reflexivity|]).
    destruct i; discriminate.
Qed.

(** Kenya is in the table; Atlantis is not. *)
Lemma build_queries_fifty_witness :
  nth_error (MultiCountry.build_queries (lit "Kenya")) 3
  = Some (lit "site:.ke " ++ MultiCountry.quoted (lit "air charter") ++ lit " "
          ++ MultiCountry.quoted (lit "Kenya") ++ lit " email")
  /\ nth_error (MultiCountry.build_queries (lit "Atlantis")) 48
     = Some (lit "site:.com " ++ MultiCountry.quoted (lit "air taxi") ++ lit " "
             ++ MultiCountry.quoted (lit "Atlantis") ++ lit " email").
Proof.
  split.
  - destruct (build_queries_fifty (lit "Kenya")) as (tld & _ & Huniq & _ & _ & _ & Hsite).
    rewrite <- (Huniq (lit "ke")) in Hsite
      by (vm_compute; do 23 right; left; reflexivity).
    exact (Hsite 0 (lit "air charter") eq_refl).
  - destruct (build_queries_fifty (lit "Atlantis")) as (tld & Hin & _ & _ & _ & _ & Hsite).
    destruct Hin as [Hin|[_ ->]].
    + exfalso. vm_compute in Hin.
      repeat (destruct Hin as [Hin|Hin]; [discriminate|]). exact Hin.
    + exact (Hsite 9 (lit "air taxi") eq_refl).
Defined.

(** ** Splitting at a character *)

Lemma partition_at_app (sep : ascii) (a b : str) :
  ~ In sep a -> partition_at sep (a ++ sep :: b) = Some (a, b).
Proof.
  induction a as [|c a IH]; simpl; intros H.
  - now rewrite Ascii.eqb_refl.
  - destruct (Ascii.eqb c sep) eqn:E.
    + apply Ascii.eqb_eq in E. subst. tauto.
    + rewrite IH by tauto. reflexivity.
Qed.

Lemma partition_at_some (sep : ascii) (s a b : str) :
  partition_at sep s = Some (a, b) -> s = a ++ sep :: b /\ ~ In sep a.
Proof.
  revert a; induction s as [|c s IH]; simpl; intros a H; [discriminate|].
  destruct (Ascii.eqb c sep) eqn:E.
  - apply Ascii.eqb_eq in E. subst. injection H as <- <-. split; [reflexivity | intros []].
  - destruct (partition_at sep s) as [[a' b']|]; [|discriminate].
    injection H as <- <-. destruct (IH a' eq_refl) as [-> Hno]. split; [reflexivity|].
    intros [->|H]; [now rewrite Ascii.eqb_refl in E | contradiction].
Qed.

Lemma partition_at_none (sep : ascii) (s : str) :
  partition_at sep s = None -> ~ In sep s.
Proof.
  induction s as [|c s IH]; simpl; intros H; [tauto|].
  destruct (Ascii.eqb c sep) eqn:E; [discriminate|].
  destruct (partition_at sep s) as [[a b]|]; [discriminate|].
  intros [->|Hin]; [now rewrite Ascii.eqb_refl in E | now apply IH].
Qed.

Lemma str_in_char (c : ascii) (s : str) : str_in [c] s = true <-> In c s.
Proof.
  rewrite str_in_spec. split.
  - intros (a & b & ->). apply in_or_app. right. now left.
  - intros H. apply in_split in H as (a & b & ->). now exists a, b.
Qed.

Lemma rsplit_1_last (sep : ascii) (name tld : str) :
  ~ In sep tld -> last_item (rsplit_1 sep (name ++ sep :: tld)) = tld.
Proof.
  intros H. unfold rsplit_1.
  rewrite rev_app_distr. simpl. rewrite <- app_assoc. simpl.
  rewrite partition_at_app by (now rewrite <- in_rev).
  simpl. apply rev_involutive.
Qed.

(** ** The filter of the multi-engine harvester *)

(** X4.  [is_aviation_email] accepts an address exactly when its
    lowercase form has an [@], its domain -- the text after the first
    [@] -- is no generic provider, does not end with [.gov] or [.edu]
    or with an excluded domain, and the address carries a signal: a
    keyword, a trusted local part or a regional top-level domain.  The
    test of [.com] domains changes nothing. *)
Theorem is_aviation_email_accepts (email : str) :
  Multi.is_aviation_email email = true <->
  exists local_part domain,
    lower email = local_part ++ lit "@" ++ domain
    /\ ~ In "@"%char local_part
    /\ ~ In domain Multi.GENERIC_PROVIDERS
    /\ endswith domain (lit ".gov") = false
    /\ endswith domain (lit ".edu") = false
    /\ Forall (fun exclusion => endswith domain exclusion = false) Multi.EXCLUDED_DOMAINS
    /\ (Multi.keyword_hit (lower email) = true
        \/ Multi.trusted_local local_part = true
        \/ Multi.regional_tld domain = true).
Proof.
  unfold Multi.is_aviation_email. unfold split_1.
  destruct (partition_at "@" (lower email)) as [[l d]|] eqn:E.
  - apply partition_at_some in E as [E Hno].
    assert (Hat : str_in (lit "@") (lower email) = true).
    { apply str_in_char. rewrite E. apply in_or_app. right. now left. }
    rewrite Hat. cbn [negb].
    split.
    + intros H.
      destruct (mem d Multi.GENERIC_PROVIDERS) eqn:E1; [discriminate|].
      destruct (endswith d (lit ".gov")) eqn:E2; [discriminate|].
      destruct (endswith d (lit ".edu")) eqn:E3; [discriminate|].
      cbn [orb] in H.
      destruct (existsb _ Multi.EXCLUDED_DOMAINS) eqn:E4; [discriminate|].
      exists l, d. split; [exact E|]. split; [exact Hno|].
      split; [now apply mem_not_In|]. split; [exact E2|]. split; [exact E3|].
      split.
      * apply Forall_forall. intros x Hx.
        destruct (endswith d x) eqn:Ex; [|reflexivity].
        assert (X : existsb (fun exclusion => endswith d exclusion)
                            Multi.EXCLUDED_DOMAINS = true)
          by (apply existsb_exists; now exists x).
        congruence.
      * destruct (Multi.keyword_hit (lower email)); [now left|].
        destruct (Multi.trusted_local l); [right; now left|].
        destruct (Multi.regional_tld d); [right; now right|].
        cbn [orb negb] in H. rewrite andb_true_r in H.
        now destruct (endswith d (lit ".com")).
    + intros (l' & d' & E' & Hno' & Hg & Hgov & Hedu & Hex & Hsig).
      assert (Hl : l' = l /\ d' = d).
      { rewrite E' in E. change (lit "@" ++ d') with ("@"%char :: d') in E.
        pose proof (partition_at_app "@" l' d' Hno') as P1.
        pose proof (partition_at_app "@" l d Hno) as P2.
        rewrite E in P1. rewrite P1 in P2. injection P2 as -> ->. now split. }
      destruct Hl as [-> ->].
      apply mem_not_In in Hg. rewrite Hg, Hgov, Hedu. cbn [orb].
      replace (existsb (fun exclusion => endswith d exclusion) Multi.EXCLUDED_DOMAINS)
        with false.
      2:{ symmetry. apply not_true_is_false. intros X.
          apply existsb_exists in X as (x & Hx & X).
          rewrite (Forall_elim Hex x Hx) in X. discriminate. }
      assert (S : Multi.keyword_hit (lower email) || Multi.trusted_local l
                  || Multi.regional_tld d = true).
      { destruct Hsig as [H|[H|H]]; rewrite H; now rewrite ?orb_true_r. }
      rewrite S. cbn [negb]. now rewrite andb_false_r.
  - split; [|intros (l' & d' & E' & Hno' & _)].
    + destruct (negb _); [discriminate|]. discriminate.
    + apply partition_at_none in E. exfalso. apply E. rewrite E'.
      apply in_or_app. right. now left.
Qed.

Lemma regional_tld_suffix (tld name : str) :
  mem tld Multi.REGIONAL_TLDS = true -> forallb (fun c => negb (Ascii.eqb c ".")) tld = true ->
  Multi.regional_tld (name ++ lit "." ++ tld) = true.
Proof.
  intros Hmem Hdot. unfold Multi.regional_tld.
  change (name ++ lit "." ++ tld) with (name ++ "."%char :: tld).
  rewrite rsplit_1_last.
  - now rewrite Hmem.
  - intros Hin. rewrite forallb_forall in Hdot. specialize (Hdot _ Hin).
    now rewrite Ascii.eqb_refl in Hdot.
Qed.

(** X5.  Every default country is in the table of top-level domains,
    so none of its queries is scoped to [com]; and the domain its
    queries are scoped to is one the filter takes as regional, except
    for Rwanda: [rw] is not a regional top-level domain, and a domain
    under it is regional for no name. *)
Theorem default_countries_regional :
  Forall (fun country =>
            exists tld,
              In (country, tld) MultiCountry.COUNTRY_TLD_MAP
              /\ nth_error (MultiCountry.build_queries country) 3
                 = Some (lit "site:." ++ tld ++ lit " "
                         ++ MultiCountry.quoted (lit "air charter") ++ lit " "
                         ++ MultiCountry.quoted country ++ lit " email")
              /\ ((country = lit "Rwanda" /\ tld = lit "rw")
                  \/ forall name, Multi.regional_tld (name ++ lit "." ++ tld) = true))
         (MultiCountry.load_countries None [])
  /\ (forall name, Multi.regional_tld (name ++ lit ".rw") = false).
Proof.
  split.
  - apply Forall_forall. intros country Hc.
    exists (MultiCountry.dict_get MultiCountry.COUNTRY_TLD_MAP country (lit "com")).
    assert (Hall :
      forallb (fun country =>
                 let tld := MultiCountry.dict_get MultiCountry.COUNTRY_TLD_MAP country
                                                  (lit "com") in
                 existsb (fun e => PyStr.eqb (fst e) country && PyStr.eqb (snd e) tld)
                         MultiCountry.COUNTRY_TLD_MAP
                 && ((PyStr.eqb country (lit "Rwanda") && PyStr.eqb tld (lit "rw"))
                     || (mem tld Multi.REGIONAL_TLDS
                         && forallb (fun c => negb (Ascii.eqb c ".")) tld)))
              (MultiCountry.load_countries None []) = true) by (vm_compute; reflexivity).
    rewrite forallb_forall in Hall. specialize (Hall country Hc). cbv zeta in Hall.
    apply andb_prop in Hall as [Hin Hreg].
    split; [|split].
    + apply existsb_exists in Hin as ([k v] & Hin & E).
      apply andb_prop in E as [E1 E2]. apply eqb_eq in E1, E2. simpl in E1, E2.
      now subst.
    + reflexivity.
    + apply orb_prop in Hreg as [H|H].
      * left. apply andb_prop in H as [H1 H2]. split; now apply eqb_eq.
      * right. apply andb_prop in H as [H1 H2]. intros name.
        now apply regional_tld_suffix.
  - intros name. unfold Multi.regional_tld.
    change (name ++ lit ".rw") with (name ++ "."%char :: lit "rw").
    rewrite rsplit_1_last by (simpl; intuition discriminate).
    replace (endswith (name ++ "."%char :: lit "rw") (lit ".aero")) with false;
      [reflexivity|].
    unfold endswith. rewrite rev_app_distr. reflexivity.
Qed.

(** ** The depth of a crawl session *)



Section DeepDepth.
Context {web : WebEnv}.
Variables (w : world) (url : str).





End DeepDepth.



Section MultiDepth.
Context {web : WebEnv}.



Lemma extract_emails_from_html_empty : Multi.extract_emails_from_html [] = [].
Proof. reflexivity. Qed.

Variables (h0 : Multi.harvester) (w : world) (url : str).






End MultiDepth.




(** ** The search engines *)

Lemma slice_to_prefix (A : Type) (n : Z) (xs : list A) :
  exists rest, xs = slice_to n xs ++ rest.
Proof.
  unfold slice_to. eexists. symmetry. apply firstn_skipn.
Qed.

Lemma slice_to_nil (A : Type) (n : Z) : slice_to n (@nil A) = [].
Proof. unfold slice_to. apply firstn_nil. Qed.

Lemma slice_to_incl (A : Type) (n : Z) (xs : list A) : incl (slice_to n xs) xs.
Proof.
  destruct (slice_to_prefix A n xs) as (rest & H). intros x Hx.
  rewrite H. apply in_or_app. now left.
Qed.

Lemma slice_to_NoDup (A : Type) (n : Z) (xs : list A) : NoDup xs -> NoDup (slice_to n xs).
Proof.
  destruct (slice_to_prefix A n xs) as (rest & H). intros Hn.
  rewrite H in Hn. now apply NoDup_app_remove_r in Hn.
Qed.

Lemma slice_to_length (A : Type) (n : Z) (xs : list A) :
  (0 <= n)%Z -> (Z.of_nat (List.length (slice_to n xs)) <= n)%Z.
Proof.
  intros Hn. unfold slice_to.
  replace (n <? 0)%Z with false by (symmetry; apply Z.ltb_ge; lia).
  rewrite length_firstn. lia.
Qed.

Lemma slice_to_negative (A : Type) (n : Z) (xs : list A) :
  (n < 0)%Z ->
  List.length (slice_to n xs) = List.length xs - Z.to_nat (- n).
Proof.
  intros Hn. unfold slice_to.
  replace (n <? 0)%Z with true by (symmetry; apply Z.ltb_lt; lia).
  rewrite length_firstn. lia.
Qed.

Lemma replace_char (a b : ascii) (s : str) :
  replace [a] [b] s = map (fun c => if Ascii.eqb a c then b else c) s.
Proof.
  unfold replace. induction s as [|c s IH]; [reflexivity|].
  cbn [replace_from startswith List.length Nat.sub map].
  rewrite andb_true_r. destruct (Ascii.eqb a c); simpl; now rewrite IH.
Qed.

Lemma quote_piece_safe (c : ascii) :
  forallb (fun x => query_safe x || Ascii.eqb " " x)
          (if always_safe c || Ascii.eqb " " c then [c]
           else flat_map percent_byte (utf8_encode c)) = true
  /\ forallb query_safe
             (if always_safe c || false then [c]
              else flat_map percent_byte (utf8_encode c)) = true.
Proof. each_char c; split; reflexivity. Qed.

Lemma quote_plus_safe (s : str) : Forall (fun c => query_safe c = true) (quote_plus s).
Proof.
  unfold quote_plus. destruct (negb _).
  - unfold quote. apply Forall_forall. intros x Hx.
    apply in_flat_map in Hx as (c & _ & Hx).
    pose proof (proj2 (quote_piece_safe c)) as H.
    rewrite forallb_forall in H. now apply H.
  - change (lit " ") with [" "%char]. change (lit "+") with ["+"%char].
    rewrite replace_char. apply Forall_forall. intros x Hx.
    apply in_map_iff in Hx as (y & <- & Hy).
    unfold quote in Hy. apply in_flat_map in Hy as (c & _ & Hy).
    pose proof (proj1 (quote_piece_safe c)) as H.
    rewrite forallb_forall in H. specialize (H y Hy).
    destruct (Ascii.eqb " " y); [reflexivity|]. now rewrite orb_false_r in H.
Qed.

Section Engines.
Context {web : WebEnv} {serp : SerpEnv}.
Variables (self : Multi.harvester) (query : str).

Lemma search_spec (w : world) (url : str) (pick : str -> list str) (P : str -> Prop) :
  (forall text, Forall P (pick text)) ->
  let result := MultiSearch.search self w url pick in
  (exists all, fst result = slice_to (Multi.url_limit self) all /\ Forall P all)
  /\ requests (snd result) = requests w ++ [url]
  /\ searches (snd result) = searches w.
Proof.
  intros HP. unfold MultiSearch.search, get.
  destruct (respond (requests w) url) as [|[] content_type text];
    cbn [fst snd requests searches].
  - split; [exists []; now split | now split].
  - split; [exists (pick text); now split | now split].
  - split; [exists []; now split | now split].
Qed.

Lemma google_links_http (hrefs results : list str) :
  Forall (fun u => startswith u (lit "http") = true) results ->
  Forall (fun u => startswith u (lit "http") = true)
         (MultiSearch.google_links hrefs results).
Proof.
  revert results; induction hrefs as [|href hrefs IH]; intros results H;
    cbn [MultiSearch.google_links]; [assumption|].
  destruct (startswith href (lit "/url?q=")); [|now apply IH].
  destruct (nth_error _ 1) as [part|]; [|assumption].
  cbv zeta. destruct (startswith (nth 0 (split (lit "&") part) []) (lit "http")) eqn:E;
    [|now apply IH].
  apply IH. apply Forall_app. split; [assumption | now constructor].
Qed.

(** What one of the five search functions returns: a slice of links
    that begin with [http] and do not contain the text [banned], for
    one request. *)
Lemma engine_spec (engine : str) (w : world) (banned : str) :
  In (engine, banned) [(lit "google", []); (lit "bing", lit "bing.com");
                       (lit "yahoo", lit "yahoo.com"); (lit "yandex", lit "yandex");
                       (lit "duckduckgo", [])] ->
  let result := MultiSearch.search_with self engine w query in
  (exists all,
      fst result = slice_to (Multi.url_limit self) all
      /\ Forall (fun u => startswith u (lit "http") = true
                          /\ (banned <> [] -> str_in banned u = false))
                all)
  /\ (exists url, requests (snd result) = requests w ++ [url] /\ search_request query url)
  /\ searches (snd result) = searches w.
Proof.
  intros Hin result. subst result.
  destruct Hin as [E|[E|[E|[E|[E|[]]]]]]; injection E as <- <-;
    unfold MultiSearch.search_with;
    cbn [PyStr.eqb Ascii.eqb Bool.eqb andb lit list_ascii_of_string].
  - unfold MultiSearch.search_google.
    destruct (search_spec w
                (lit "https://www.google.com/search?q=" ++ quote_plus query ++ lit "&num="
                 ++ str_of_int (Multi.url_limit self))
                (fun text => MultiSearch.google_links (anchors text) [])
                (fun u => startswith u (lit "http") = true
                          /\ (@nil ascii <> [] -> str_in [] u = false)))
      as (H1 & H3 & H4).
    { intros text. apply Forall_forall. intros u Hu. split; [|congruence].
      revert u Hu. apply Forall_forall. apply google_links_http. constructor. }
    repeat split; try assumption.
    eexists. split; [exact H3|].
    exists (lit "www.google.com/search?q="), (lit "&num=" ++ str_of_int (Multi.url_limit self)).
    reflexivity.
  - unfold MultiSearch.search_bing.
    destruct (search_spec w
                (lit "https://www.bing.com/search?q=" ++ quote_plus query ++ lit "&count="
                 ++ str_of_int (Multi.url_limit self))
                (fun text =>
                   filter (fun href => startswith href (lit "http")
                                       && negb (str_in (lit "bing.com") href))
                          (anchors text))
                (fun u => startswith u (lit "http") = true
                          /\ (lit "bing.com" <> [] -> str_in (lit "bing.com") u = false)))
      as (H1 & H3 & H4).
    { intros text. apply Forall_forall. intros u Hu. apply filter_In in Hu as [_ Hu].
      apply andb_prop in Hu as [Ha Hb]. split; [exact Ha|]. intros _.
      now apply negb_true_iff. }
    repeat split; try assumption.
    eexists. split; [exact H3|].
    exists (lit "www.bing.com/search?q="), (lit "&count=" ++ str_of_int (Multi.url_limit self)).
    reflexivity.
  - unfold MultiSearch.search_yahoo.
    destruct (search_spec w
                (lit "https://search.yahoo.com/search?p=" ++ quote_plus query ++ lit "&n="
                 ++ str_of_int (Multi.url_limit self))
                (fun text =>
                   filter (fun href => startswith href (lit "http")
                                       && negb (str_in (lit "yahoo.com") href))
                          (anchors text))
                (fun u => startswith u (lit "http") = true
                          /\ (lit "yahoo.com" <> [] -> str_in (lit "yahoo.com") u = false)))
      as (H1 & H3 & H4).
    { intros text. apply Forall_forall. intros u Hu. apply filter_In in Hu as [_ Hu].
      apply andb_prop in Hu as [Ha Hb]. split; [exact Ha|]. intros _.
      now apply negb_true_iff. }
    repeat split; try assumption.
    eexists. split; [exact H3|].
    exists (lit "search.yahoo.com/search?p="), (lit "&n=" ++ str_of_int (Multi.url_limit self)).
    reflexivity.
  - unfold MultiSearch.search_yandex.
    destruct (search_spec w
                (lit "https://yandex.com/search/?text=" ++ quote_plus query ++ lit "&numdoc="
                 ++ str_of_int (Multi.url_limit self))
                (fun text =>
                   filter (fun href => startswith href (lit "http")
                                       && negb (str_in (lit "yandex") href))
                          (anchors text))
                (fun u => startswith u (lit "http") = true
                          /\ (lit "yandex" <> [] -> str_in (lit "yandex") u = false)))
      as (H1 & H3 & H4).
    { intros text. apply Forall_forall. intros u Hu. apply filter_In in Hu as [_ Hu].
      apply andb_prop in Hu as [Ha Hb]. split; [exact Ha|]. intros _.
      now apply negb_true_iff. }
    repeat split; try assumption.
    eexists. split; [exact H3|].
    exists (lit "yandex.com/search/?text="),
           (lit "&numdoc=" ++ str_of_int (Multi.url_limit self)).
    reflexivity.
  - unfold MultiSearch.search_duckduckgo.
    destruct (search_spec w
                (lit "https://duckduckgo.com/html/?q=" ++ quote_plus query ++ lit "&num="
                 ++ str_of_int (Multi.url_limit self))
                (fun text => filter (fun href => startswith href (lit "http"))
                                    (result_anchors text))
                (fun u => startswith u (lit "http") = true
                          /\ (@nil ascii <> [] -> str_in [] u = false)))
      as (H1 & H3 & H4).
    { intros text. apply Forall_forall. intros u Hu. apply filter_In in Hu as [_ Hu].
      split; [exact Hu | congruence]. }
    repeat split; try assumption.
    eexists. split; [exact H3|].
    exists (lit "duckduckgo.com/html/?q="), (lit "&num=" ++ str_of_int (Multi.url_limit self)).
    reflexivity.
Qed.

(** A name that is none of the five sends nothing and finds nothing. *)
Lemma engine_unknown (engine : str) (w : world) :
  ~ In engine Multi.SUPPORTED_ENGINES ->
  MultiSearch.search_with self engine w query = ([], w).
Proof.
  intros H. unfold MultiSearch.search_with.
  assert (Hno : forall name, In name Multi.SUPPORTED_ENGINES -> PyStr.eqb engine name = false).
  { intros name Hn. apply eqb_neq. intros ->. contradiction. }
  rewrite !Hno by (vm_compute; tauto). reflexivity.
Qed.

Lemma engine_known (engine : str) :
  In engine Multi.SUPPORTED_ENGINES ->
  exists banned,
    In (engine, banned) [(lit "google", []); (lit "bing", lit "bing.com");
                         (lit "yahoo", lit "yahoo.com"); (lit "yandex", lit "yandex");
                         (lit "duckduckgo", [])].
Proof.
  intros [<-|[<-|[<-|[<-|[<-|[]]]]]]; eexists; simpl; eauto 7.
Qed.

End Engines.

(** X9.  Each of the five search functions sends one request, to an
    [https] address that carries the query as [quote_plus] encodes it
    -- in letters, digits and [_.-~%+] only, so that no character of
    the query can end the parameter -- and sends no request for a name
    that is none of the five.  It returns [results[:url_limit]] of
    links that begin with [http]: at most [url_limit] links when the
    limit is not negative, and all but the last [-url_limit] when it
    is.  Bing, Yahoo and Yandex return no link that contains
    [bing.com], [yahoo.com] or [yandex]. *)
Theorem search_engine_results (web : WebEnv) (serp : SerpEnv) (self : Multi.harvester)
        (engine : str) (w : world) (query : str) :
  let result := MultiSearch.search_with self engine w query in
  (exists all,
      fst result = slice_to (Multi.url_limit self) all
      /\ Forall (fun u => startswith u (lit "http") = true) all
      /\ ((0 <= Multi.url_limit self)%Z ->
          (Z.of_nat (List.length (fst result)) <= Multi.url_limit self)%Z)
      /\ ((Multi.url_limit self < 0)%Z ->
          List.length (fst result)
          = List.length all - Z.to_nat (- Multi.url_limit self))
      /\ (engine = lit "bing" -> Forall (fun u => str_in (lit "bing.com") u = false) all)
      /\ (engine = lit "yahoo" -> Forall (fun u => str_in (lit "yahoo.com") u = false) all)
      /\ (engine = lit "yandex" -> Forall (fun u => str_in (lit "yandex") u = false) all))
  /\ Forall (fun u => startswith u (lit "http") = true) (fst result)
  /\ searches (snd result) = searches w
  /\ (In engine Multi.SUPPORTED_ENGINES ->
      exists url, requests (snd result) = requests w ++ [url] /\ search_request query url)
  /\ (~ In engine Multi.SUPPORTED_ENGINES -> result = ([], w))
  /\ Forall (fun c => query_safe c = true) (quote_plus query).
Proof.
  intros result. subst result.
  assert (Hdec : In engine Multi.SUPPORTED_ENGINES \/ ~ In engine Multi.SUPPORTED_ENGINES).
  { destruct (mem engine Multi.SUPPORTED_ENGINES) eqn:E;
      [left; now apply mem_In | right; now apply mem_not_In]. }
  destruct Hdec as [Hin|Hout].
  - destruct (engine_known engine Hin) as (banned & Hb).
    destruct (engine_spec self query engine w banned Hb) as ((all & Hall & HF) & Hreq & Hs).
    assert (Hhttp : Forall (fun u => startswith u (lit "http") = true) all).
    { apply Forall_forall. intros u Hu. now apply (Forall_elim HF). }
    assert (Hban : forall name text,
               engine = lit name -> In (lit name, text) [(lit "bing", lit "bing.com");
                                                        (lit "yahoo", lit "yahoo.com");
                                                        (lit "yandex", lit "yandex")] ->
               Forall (fun u => str_in text u = false) all).
    { intros name text -> Hn.
      assert (banned = text).
      { destruct Hn as [E|[E|[E|[]]]]; injection E as E1 <-;
          rewrite <- E1 in Hb;
          destruct Hb as [E|[E|[E|[E|[E|[]]]]]]; try discriminate E;
          now injection E as <-. }
      subst banned. apply Forall_forall. intros u Hu.
      apply (Forall_elim HF) in Hu as [_ Hu]. apply Hu.
      destruct Hn as [E|[E|[E|[]]]]; injection E as _ <-; discriminate. }
    split; [|split; [|split; [|split; [|split]]]].
    + exists all. split; [exact Hall|]. split; [exact Hhttp|].
      split; [intros Hl; rewrite Hall; now apply slice_to_length|].
      split; [intros Hl; rewrite Hall; now apply slice_to_negative|].
      split; [|split]; intros E.
      * apply (Hban "bing"%string); [exact E | simpl; tauto].
      * apply (Hban "yahoo"%string); [exact E | simpl; tauto].
      * apply (Hban "yandex"%string); [exact E | simpl; tauto].
    + rewrite Hall. apply Forall_forall. intros u Hu. apply slice_to_incl in Hu.
      now apply (Forall_elim Hhttp).
    + exact Hs.
    + intros _. exact Hreq.
    + contradiction.
    + apply quote_plus_safe.
  - rewrite (engine_unknown self query engine w Hout). cbn [fst snd].
    split; [|split; [|split; [|split; [|split]]]].
    + exists []. split; [now rewrite slice_to_nil|]. split; [constructor|].
      split; [intros; simpl; lia|]. split; [reflexivity|].
      split; [|split]; intros _; constructor.
    + constructor.
    + reflexivity.
    + contradiction.
    + reflexivity.
    + apply quote_plus_safe.
Qed.

(** The result page of the examples, asked of Bing with a limit of
    two and with a limit of minus one. *)
Lemma search_engine_results_witness :
  fst (@MultiSearch.search_with SearchExample.web SearchExample.serp
         (Multi.__init__ [lit "bing"] 2) (lit "bing") Example.quiet (lit "air charter"))
  = [lit "http://example.com/"; lit "https://x.com/airline"]
  /\ List.length
       (fst (@MultiSearch.search_with SearchExample.web SearchExample.serp
               (Multi.__init__ [lit "bing"] (-1)) (lit "bing") Example.quiet
               (lit "air charter")))
     = 3
  /\ requests
       (snd (@MultiSearch.search_with SearchExample.web SearchExample.serp
               (Multi.__init__ [lit "bing"] 2) (lit "bing") Example.quiet
               (lit "air charter & jets")))
     = [lit "https://www.bing.com/search?q=air+charter+%26+jets&count=2"]
  /\ @MultiSearch.search_with SearchExample.web SearchExample.serp
       (Multi.__init__ [lit "bing"] 2) (lit "altavista") Example.quiet (lit "air charter")
     = ([], Example.quiet).
Proof.
  destruct (search_engine_results SearchExample.web SearchExample.serp
              (Multi.__init__ [lit "bing"] (-1)) (lit "bing") Example.quiet
              (lit "air charter"))
    as ((all & Hall & _ & _ & Hneg & _) & _).
  destruct (search_engine_results SearchExample.web SearchExample.serp
              (Multi.__init__ [lit "bing"] 2) (lit "altavista") Example.quiet
              (lit "air charter"))
    as (_ & _ & _ & _ & Hout & _).
  split; [reflexivity|]. split; [|split; [reflexivity|]].
  - reflexivity.
  - apply Hout. vm_compute. intuition discriminate.
Defined.

Section MultiEngineSearch.
Context {web : WebEnv} {serp : SerpEnv}.
Variables (self : Multi.harvester) (query : str) (w0 : world).

Lemma search_step_inv (st : list str * world) (engine : str) (sent : list str) :
  NoDup (fst st) ->
  requests (snd st) = requests w0 ++ sent ->
  searches (snd st) = searches w0 ->
  Forall (search_request query) sent ->
  let st' := MultiSearch.search_step self query st engine in
  NoDup (fst st')
  /\ searches (snd st') = searches w0
  /\ exists more,
       requests (snd st') = requests w0 ++ sent ++ more
       /\ Forall (search_request query) (sent ++ more)
       /\ List.length more = if mem engine Multi.SUPPORTED_ENGINES then 1 else 0.
Proof.
  destruct st as [urls w]. cbn [fst snd]. intros Hnd Hreq Hs Hsent.
  unfold MultiSearch.search_step.
  destruct (mem engine Multi.SUPPORTED_ENGINES) eqn:E.
  - apply mem_In in E. destruct (engine_known engine E) as (banned & Hb).
    destruct (engine_spec self query engine w banned Hb) as (_ & (url & Hr & Hu) & Hs').
    destruct (MultiSearch.search_with self engine w query) as [found w']. cbn [fst snd] in *.
    split; [now apply set_update_NoDup|]. split; [congruence|].
    exists [url]. split; [now rewrite Hr, Hreq, app_assoc|]. split; [|reflexivity].
    apply Forall_app. split; [assumption | now constructor].
  - apply mem_not_In in E. rewrite (engine_unknown self query engine w E). cbn [fst snd].
    split; [assumption|]. split; [assumption|].
    exists []. rewrite app_nil_r. now repeat split.
Qed.

Lemma search_fold_inv (engines : list str) :
  forall (st : list str * world) (sent : list str),
    NoDup (fst st) ->
    requests (snd st) = requests w0 ++ sent ->
    searches (snd st) = searches w0 ->
    Forall (search_request query) sent ->
    let st' := fold_left (MultiSearch.search_step self query) engines st in
    NoDup (fst st')
    /\ searches (snd st') = searches w0
    /\ exists more,
         requests (snd st') = requests w0 ++ sent ++ more
         /\ Forall (search_request query) (sent ++ more)
         /\ List.length more
            = List.length (filter (fun e => mem e Multi.SUPPORTED_ENGINES) engines).
Proof.
  induction engines as [|engine engines IH]; intros st sent Hnd Hreq Hs Hsent; cbn [fold_left].
  - split; [assumption|]. split; [assumption|].
    exists []. rewrite app_nil_r. now repeat split.
  - destruct (search_step_inv st engine sent Hnd Hreq Hs Hsent)
      as (Hnd' & Hs' & more & Hreq' & Hsent' & Hlen).
    destruct (IH _ (sent ++ more) Hnd' Hreq' Hs' Hsent')
      as (Hnd'' & Hs'' & more' & Hreq'' & Hsent'' & Hlen').
    split; [assumption|]. split; [assumption|].
    exists (more ++ more'). split; [now rewrite Hreq'', <- app_assoc|].
    split; [now rewrite app_assoc|].
    rewrite length_app, Hlen, Hlen'. cbn [filter].
    destruct (mem engine Multi.SUPPORTED_ENGINES); reflexivity.
Qed.

End MultiEngineSearch.

(** X10.  [multi_engine_search] sends one request for every engine of
    the harvester that is one of the five -- for every engine, when
    the harvester was built by [__init__] -- and returns links without
    duplicates that begin with [http] and that [should_skip_url] does
    not reject: at most [url_limit] of them when the limit is not
    negative. *)
Theorem multi_engine_search_results (web : WebEnv) (serp : SerpEnv)
        (self : Multi.harvester) (w : world) (query : str) :
  let result := MultiSearch.multi_engine_search self w query in
  NoDup (fst result)
  /\ Forall (fun u => startswith u (lit "http") = true /\ Multi.should_skip_url u = false)
            (fst result)
  /\ ((0 <= Multi.url_limit self)%Z ->
      (Z.of_nat (List.length (fst result)) <= Multi.url_limit self)%Z)
  /\ searches (snd result) = searches w
  /\ (exists sent,
        requests (snd result) = requests w ++ sent
        /\ Forall (search_request query) sent
        /\ List.length sent
           = List.length (filter (fun e => mem e Multi.SUPPORTED_ENGINES)
                                 (Multi.engines self))
        /\ ((exists engines url_limit, self = Multi.__init__ engines url_limit) ->
            List.length sent = List.length (Multi.engines self))).
Proof.
  intros result. subst result. unfold MultiSearch.multi_engine_search.
  destruct (search_fold_inv self query w (Multi.engines self) ([], w) [])
    as (Hnd & Hs & sent & Hreq & Hsent & Hlen);
    [constructor | now rewrite app_nil_r | reflexivity | constructor |].
  destruct (fold_left _ (Multi.engines self) ([], w)) as [urls w']. cbn [fst snd] in *.
  assert (Hclean : NoDup (shuffle (Multi.cleaned (set_iter urls)))).
  { apply (Permutation_NoDup (Permutation_sym (shuffle_perm _))).
    unfold Multi.cleaned. apply NoDup_filter.
    apply (Permutation_NoDup (Permutation_sym (set_iter_perm _))). exact Hnd. }
  split; [now apply slice_to_NoDup|]. split; [|split; [|split]].
  - apply Forall_forall. intros u Hu. apply slice_to_incl in Hu.
    apply (Permutation_in _ (shuffle_perm _)) in Hu.
    apply filter_In in Hu as [_ Hu]. apply andb_prop in Hu as [H1 H2].
    split; [exact H1 | now apply negb_true_iff].
  - apply slice_to_length.
  - exact Hs.
  - exists sent. split; [exact Hreq|]. split; [exact Hsent|]. split; [exact Hlen|].
    intros (engines & url_limit & ->). rewrite Hlen. f_equal.
    unfold Multi.__init__. cbn [Multi.engines].
    destruct (filter (fun engine => mem engine Multi.SUPPORTED_ENGINES) engines)
      as [|e es] eqn:E.
    + reflexivity.
    + rewrite <- E. apply forallb_filter_id. apply forallb_forall.
      intros x Hx. now apply filter_In in Hx as [_ Hx].
Qed.

(** The harvester of the examples asks Bing, and keeps what is left of
    its page once the social network is dropped. *)
Lemma multi_engine_search_results_witness :
  Multi.engines SearchExample.bing_only = [lit "bing"]
  /\ fst (@MultiSearch.multi_engine_search SearchExample.web SearchExample.serp
            SearchExample.bing_only Example.quiet (lit "air charter"))
     = [lit "http://example.com/contact"; lit "http://example.com/"]
  /\ List.length
       (requests (snd (@MultiSearch.multi_engine_search SearchExample.web SearchExample.serp
                         SearchExample.bing_only Example.quiet (lit "air charter"))))
     = 1.
Proof.
  destruct (multi_engine_search_results SearchExample.web SearchExample.serp
              SearchExample.bing_only Example.quiet (lit "air charter"))
    as (_ & _ & _ & _ & sent & Hreq & _ & _ & Hall).
  split; [reflexivity|]. split; [reflexivity|].
  rewrite Hreq. cbn [Example.quiet requests app].
  rewrite Hall; [reflexivity|].
  now exists [lit "bing"; lit "altavista"], 20%Z.
Defined.

(** ** The pattern matcher finds what stands between delimiters *)

Lemma try_down_top (R : Type) (f : nat -> option R) (lo k : nat) (r : R) :
  lo <= k -> f k = Some r -> Re.try_down f lo k = Some r.
Proof.
  intros Hk Hf. destruct k as [|k]; simpl.
  - replace (0 <? lo) with false by (symmetry; apply Nat.ltb_ge; lia). now rewrite Hf.
  - replace (S k <? lo) with false by (symmetry; apply Nat.ltb_ge; lia). now rewrite Hf.
Qed.

Lemma try_down_skip (R : Type) (f : nat -> option R) (lo k0 k : nat) :
  lo <= k0 -> k0 <= k -> (forall j, k0 < j <= k -> f j = None) ->
  Re.try_down f lo k = Re.try_down f lo k0.
Proof.
  intros Hlo Hk. induction k as [|k IH]; intros Hnone.
  - now replace k0 with 0 by lia.
  - destruct (Nat.eq_dec k0 (S k)) as [->|Hne]; [reflexivity|].
    cbn [Re.try_down].
    replace (S k <? lo) with false by (symmetry; apply Nat.ltb_ge; lia).
    rewrite Hnone by lia. apply IH; [lia|]. intros j Hj. apply Hnone. lia.
Qed.

Lemma try_down_at (R : Type) (f : nat -> option R) (lo k0 k : nat) (r : R) :
  lo <= k0 -> k0 <= k -> (forall j, k0 < j <= k -> f j = None) -> f k0 = Some r ->
  Re.try_down f lo k = Some r.
Proof.
  intros Hlo Hk Hnone Hf. rewrite (try_down_skip R f lo k0 k Hlo Hk Hnone).
  now apply try_down_top.
Qed.

Lemma run_app_stops (cls : ascii -> bool) (w rest : str) :
  Forall (fun c => cls c = true) w -> stops cls rest ->
  Re.run cls (w ++ rest) = List.length w.
Proof.
  intros Hw Hrest. induction Hw as [|c w Hc _ IH]; simpl.
  - destruct rest as [|c rest]; [reflexivity|]. simpl in *. now rewrite Hrest.
  - now rewrite Hc, IH.
Qed.

Lemma skipn_app_length (A : Type) (w rest : list A) :
  skipn (List.length w) (w ++ rest) = rest.
Proof. induction w; simpl; auto. Qed.

Lemma firstn_app_length (A : Type) (w rest : list A) :
  firstn (List.length w) (w ++ rest) = w.
Proof. induction w; simpl; [reflexivity|]. now f_equal. Qed.

(** Inside or right after a run of characters that are no dots there
    is no dot. *)
Lemma no_dot_in_run (T : ascii -> bool) (t rest : str) (i : nat) :
  T "."%char = false ->
  Forall (fun c => T c = true) t -> stops (Ascii.eqb ".") rest ->
  i <= List.length t ->
  startswith (skipn i (t ++ rest)) (lit ".") = false.
Proof.
  intros HT Ht Hrest. revert i. induction Ht as [|c t Hc _ IH]; intros i Hi.
  - assert (i = 0) by (simpl in Hi; lia). subst.
    destruct rest as [|c rest]; [reflexivity|]. cbn [stops] in Hrest.
    cbn [skipn app lit list_ascii_of_string startswith]. now rewrite Hrest.
  - destruct i as [|i].
    + cbn [skipn app lit list_ascii_of_string startswith].
      replace (Ascii.eqb "." c) with false; [reflexivity|].
      symmetry. apply not_true_is_false. intros E. apply Ascii.eqb_eq in E. congruence.
    + cbn [skipn app]. apply IH. simpl in Hi. lia.
Qed.

Lemma class_facts (c : ascii) :
  (is_alpha c = true -> Cloudflare.domain_char c = true)
  /\ (Cloudflare.domain_char c = true -> Cloudflare.local_char c = true)
  /\ (Cloudflare.local_char c = true -> address_char c = true)
  /\ (Cloudflare.domain_char c = false -> Ascii.eqb "." c = false /\ is_alpha c = false)
  /\ (Cloudflare.local_char c = true -> Ascii.eqb c "@" = false)
  /\ (address_char c = true ->
      is_space c = false /\ Ascii.eqb c "&" = false /\ Ascii.eqb c " " = false
      /\ one_of " '()[]{}<>" c || Ascii.eqb c Cloudflare.dq = false
      /\ Cloudflare.rot13_char_class c = true
      /\ Cloudflare.rot13_char_class (rot13_char c) = true
      /\ rot13_char (rot13_char c) = c)
  /\ (is_alpha c = true -> rot13_char c <> c).
Proof. each_char c; repeat split; intros; try discriminate; reflexivity. Qed.

Lemma stops_weaken (cls cls' : ascii -> bool) (rest : str) :
  (forall c, cls c = false -> cls' c = false) -> stops cls rest -> stops cls' rest.
Proof. intros H. destruct rest as [|c rest]; simpl; auto. Qed.

(** The steps of the matcher. *)
Lemma match_rep (full : bool) (cls : ascii -> bool) (lo : nat) (r : Re.regex) (s : str)
      (n gopen : nat) (grp : option (nat * nat)) :
  Re.match_here full (Re.Rep cls lo None :: r) s n gopen grp
  = Re.try_down (fun k => Re.match_here full r (skipn k s) (n + k) gopen grp)
                lo (Re.run cls s).
Proof. reflexivity. Qed.

Lemma match_lit (full : bool) (w : str) (r : Re.regex) (s : str)
      (n gopen : nat) (grp : option (nat * nat)) :
  Re.match_here full (Re.Lit w :: r) s n gopen grp
  = if startswith s w
    then Re.match_here full r (skipn (List.length w) s) (n + List.length w) gopen grp
    else None.
Proof. reflexivity. Qed.

Lemma match_end (full : bool) (s : str) (n gopen : nat) (grp : option (nat * nat)) :
  (full = true -> s = []) -> Re.match_here full [] s n gopen grp = Some (n, grp).
Proof. intros H. destruct full; [now rewrite H | reflexivity]. Qed.

Lemma startswith_app (w rest : str) : startswith (w ++ rest) w = true.
Proof. apply startswith_spec. now exists rest. Qed.

(** A pattern of the shape [L+@D+\.T{2,}], with more of a pattern
    behind it, at the head of a text that begins with an address of
    that shape and does not go on with a character of [D]: the
    address is matched, and nothing more of the text. *)
Lemma address_match_here (full : bool) (L D T : ascii -> bool) (tail : Re.regex)
      (l d t rest : str) (n : nat) (res : Re.found) :
  L "@"%char = false -> D "."%char = true -> T "."%char = false ->
  (forall c, T c = true -> D c = true) ->
  l <> [] -> Forall (fun c => L c = true) l ->
  d <> [] -> Forall (fun c => D c = true) d ->
  2 <= List.length t -> Forall (fun c => T c = true) t ->
  stops D rest ->
  Re.match_here full tail rest (n + List.length (l ++ lit "@" ++ d ++ lit "." ++ t)) 0 None
  = Some res ->
  Re.match_here full
                ([Re.plus L; Re.Lit (lit "@"); Re.plus D; Re.Lit (lit "."); Re.at_least 2 T]
                 ++ tail)
                (l ++ lit "@" ++ d ++ lit "." ++ t ++ rest) n 0 None
  = Some res.
Proof.
  intros HLat HDdot HTdot HTD Hl Fl Hd Fd Ht Ft Hrest Htail.
  assert (Ll : 1 <= List.length l) by (destruct l; [contradiction | simpl; lia]).
  assert (Ld : 1 <= List.length d) by (destruct d; [contradiction | simpl; lia]).
  assert (Hdot : stops (Ascii.eqb ".") rest).
  { apply (stops_weaken D); [|assumption].
    intros c Hc. apply not_true_is_false. intros E. apply Ascii.eqb_eq in E. congruence. }
  assert (Halpha : stops T rest).
  { apply (stops_weaken D); [|assumption].
    intros c Hc. apply not_true_is_false. intros E. apply HTD in E. congruence. }
  unfold Re.plus, Re.at_least. cbn [app].
  (* the local part *)
  rewrite match_rep.
  rewrite (run_app_stops L l) by (assumption || exact HLat).
  apply try_down_top; [exact Ll|].
  rewrite skipn_app_length, match_lit, startswith_app, skipn_app_length.
  (* the domain *)
  assert (Fdt : Forall (fun c => D c = true) (d ++ lit "." ++ t)).
  { apply Forall_app. split; [assumption|]. constructor; [exact HDdot|].
    apply Forall_forall. intros c Hc. apply HTD. now apply (Forall_elim Ft). }
  rewrite match_rep.
  replace (d ++ lit "." ++ t ++ rest) with ((d ++ lit "." ++ t) ++ rest)
    by now rewrite <- !app_assoc.
  rewrite (run_app_stops D (d ++ lit "." ++ t)) by assumption.
  rewrite <- !app_assoc.
  apply (try_down_at _ _ 1 (List.length d)); [exact Ld | rewrite length_app; lia | |].
  - intros j Hj. rewrite length_app in Hj. cbn [List.length lit list_ascii_of_string app] in Hj.
    rewrite match_lit.
    replace j with (S (j - List.length d - 1) + List.length d) by lia.
    rewrite <- skipn_skipn, skipn_app_length.
    cbn [lit list_ascii_of_string app skipn].
    rewrite (no_dot_in_run T); [reflexivity | assumption..  | lia].
  - rewrite skipn_app_length, match_lit, startswith_app, skipn_app_length.
    rewrite match_rep, (run_app_stops T t) by assumption.
    apply try_down_top; [exact Ht|].
    rewrite skipn_app_length. rewrite <- Htail. f_equal.
    rewrite !length_app. simpl. lia.
Qed.

(** The pattern of an address of the three harvesters. *)
Lemma email_match_here (full : bool) (l d t rest : str) (n : nat) :
  l <> [] -> Forall (fun c => Cloudflare.local_char c = true) l ->
  d <> [] -> Forall (fun c => Cloudflare.domain_char c = true) d ->
  2 <= List.length t -> Forall (fun c => is_alpha c = true) t ->
  stops Cloudflare.domain_char rest -> (full = true -> rest = []) ->
  Re.match_here full Cloudflare.EMAIL_REGEX
                (l ++ lit "@" ++ d ++ lit "." ++ t ++ rest) n 0 None
  = Some (n + List.length (l ++ lit "@" ++ d ++ lit "." ++ t), None).
Proof.
  intros Hl Fl Hd Fd Ht Ft Hrest Hfull.
  apply (address_match_here full Cloudflare.local_char Cloudflare.domain_char is_alpha []);
    try assumption; try reflexivity.
  - intros c. apply (class_facts c).
  - now apply match_end.
Qed.

Lemma canonical_fullmatch (e : str) :
  canonical_email e -> Re.fullmatch Cloudflare.EMAIL_REGEX e = true.
Proof.
  intros (l & d & t & -> & Hl & Fl & Hd & Fd & Ht & Ft). unfold Re.fullmatch.
  pose proof (email_match_here true l d t [] 0 Hl Fl Hd Fd Ht Ft I (fun _ => eq_refl)) as H.
  rewrite !app_nil_r in H. now rewrite H.
Qed.

Lemma canonical_match (e rest : str) :
  canonical_email e -> stops Cloudflare.domain_char rest ->
  Re.match_here false Cloudflare.EMAIL_REGEX (e ++ rest) 0 0 None
  = Some (List.length e, None).
Proof.
  intros (l & d & t & -> & Hl & Fl & Hd & Fd & Ht & Ft) Hrest.
  pose proof (email_match_here false l d t rest 0 Hl Fl Hd Fd Ht Ft Hrest
                               (fun H => ltac:(discriminate))) as H.
  rewrite <- !app_assoc. exact H.
Qed.

Lemma canonical_chars (e : str) :
  canonical_email e -> Forall (fun c => address_char c = true) e.
Proof.
  intros (l & d & t & -> & _ & Fl & _ & Fd & _ & Ft).
  repeat (apply Forall_app; split); try (constructor; [reflexivity|]); try constructor.
  - apply Forall_forall. intros c Hc. apply (class_facts c). now apply (Forall_elim Fl).
  - apply Forall_forall. intros c Hc. apply (class_facts c), (class_facts c).
    now apply (Forall_elim Fd).
  - apply Forall_forall. intros c Hc. apply (class_facts c), (class_facts c), (class_facts c).
    now apply (Forall_elim Ft).
Qed.

(** *** [findall] and delimiters *)

Lemma findall_head (r : Re.regex) (s : str) (n : nat) (g : option (nat * nat)) :
  Re.match_here false r s 0 0 None = Some (S n, g) ->
  In (Re.item s (S n, g)) (Re.findall r s).
Proof.
  intros H. unfold Re.findall. destruct s as [|c s].
  - apply match_here_sound in H as (w & rest & Hs & Hn & _).
    symmetry in Hs. apply app_eq_nil in Hs as [-> _]. discriminate.
  - cbn [Re.findall_from]. rewrite H. now left.
Qed.

(** A match cannot run over a character no match contains. *)
Lemma findall_after_delimiter (r : Re.regex) (P : ascii -> bool) (c : ascii)
      (rest m : str) :
  (forall s n g, Re.match_here false r s 0 0 None = Some (n, g) ->
                 Forall (fun x => P x = true) (firstn n s)) ->
  P c = false ->
  In m (Re.findall r rest) ->
  forall before skip, skip <= List.length before ->
    In m (Re.findall_from r skip (before ++ c :: rest)).
Proof.
  intros Halpha Hc Hm. induction before as [|b before IH]; intros skip Hskip.
  - assert (skip = 0) by (simpl in Hskip; lia). subst. cbn [app Re.findall_from].
    destruct (Re.match_here false r (c :: rest) 0 0 None) as [[[|n] g]|] eqn:E;
      try exact Hm.
    apply Halpha in E. inversion E as [|? ? Hx _]. congruence.
  - cbn [app Re.findall_from]. destruct skip as [|k].
    + destruct (Re.match_here false r (b :: before ++ c :: rest) 0 0 None)
        as [[[|n] g]|] eqn:E; try (apply IH; simpl; lia).
      right. apply IH. apply Halpha in E.
      destruct (Nat.le_gt_cases n (List.length before)) as [Hle|Hgt]; [exact Hle|].
      exfalso. cbn [firstn] in E. inversion E as [|? ? _ E']; subst.
      rewrite firstn_app in E'. apply Forall_app in E' as [_ E'].
      replace (n - List.length before) with (S (n - List.length before - 1)) in E' by lia.
      cbn [firstn] in E'. inversion E' as [|? ? Hx _]. congruence.
    + apply IH. simpl in Hskip. lia.
Qed.

Lemma findall_delimited (r : Re.regex) (P : ascii -> bool) (before rest m : str) :
  (forall s n g, Re.match_here false r s 0 0 None = Some (n, g) ->
                 Forall (fun x => P x = true) (firstn n s)) ->
  ends_outside P before ->
  In m (Re.findall r rest) ->
  In m (Re.findall r (before ++ rest)).
Proof.
  intros Halpha [->|(b & c & -> & Hc)] Hm; [exact Hm|].
  rewrite <- app_assoc. cbn [app]. unfold Re.findall.
  apply (findall_after_delimiter r P c rest m Halpha Hc Hm). lia.
Qed.

Lemma email_alphabet (s : str) (n : nat) (g : option (nat * nat)) :
  Re.match_here false Cloudflare.EMAIL_REGEX s 0 0 None = Some (n, g) ->
  Forall (fun x => address_char x = true) (firstn n s).
Proof.
  intros H. apply match_here_sound in H as (w & rest & -> & -> & Hm & _).
  cbn [Nat.add]. rewrite firstn_app_length.
  apply canonical_chars. now apply matches_email_canonical in Hm.
Qed.

(** An address that stands between delimiters is one of the matches. *)
Lemma findall_address (before e rest : str) :
  canonical_email e ->
  ends_outside address_char before -> stops Cloudflare.domain_char rest ->
  In e (Re.findall Cloudflare.EMAIL_REGEX (before ++ e ++ rest)).
Proof.
  intros He Hb Hr.
  apply (findall_delimited _ address_char); [apply email_alphabet | exact Hb |].
  pose proof (canonical_match e rest He Hr) as H.
  destruct (List.length e) as [|n] eqn:En.
  - destruct He as (l & d & t & -> & Hl & _). destruct l; [contradiction | discriminate].
  - apply findall_head in H. cbn [Re.item] in H.
    rewrite <- En, firstn_app_length in H. exact H.
Qed.

(** ** An address that stands in the page is extracted *)

Lemma fold_left_grows (A B : Type) (step : list B -> A -> list B) (z : B) :
  (forall acc y, In z acc -> In z (step acc y)) ->
  forall xs acc, In z acc -> In z (fold_left step xs acc).
Proof.
  intros H. induction xs as [|x xs IH]; intros acc Hz; simpl; [assumption|].
  apply IH. now apply H.
Qed.

Lemma fold_left_adds (A B : Type) (step : list B -> A -> list B) (z : B) (x : A) :
  (forall acc y, In z acc -> In z (step acc y)) ->
  (forall acc, In z (step acc x)) ->
  forall xs acc, In x xs -> In z (fold_left step xs acc).
Proof.
  intros Hgrow Hadd. induction xs as [|y xs IH]; intros acc Hx; simpl; [destruct Hx|].
  destruct Hx as [->|Hx]; [|now apply IH].
  apply fold_left_grows; [exact Hgrow | apply Hadd].
Qed.

Lemma replace_absent (a : ascii) (old new s : str) :
  ~ In a s -> replace (a :: old) new s = s.
Proof.
  unfold replace. induction s as [|c s IH]; intros H; [reflexivity|].
  cbn [replace_from startswith].
  replace (Ascii.eqb a c) with false.
  - cbn [andb]. f_equal. apply IH. intros Hin. apply H. now right.
  - symmetry. apply not_true_is_false. intros E. apply Ascii.eqb_eq in E.
    apply H. now left.
Qed.

(** Where there is no white space, taking it away around a character
    changes nothing. *)
Lemma sub_trim (a : ascii) (s : str) :
  Forall (fun c => is_space c = false) s ->
  Re.sub [Re.star is_space; Re.Lit [a]; Re.star is_space] [a] s = s.
Proof.
  unfold Re.sub, Re.star. induction 1 as [|c s Hc Hs IH]; [reflexivity|].
  cbn [Re.sub_from]. rewrite match_rep.
  assert (Hrun : Re.run is_space (c :: s) = 0) by (simpl; now rewrite Hc).
  rewrite Hrun. cbn [Re.try_down Nat.ltb Nat.leb skipn].
  rewrite match_lit. cbn [startswith].
  destruct (Ascii.eqb a c) eqn:E; cbn [andb].
  - apply Ascii.eqb_eq in E. subst c. cbn [List.length skipn].
    rewrite match_rep.
    assert (Hrun' : Re.run is_space s = 0).
    { destruct Hs as [|d s Hd _]; simpl; [reflexivity | now rewrite Hd]. }
    rewrite Hrun'. cbn [Re.try_down Nat.ltb Nat.leb skipn].
    rewrite match_end by discriminate. cbn [Nat.add app]. now rewrite IH.
  - now rewrite IH.
Qed.

Section Plain.
Context {env : PyEnv}.

(** [_clean_email] leaves an address without a percent sign as it is,
    but for the case of its letters. *)
Lemma clean_email_address (e : str) :
  canonical_email e -> ~ In "%"%char e -> Cloudflare._clean_email e = lower e.
Proof.
  intros He Hp. pose proof (canonical_chars e He) as Hchars.
  assert (Hnot : forall a, address_char a = false -> ~ In a e).
  { intros a Ha Hin. apply (Forall_elim Hchars) in Hin. congruence. }
  assert (Hspace : Forall (fun c => is_space c = false) e).
  { apply Forall_forall. intros c Hc. apply (class_facts c). now apply (Forall_elim Hchars). }
  unfold Cloudflare._clean_email.
  destruct e as [|c0 e0] eqn:Ee; [reflexivity|]. rewrite <- Ee in *. clear Ee.
  unfold html_unescape.
  replace (str_in (lit "&") e) with false
    by (symmetry; apply not_true_is_false; intros X; apply str_in_char in X;
        now apply (Hnot "&"%char)).
  cbn [negb]. unfold unquote.
  replace (str_in (lit "%") e) with false
    by (symmetry; apply not_true_is_false; intros X; now apply str_in_char in X).
  cbn [negb].
  change (lit "&amp;") with ("&"%char :: lit "amp;").
  rewrite replace_absent by now apply (Hnot "&"%char).
  change (lit "@") with ["@"%char]. change (lit ".") with ["."%char].
  rewrite (sub_trim "@" e Hspace), (sub_trim "." e Hspace).
  change (lit " at ") with (" "%char :: lit "at ").
  change (lit " dot ") with (" "%char :: lit "dot ").
  rewrite (replace_absent " " (lit "at ") _ e) by now apply (Hnot " "%char).
  rewrite (replace_absent " " (lit "dot ") _ e) by now apply (Hnot " "%char).
  f_equal.
  destruct He as (l & d & t & -> & Hl & Fl & _ & _ & Ht & Ft).
  destruct l as [|c l]; [contradiction|].
  destruct (exists_last (l := t)) as (t0 & z & ->);
    [intros ->; simpl in Ht; lia|].
  rewrite !app_assoc. cbn [app]. apply strip_by_ends.
  - apply (class_facts c). apply (Forall_elim Hchars). now left.
  - apply (class_facts z). apply (Forall_elim Hchars).
    rewrite !app_assoc. apply in_or_app. right. now left.
Qed.

Lemma add_cleaned_grows (z : str) (acc : list str) (raw : str) :
  In z acc -> In z (Cloudflare.add_cleaned acc raw).
Proof.
  intros H. unfold Cloudflare.add_cleaned.
  destruct (Re.fullmatch _ _); [apply set_add_In; now right | assumption].
Qed.

Lemma add_cleaned_address (e : str) (acc : list str) :
  canonical_email e -> ~ In "%"%char e -> In (lower e) (Cloudflare.add_cleaned acc e).
Proof.
  intros He Hp. unfold Cloudflare.add_cleaned.
  rewrite (clean_email_address e He Hp).
  rewrite (canonical_fullmatch (lower e) (canonical_lower e He)).
  apply set_add_In. now left.
Qed.

Lemma extract_from_decoded_address (before e rest : str) :
  canonical_email e -> ~ In "%"%char e ->
  ends_outside address_char before -> stops Cloudflare.domain_char rest ->
  In (lower e) (Cloudflare._extract_from_decoded (before ++ e ++ rest)).
Proof.
  intros He Hp Hb Hr. unfold Cloudflare._extract_from_decoded.
  destruct (before ++ e ++ rest) as [|c text] eqn:E.
  - apply app_eq_nil in E as [_ E]. apply app_eq_nil in E as [-> _].
    destruct He as (l & d & t & H & _). destruct l; discriminate.
  - rewrite <- E. apply (fold_left_adds _ _ _ (lower e) e).
    + intros acc y. apply add_cleaned_grows.
    + intros acc. now apply add_cleaned_address.
    + now apply findall_address.
Qed.

End Plain.




(** ** An address written in rot13 is decoded *)

Lemma rot13_char_involutive (c : ascii) : rot13_char (rot13_char c) = c.
Proof. each_char c; reflexivity. Qed.

Lemma rot13_involutive (s : str) : rot13 (rot13 s) = s.
Proof.
  unfold rot13. rewrite map_map. rewrite <- (map_id s) at 2.
  apply map_ext. apply rot13_char_involutive.
Qed.

Lemma rot13_length (s : str) : List.length (rot13 s) = List.length s.
Proof. apply length_map. Qed.

Lemma rot13_class (e : str) :
  Forall (fun c => address_char c = true) e ->
  Forall (fun c => Cloudflare.rot13_char_class c = true) (rot13 e)
  /\ ~ In "&"%char (rot13 e).
Proof.
  intros H. split.
  - apply Forall_forall. intros x Hx. apply in_map_iff in Hx as (c & <- & Hc).
    apply (class_facts c). now apply (Forall_elim H).
  - intros Hx. apply in_map_iff in Hx as (c & Hx & Hc).
    apply (Forall_elim H) in Hc. revert Hx Hc. clear.
    each_char c; intros; discriminate.
Qed.

Lemma map_fixed (A : Type) (f : A -> A) (l : list A) :
  l = map f l -> Forall (fun x => f x = x) l.
Proof.
  induction l as [|x l IH]; simpl; intros H; [constructor|].
  injection H as Hx Hl. constructor; [now symmetry | now apply IH].
Qed.

Lemma rot13_differs (e : str) : canonical_email e -> e <> rot13 e.
Proof.
  intros (l & d & t & -> & _ & _ & _ & _ & Ht & Ft) E.
  apply map_fixed in E.
  destruct t as [|c t]; [simpl in Ht; lia|].
  inversion Ft as [|? ? Hc _]; subst.
  assert (Hin : In c (l ++ lit "@" ++ d ++ lit "." ++ c :: t)).
  { do 4 (apply in_or_app; right). now left. }
  apply (Forall_elim E) in Hin. now apply (class_facts c) in Hin.
Qed.

Lemma candidate_alphabet (s : str) (n : nat) (g : option (nat * nat)) :
  Re.match_here false Cloudflare.ROT13_CANDIDATE_REGEX s 0 0 None = Some (n, g) ->
  Forall (fun x => Cloudflare.rot13_char_class x = true) (firstn n s).
Proof.
  intros H. apply match_here_sound in H as (w & rest & -> & -> & Hm & _).
  cbn [Nat.add]. rewrite firstn_app_length.
  unfold Cloudflare.ROT13_CANDIDATE_REGEX, Re.at_least in Hm.
  inversion Hm as [|? ? ? ? w1 w2 ? F1 _ _ H2| | | | |]; subst.
  inversion H2; subst. now rewrite app_nil_r.
Qed.

Lemma findall_candidate (before w rest : str) :
  10 <= List.length w ->
  Forall (fun c => Cloudflare.rot13_char_class c = true) w ->
  ends_outside Cloudflare.rot13_char_class before ->
  stops Cloudflare.rot13_char_class rest ->
  In w (Re.findall Cloudflare.ROT13_CANDIDATE_REGEX (before ++ w ++ rest)).
Proof.
  intros Hlen Hw Hb Hr.
  apply (findall_delimited _ Cloudflare.rot13_char_class);
    [apply candidate_alphabet | exact Hb |].
  assert (H : Re.match_here false Cloudflare.ROT13_CANDIDATE_REGEX (w ++ rest) 0 0 None
              = Some (List.length w, None)).
  { unfold Cloudflare.ROT13_CANDIDATE_REGEX, Re.at_least.
    rewrite match_rep, (run_app_stops _ w rest Hw Hr).
    apply try_down_top; [exact Hlen|].
    now rewrite match_end by discriminate. }
  destruct (List.length w) as [|n] eqn:En; [lia|].
  apply findall_head in H. cbn [Re.item] in H.
  now rewrite <- En, firstn_app_length in H.
Qed.

Lemma html_unescape_plain (env : PyEnv) (s : str) :
  ~ In "&"%char s -> html_unescape s = s.
Proof.
  intros H. unfold html_unescape.
  replace (str_in (lit "&") s) with false; [reflexivity|].
  symmetry. apply not_true_is_false. intros X. now apply str_in_char in X.
Qed.

(** X12.  An address written in rot13 is decoded: when a page holds
    the rot13 form of an address of ten characters or more that has no
    percent sign, between characters outside the class of the rot13
    candidates, and has no [&], the signal extractor returns the
    address, in lowercase. *)
Theorem rot13_address_found (env : PyEnv) (before e rest : str) :
  canonical_email e -> ~ In "%"%char e -> 10 <= List.length e ->
  ends_outside Cloudflare.rot13_char_class before ->
  stops Cloudflare.rot13_char_class rest ->
  ~ In "&"%char (before ++ rest) ->
  rot13 (rot13 e) = e
  /\ In (lower e) (Cloudflare._extract_advanced_emails (before ++ rot13 e ++ rest))
  /\ In (lower e) (Cloudflare.extract_emails_from_text (before ++ rot13 e ++ rest)).
Proof.
  intros He Hp Hlen Hb Hr Hamp.
  pose proof (canonical_chars e He) as Hchars.
  destruct (rot13_class e Hchars) as [Hcls Hnoamp].
  split; [apply rot13_involutive|].
  assert (Hne : before ++ rot13 e ++ rest <> []).
  { intros E. apply app_eq_nil in E as [_ E]. apply app_eq_nil in E as [E _].
    apply (f_equal (@List.length ascii)) in E. rewrite rot13_length in E. simpl in E. lia. }
  assert (Hadv : In (lower e)
                    (Cloudflare._extract_advanced_emails (before ++ rot13 e ++ rest))).
  { unfold Cloudflare._extract_advanced_emails.
    destruct (before ++ rot13 e ++ rest) as [|c text] eqn:E; [contradiction|].
    rewrite <- E. cbv zeta.
    rewrite html_unescape_plain.
    2:{ intros Hin. apply in_app_or in Hin as [Hin|Hin].
        - apply Hamp. apply in_or_app. now left.
        - apply in_app_or in Hin as [Hin|Hin]; [contradiction|].
          apply Hamp. apply in_or_app. now right. }
    match goal with
    | |- In _ (if ?c then set_update ?emails _ else ?emails) =>
        assert (Hin : In (lower e) emails);
        [|destruct c; [apply set_update_In; now left | exact Hin]]
    end.
    apply (fold_left_adds _ _ _ (lower e) (rot13 e)).
    - intros acc y H. cbv zeta. destruct (_ && _); [apply set_update_In; now left | exact H].
    - intros acc. cbv zeta. rewrite rot13_involutive.
      replace (negb (PyStr.eqb e []) && negb (PyStr.eqb e (rot13 e))
               && str_in (lit "@") e) with true.
      + apply set_update_In. right.
        pose proof (extract_from_decoded_address [] e [] He Hp (or_introl eq_refl) I) as H.
        now rewrite app_nil_r in H.
      + symmetry. apply andb_true_intro. split; [apply andb_true_intro; split|].
        * apply negb_true_iff, eqb_neq. intros ->. simpl in Hlen. lia.
        * apply negb_true_iff, eqb_neq. now apply rot13_differs.
        * apply str_in_char. destruct He as (l & d & t & -> & _).
          apply in_or_app. right. now left.
    - apply findall_candidate; try assumption. now rewrite rot13_length. }
  split; [exact Hadv|].
  unfold Cloudflare.extract_emails_from_text.
  destruct (before ++ rot13 e ++ rest) as [|c text] eqn:E; [contradiction|].
  rewrite <- E in Hadv |- *. apply set_update_In. now right.
Qed.

(** [bcf@nveyvar.nreb] is the rot13 form of [ops@airline.aero]. *)
Lemma rot13_address_found_witness :
  rot13 (lit "ops@airline.aero") = lit "bcf@nveyvar.nreb"
  /\ In (lit "ops@airline.aero")
        (@Cloudflare.extract_emails_from_text example_env
           (lit "write to " ++ lit "bcf@nveyvar.nreb" ++ lit " (rot13)")).
Proof.
  split; [reflexivity|].
  assert (He : canonical_email (lit "ops@airline.aero")).
  { exists (lit "ops"), (lit "airline"), (lit "aero").
    repeat split; try discriminate; try (simpl; lia); repeat constructor. }
  destruct (rot13_address_found example_env (lit "write to ") (lit "ops@airline.aero")
                                (lit " (rot13)") He) as (_ & _ & H).
  - simpl. intuition discriminate.
  - simpl. lia.
  - right. exists (lit "write to"), " "%char. split; reflexivity.
  - reflexivity.
  - simpl. intuition discriminate.
  - exact H.
Defined.

(** ** The validity test of the search-based extractor *)










(** ** The CSV of the Cloudflare extractor *)


(** ** The output per country *)








(** ** Waiting for the challenge of Cloudflare *)

Lemma unmarked_tests (page : str) :
  ~ marked page ->
  str_in (lit "checking your browser") page || str_in (lit "enable cookies") page = false
  /\ existsb (fun token => str_in token page) CloudflareSite.captcha_tokens = false
  /\ str_in (lit "access denied") page || str_in (lit "forbidden") page = false.
Proof.
  intros H. unfold marked in H. repeat split.
  - apply orb_false_iff. split; apply not_true_is_false; intros X; apply H; tauto.
  - apply not_true_is_false. intros X. apply existsb_exists in X as (token & Ht & X).
    apply H. right. right. left. now exists token.
  - apply orb_false_iff. split; apply not_true_is_false; intros X; apply H; tauto.
Qed.

Lemma wait_loop_spec (snapshots : list (option CloudflareSite.snapshot)) :
  forall challenge_seen simulated,
    let result := CloudflareSite.wait_loop snapshots challenge_seen simulated in
    (fst (fst result) = true <-> snd (fst result) = CloudflareSite.SUCCESS)
    /\ snd (fst result) <> CloudflareSite.DRIVER_NOT_READY
    /\ (snd (fst result) = CloudflareSite.SUCCESS ->
        exists before snap after,
          snapshots = before ++ Some snap :: after
          /\ ~ marked (lower (CloudflareSite.page_source snap))
          /\ on_site snap
          /\ Forall (fun s => s <> None) before)
    /\ (snd (fst result) = CloudflareSite.TIMEOUT ->
        Forall (fun s => exists snap,
                    s = Some snap
                    /\ (~ marked (lower (CloudflareSite.page_source snap)) -> ~ on_site snap))
               snapshots)
    /\ simulated <= snd result <= simulated + List.length snapshots
    /\ (challenge_seen = false ->
        Forall (fun s => forall snap,
                    s = Some snap ->
                    str_in (lit "checking your browser")
                           (lower (CloudflareSite.page_source snap)) = false
                    /\ str_in (lit "enable cookies")
                              (lower (CloudflareSite.page_source snap)) = false)
               snapshots ->
        snd result = simulated).
Proof.
  induction snapshots as [|[snap|] snapshots IH]; intros seen n; cbn [CloudflareSite.wait_loop].
  - cbn [fst snd]. repeat split; try discriminate; try constructor; simpl; lia.
  - cbv zeta.
    set (page := lower (CloudflareSite.page_source snap)).
    set (url := lower (CloudflareSite.current_url snap)).
    assert (Hlater : forall seen' n',
               n <= n' <= S n ->
               (seen' = false -> n' = n) ->
               (seen = false ->
                str_in (lit "checking your browser") page = false
                /\ str_in (lit "enable cookies") page = false -> seen' = false) ->
               (~ marked page -> ~ on_site snap) ->
               let result := CloudflareSite.wait_loop snapshots seen' n' in
               (fst (fst result) = true <-> snd (fst result) = CloudflareSite.SUCCESS)
               /\ snd (fst result) <> CloudflareSite.DRIVER_NOT_READY
               /\ (snd (fst result) = CloudflareSite.SUCCESS ->
                   exists before snap0 after,
                     Some snap :: snapshots = before ++ Some snap0 :: after
                     /\ ~ marked (lower (CloudflareSite.page_source snap0))
                     /\ on_site snap0
                     /\ Forall (fun s => s <> None) before)
               /\ (snd (fst result) = CloudflareSite.TIMEOUT ->
                   Forall (fun s => exists snap0,
                               s = Some snap0
                               /\ (~ marked (lower (CloudflareSite.page_source snap0)) ->
                                   ~ on_site snap0))
                          (Some snap :: snapshots))
               /\ n <= snd result <= n + List.length (Some snap :: snapshots)
               /\ (seen = false ->
                   Forall (fun s => forall snap0,
                               s = Some snap0 ->
                               str_in (lit "checking your browser")
                                      (lower (CloudflareSite.page_source snap0)) = false
                               /\ str_in (lit "enable cookies")
                                         (lower (CloudflareSite.page_source snap0)) = false)
                          (Some snap :: snapshots) ->
                   snd result = n)).
    { intros seen' n' Hn Hn' Hseen Hsite result. subst result.
      destruct (IH seen' n') as (H1 & H2 & H3 & H4 & H5 & H6).
      split; [exact H1|]. split; [exact H2|]. split; [|split; [|split]].
      - intros E. destruct (H3 E) as (before & snap0 & after & -> & Hm & Hs & Hb).
        exists (Some snap :: before), snap0, after. repeat split; try assumption.
        constructor; [discriminate | assumption].
      - intros E. constructor; [|now apply H4]. now exists snap.
      - cbn [List.length]. lia.
      - intros Hf Hall.
        pose proof (Forall_inv Hall) as Hhere. pose proof (Forall_inv_tail Hall) as Hrest.
        specialize (Hseen Hf (Hhere snap eq_refl)).
        rewrite (H6 Hseen Hrest). now apply Hn'. }
    destruct (str_in (lit "checking your browser") page || str_in (lit "enable cookies") page)
      eqn:Echal.
    { apply Hlater; [lia | reflexivity | |].
      - intros _ [Ha Hb]. rewrite Ha, Hb in Echal. discriminate.
      - intros Hm. exfalso. apply Hm. apply orb_prop in Echal as [E|E];
          unfold marked; tauto. }
    destruct (existsb (fun token => str_in token page) CloudflareSite.captcha_tokens)
      eqn:Ecap.
    { cbn [fst snd]. repeat split; try discriminate; try lia. }
    destruct (str_in (lit "access denied") page || str_in (lit "forbidden") page) eqn:Eden.
    { cbn [fst snd]. repeat split; try discriminate; try lia. }
    assert (Hclean : ~ marked page).
    { apply orb_false_iff in Echal as [E1 E2]. apply orb_false_iff in Eden as [E3 E4].
      intros [X|[X|[(token & Ht & X)|[X|X]]]]; try congruence.
      assert (Y : existsb (fun token => str_in token page) CloudflareSite.captcha_tokens
                  = true) by (apply existsb_exists; now exists token).
      congruence. }
    destruct (str_in (lit "aircharterguide") url || str_in (lit "aircharterguide") page)
      eqn:Esite.
    { cbn [fst snd]. repeat split; try discriminate; try lia; try (intros _ _; reflexivity).
      intros _. exists [], snap, snapshots. repeat split; try assumption; [|constructor].
      apply orb_prop in Esite. unfold on_site. exact Esite. }
    apply Hlater.
    + destruct seen; lia.
    + now intros ->.
    + intros Hf _. exact Hf.
    + intros _ [X|X]; apply orb_false_iff in Esite as [E1 E2];
        unfold url, page in *; congruence.
  - cbn [fst snd]. repeat split; try discriminate; try lia.
Qed.

Lemma lower_app (a b : str) : lower (a ++ b) = lower a ++ lower b.
Proof. apply map_app. Qed.

(** X16.  [wait_for_cloudflare] reports success by its flag exactly
    when its status is [SUCCESS], and only for a snapshot of the
    browser that shows none of the marks -- the text of the challenge,
    a CAPTCHA, a refusal -- and shows the site, all snapshots before
    it having been read; it times out only when every snapshot was
    read and none was both unmarked and on the site.  The human
    behaviour is simulated once in a round at the most, and never when
    no page shows the text of the challenge.  On the listing that
    [build_listing_url] gives for any country code, a first page
    without marks is a success. *)
Theorem wait_for_cloudflare_verdict :
  (forall driver,
      let result := CloudflareSite.wait_for_cloudflare driver in
      (fst result = true <-> snd result = CloudflareSite.SUCCESS)
      /\ (snd result = CloudflareSite.DRIVER_NOT_READY <-> driver = None)
      /\ (snd result = CloudflareSite.SUCCESS ->
          exists before snap after,
            driver = Some (CloudflareSite.Rounds (before ++ Some snap :: after))
            /\ ~ marked (lower (CloudflareSite.page_source snap))
            /\ on_site snap
            /\ Forall (fun s => s <> None) before)
      /\ (snd result = CloudflareSite.TIMEOUT ->
          exists snapshots,
            driver = Some (CloudflareSite.Rounds snapshots)
            /\ Forall (fun s => exists snap,
                           s = Some snap
                           /\ (~ marked (lower (CloudflareSite.page_source snap)) ->
                               ~ on_site snap))
                      snapshots))
  /\ (forall snapshots,
      let simulated := snd (CloudflareSite.wait_loop snapshots false 0) in
      simulated <= List.length snapshots
      /\ (Forall (fun s => forall snap,
                      s = Some snap ->
                      str_in (lit "checking your browser")
                             (lower (CloudflareSite.page_source snap)) = false
                      /\ str_in (lit "enable cookies")
                                (lower (CloudflareSite.page_source snap)) = false)
                 snapshots ->
          simulated = 0))
  /\ (forall country_code page later,
      ~ marked (lower page) ->
      CloudflareSite.wait_for_cloudflare
        (Some (CloudflareSite.Rounds
                 (Some {| CloudflareSite.page_source := page;
                          CloudflareSite.current_url :=
                            CloudflareSite.build_listing_url country_code |}
                  :: later)))
      = (true, CloudflareSite.SUCCESS)).
Proof.
  split; [|split].
  - intros [[|snapshots]|]; cbn [CloudflareSite.wait_for_cloudflare].
    + cbn [fst snd]. repeat split; try discriminate.
    + destruct (wait_loop_spec snapshots false 0) as (H1 & H2 & H3 & H4 & _).
      cbv zeta.
      split; [exact H1|]. split; [split; [contradiction | discriminate]|].
      split.
      * intros E. destruct (H3 E) as (before & snap & after & -> & H).
        now exists before, snap, after.
      * intros E. exists snapshots. split; [reflexivity | now apply H4].
    + cbn [fst snd]. repeat split; try discriminate.
  - intros snapshots simulated. subst simulated.
    destruct (wait_loop_spec snapshots false 0) as (_ & _ & _ & _ & H5 & H6).
    split; [lia|]. intros Hall. now apply H6.
  - intros country_code page later Hclean.
    cbn [CloudflareSite.wait_for_cloudflare CloudflareSite.wait_loop].
    cbn [CloudflareSite.page_source CloudflareSite.current_url].
    destruct (unmarked_tests _ Hclean) as (-> & -> & ->).
    replace (str_in (lit "aircharterguide")
                    (lower (CloudflareSite.build_listing_url country_code)))
      with true; [reflexivity|].
    symmetry. apply str_in_spec. unfold CloudflareSite.build_listing_url.
    rewrite lower_app.
    exists (lit "https://www."),
           (lit ".com/listingsearch?dt=8&country=" ++ lower (lower (strip country_code))).
    reflexivity.
Qed.

(** The browser shows the challenge, then the listing. *)
Lemma wait_for_cloudflare_verdict_witness :
  CloudflareSite.wait_for_cloudflare
    (Some (CloudflareSite.Rounds
             [Some {| CloudflareSite.page_source := lit "<p>Checking your browser</p>";
                      CloudflareSite.current_url := lit "https://www.aircharterguide.com/" |};
              Some {| CloudflareSite.page_source := lit "<h1>Operators</h1>";
                      CloudflareSite.current_url :=
                        CloudflareSite.build_listing_url (lit " RU ") |}]))
  = (true, CloudflareSite.SUCCESS)
  /\ CloudflareSite.wait_for_cloudflare
       (Some (CloudflareSite.Rounds
                [Some {| CloudflareSite.page_source := lit "<h1>Operators</h1>";
                         CloudflareSite.current_url :=
                           CloudflareSite.build_listing_url (lit " RU ") |}]))
     = (true, CloudflareSite.SUCCESS)
  /\ CloudflareSite.build_listing_url (lit " RU ")
     = lit "https://www.aircharterguide.com/listingsearch?dt=8&country=ru".
Proof.
  destruct wait_for_cloudflare_verdict as (_ & _ & H).
  split; [reflexivity|]. split; [|reflexivity].
  apply H. unfold marked. intros [X|[X|[(token & Ht & X)|[X|X]]]]; try discriminate.
  destruct Ht as [<-|[<-|[<-|[<-|[]]]]]; discriminate.
Defined.

(** ** The rows of the deep harvester *)

Section DeepRows.
Context {web : WebEnv}.
Variable a : Deep.args.

Lemma harvest_item_accepted (seen : list str) (w : world) (item : search_item)
      (url : str) (accepted : list str) (w' : world) :
  Deep.harvest_item a seen w item = Some (url, accepted, w') ->
  url = match item_href item with
        | [] => item_url item
        | _ :: _ => item_href item
        end
  /\ url <> []
  /\ Forall (fun e => Deep.filter_email e (Deep.require a) (Deep.exclude a) = true)
            accepted.
Proof.
  unfold Deep.harvest_item.
  set (u := match item_href item with [] => item_url item | _ :: _ => item_href item end).
  destruct (PyStr.eqb u []) eqn:E; [discriminate|]. cbn [orb].
  destruct (mem u seen); [discriminate|].
  destruct (Deep.harvest_emails w u (Z.max (Deep.max_pages a) 1)) as [emails w1].
  intros H. injection H as <- <- <-. split; [reflexivity|]. split.
  - intros ->. now rewrite eqb_refl in E.
  - apply Forall_forall. intros e He. now apply sorted_In, filter_In in He as [_ He].
Qed.

Lemma offered_accepted (w : world) : Forall (accepted_result a) (offered a w).
Proof.
  unfold offered.
  set (qs0 := Deep.collect_queries (Deep.queries_file a) (Deep.queries a)).
  assert (G : forall qs, incl qs qs0 ->
              forall off, Forall (accepted_result a) (snd off) ->
                          Forall (accepted_result a)
                                 (snd (fold_left (offered_by_query a) qs off))).
  { induction qs as [|q qs IH]; intros Hqs off H; simpl; [assumption|].
    apply IH; [intros x Hx; apply Hqs; now right|].
    assert (Hq : In q qs0) by (apply Hqs; now left).
    destruct off as [[seen w1] records]. unfold offered_by_query.
    set (items0 := ddgs_text (searches w1) q (Z.max (Deep.limit a) 1)).
    assert (Gi : forall items, incl items items0 ->
                 forall seen' records' w2,
                   Forall (accepted_result a) records' ->
                   Forall (accepted_result a)
                          (snd (fold_left (offered_by_item a q) items
                                          (seen', w2, records')))).
    { induction items as [|item items IHi]; intros Hall seen' records' w2 H'; simpl;
        [assumption|].
      assert (Hitem : In item items0) by (apply Hall; now left).
      assert (Hrest : incl items items0) by (intros x Hx; apply Hall; now right).
      destruct (Deep.harvest_item a seen' w2 item) as [[[url accepted] w']|] eqn:E.
      - apply IHi; [assumption|]. apply Forall_app. split; [assumption|].
        apply harvest_item_accepted in E as (Eu & Hu & Hacc).
        apply Forall_forall. intros r Hr. apply in_map_iff in Hr as (e & <- & He).
        split; [|exact (Forall_elim Hacc _ He)].
        split; [exact Hq|]. split; [exact Hu|].
        exists (searches w1), item. cbn [Query SourceURL Title]. now repeat split.
      - now apply IHi. }
    apply Gi; [apply incl_refl | exact H]. }
  apply G; [apply incl_refl | constructor].
Qed.

Lemma main_rows_accepted (w : world) :
  Forall (accepted_result a) (rows_written (Deep.main a w)).
Proof.
  rewrite main_rows_offered. apply Forall_forall. intros r Hr.
  destruct (keep_first_spec (offered a w)) as (_ & H & _).
  destruct (H r Hr) as (before & behind & E & _).
  apply (Forall_elim (offered_accepted w)). rewrite E. apply in_elt.
Qed.

End DeepRows.

Lemma filter_email_rejects (email : str) (required exclude : list str) :
  Deep.filter_email email required exclude = true ->
  ~ In (Deep.domain_of email) Deep.GENERIC_PROVIDERS
  /\ str_in (lit ".") (Deep.domain_of email) = true
  /\ ~ In (last_item (rsplit_1 "." (Deep.domain_of email))) Deep.DISALLOWED_TLDS
  /\ Forall (fun substr => str_in substr email = false) exclude
  /\ (required <> [] ->
      exists token, In token required /\ str_in token (Deep.domain_of email) = true).
Proof.
  unfold Deep.filter_email.
  destruct (mem (Deep.domain_of email) Deep.GENERIC_PROVIDERS) eqn:E1; [discriminate|].
  destruct (str_in (lit ".") (Deep.domain_of email)) eqn:E2; [|discriminate]. cbn [negb].
  destruct (mem (last_item (rsplit_1 "." (Deep.domain_of email))) Deep.DISALLOWED_TLDS)
    eqn:E3; [discriminate|].
  destruct (existsb (fun substr => str_in substr email) exclude) eqn:E4; [discriminate|].
  intros H. split; [now apply mem_not_In|]. split; [reflexivity|].
  split; [now apply mem_not_In|]. split.
  - apply Forall_forall. intros substr Hs. apply not_true_is_false. intros X.
    assert (Y : existsb (fun substr => str_in substr email) exclude = true)
      by (apply existsb_exists; now exists substr).
    congruence.
  - intros Hreq. destruct required as [|t required]; [contradiction|].
    destruct (existsb (fun token => str_in token (Deep.domain_of email)) (t :: required))
      eqn:E5; [|discriminate].
    apply existsb_exists in E5 as (token & Ht & E5). now exists token.
Qed.

(** X17.  Every row a run of the deep harvester writes stands under
    one of its queries, with the title and the source -- never empty
    -- of an item the search gave for that query, and carries an
    address that [filter_email] accepts with the lists of the run: its
    domain has a dot and is no generic provider, its last label is no
    image suffix, no excluded piece of text occurs in it, and one of
    the required pieces, when there are any, occurs in its domain. *)
Theorem deep_rows_accepted (web : WebEnv) (a : Deep.args) (w : world) :
  Forall (fun r =>
            from_result a r
            /\ ~ In (Deep.domain_of (Email r)) Deep.GENERIC_PROVIDERS
            /\ str_in (lit ".") (Deep.domain_of (Email r)) = true
            /\ ~ In (last_item (rsplit_1 "." (Deep.domain_of (Email r))))
                    Deep.DISALLOWED_TLDS
            /\ Forall (fun substr => str_in substr (Email r) = false) (Deep.exclude a)
            /\ (Deep.require a <> [] ->
                exists token,
                  In token (Deep.require a)
                  /\ str_in token (Deep.domain_of (Email r)) = true))
         (rows_written (Deep.main a w)).
Proof.
  apply Forall_forall. intros r Hr.
  destruct (Forall_elim (main_rows_accepted a w) _ Hr) as [Hfrom Hacc].
  split; [exact Hfrom|]. now apply filter_email_rejects.
Qed.

(** ** Addresses with a percent-encoded at sign *)

Lemma address_char_ascii (c : ascii) : address_char c = true -> is_ascii c = true.
Proof.
  destruct c as [[] [] [] [] [] [] [] []]; vm_compute; congruence.
Qed.

Section Percent.
Context {env : PyEnv}.

Lemma unquote_to_bytes_plain (s : str) :
  ~ In "%"%char s -> unquote_to_bytes_from 0 s = s.
Proof.
  induction s as [|c s IH]; intros H; [reflexivity|].
  cbn [unquote_to_bytes_from].
  assert (Hc : c <> "%"%char) by (intros ->; apply H; now left).
  assert (Hs : ~ In "%"%char s) by (intros X; apply H; now right).
  rewrite (IH Hs).
  destruct c as [[] [] [] [] [] [] [] []]; try reflexivity;
    destruct s as [|h1 [|h2 s']]; try reflexivity.
  now contradiction Hc.
Qed.

Lemma unquote_to_bytes_at (r m : str) :
  ~ In "%"%char r -> ~ In "%"%char m ->
  unquote_to_bytes (r ++ lit "%40" ++ m) = r ++ lit "@" ++ m.
Proof.
  intros Hr Hm. unfold unquote_to_bytes.
  induction r as [|c r IH].
  - cbn [app lit list_ascii_of_string unquote_to_bytes_from].
    replace (is_hex "4" && is_hex "0") with true by reflexivity.
    replace (ascii_of_N (int_of 16 ["4"%char; "0"%char])) with "@"%char by reflexivity.
    f_equal. now apply unquote_to_bytes_plain.
  - assert (Hc : c <> "%"%char) by (intros ->; apply Hr; now left).
    assert (Hs : ~ In "%"%char r) by (intros X; apply Hr; now right).
    cbn [app unquote_to_bytes_from]. rewrite (IH Hs).
    destruct c as [[] [] [] [] [] [] [] []]; try reflexivity.
    now contradiction Hc.
Qed.

Lemma decode_utf8_ascii (s : str) :
  Forall (fun c => is_ascii c = true) s -> decode_utf8 s = s.
Proof.
  intros H. unfold decode_utf8.
  replace (forallb is_ascii s) with true; [reflexivity|].
  symmetry. apply forallb_forall. intros c Hc. now apply (Forall_elim H).
Qed.

Lemma unquote_runs_plain (s : str) :
  ~ In "%"%char s ->
  forall run, Forall (fun c => is_ascii c = true) run -> ~ In "%"%char run ->
              unquote_runs run s = rev run ++ s.
Proof.
  induction s as [|c s IH]; intros Hs run Ha Hp.
  - cbn [unquote_runs]. unfold unquote_to_bytes.
    rewrite unquote_to_bytes_plain by (now rewrite <- in_rev).
    rewrite decode_utf8_ascii by (now apply Forall_rev). now rewrite app_nil_r.
  - assert (Hs' : ~ In "%"%char s) by (intros X; apply Hs; now right).
    assert (Hc : c <> "%"%char) by (intros ->; apply Hs; now left).
    cbn [unquote_runs]. destruct (is_ascii c) eqn:E.
    + rewrite (IH Hs'); [cbn [rev]; now rewrite <- app_assoc | now constructor |].
      intros [X|X]; [now apply Hc | now apply Hp].
    + unfold unquote_to_bytes.
      rewrite unquote_to_bytes_plain by (now rewrite <- in_rev).
      rewrite decode_utf8_ascii by (now apply Forall_rev).
      rewrite (IH Hs' [] (Forall_nil _)) by (intros []). reflexivity.
Qed.

Lemma unquote_runs_after (s : str) :
  ~ In "%"%char s ->
  forall run r m,
    rev run = r ++ lit "%40" ++ m ->
    Forall (fun c => is_ascii c = true) run ->
    ~ In "%"%char r -> ~ In "%"%char m ->
    unquote_runs run s = r ++ lit "@" ++ m ++ s.
Proof.
  induction s as [|c s IH]; intros Hs run r m Hrun Ha Hr Hm.
  - cbn [unquote_runs]. rewrite Hrun, unquote_to_bytes_at by assumption.
    rewrite decode_utf8_ascii; [now rewrite app_nil_r|].
    apply Forall_rev in Ha. rewrite Hrun in Ha.
    apply Forall_app in Ha as [Ha1 Ha2]. apply Forall_app in Ha2 as [_ Ha2].
    apply Forall_app. split; [assumption|]. now constructor.
  - assert (Hs' : ~ In "%"%char s) by (intros X; apply Hs; now right).
    assert (Hc : c <> "%"%char) by (intros ->; apply Hs; now left).
    cbn [unquote_runs]. destruct (is_ascii c) eqn:E.
    + rewrite (IH Hs' (c :: run) r (m ++ [c])).
      * now rewrite <- !app_assoc.
      * cbn [rev]. rewrite Hrun. now rewrite <- !app_assoc.
      * now constructor.
      * assumption.
      * intros X. apply in_app_or in X as [X|[X|[]]]; [now apply Hm | now apply Hc].
    + rewrite Hrun, unquote_to_bytes_at by assumption.
      rewrite decode_utf8_ascii.
      * rewrite (unquote_runs_plain s Hs' [] (Forall_nil _)) by (intros []).
        cbn [rev app]. now rewrite <- !app_assoc.
      * apply Forall_rev in Ha. rewrite Hrun in Ha.
        apply Forall_app in Ha as [Ha1 Ha2]. apply Forall_app in Ha2 as [_ Ha2].
        apply Forall_app. split; [assumption|]. now constructor.
Qed.

Lemma unquote_runs_at (a b : str) :
  ~ In "%"%char a -> ~ In "%"%char b ->
  forall run, Forall (fun c => is_ascii c = true) run -> ~ In "%"%char run ->
              unquote_runs run (a ++ lit "%40" ++ b) = rev run ++ a ++ lit "@" ++ b.
Proof.
  intros Ha Hb. induction a as [|c a IH]; intros run Hr Hp.
  - cbn [app lit list_ascii_of_string unquote_runs].
    replace (is_ascii "%") with true by reflexivity.
    replace (is_ascii "4") with true by reflexivity.
    replace (is_ascii "0") with true by reflexivity.
    rewrite (unquote_runs_after b Hb _ (rev run) []).
    + reflexivity.
    + cbn [rev]. now rewrite <- !app_assoc.
    + repeat (constructor; [reflexivity|]). assumption.
    + now rewrite <- in_rev.
    + intros [].
  - assert (Ha' : ~ In "%"%char a) by (intros X; apply Ha; now right).
    assert (Hc : c <> "%"%char) by (intros ->; apply Ha; now left).
    cbn [app unquote_runs]. destruct (is_ascii c) eqn:E.
    + rewrite (IH Ha'); [cbn [rev]; now rewrite <- !app_assoc | now constructor |].
      intros [X|X]; [now apply Hc | now apply Hp].
    + unfold unquote_to_bytes.
      rewrite unquote_to_bytes_plain by (now rewrite <- in_rev).
      rewrite decode_utf8_ascii by (now apply Forall_rev).
      rewrite (IH Ha' [] (Forall_nil _)) by (intros []). reflexivity.
Qed.

Lemma unquote_at (a b : str) :
  ~ In "%"%char a -> ~ In "%"%char b ->
  unquote (a ++ lit "%40" ++ b) = a ++ lit "@" ++ b.
Proof.
  intros Ha Hb. unfold unquote.
  replace (str_in (lit "%") (a ++ lit "%40" ++ b)) with true.
  - cbn [negb]. now rewrite (unquote_runs_at a b Ha Hb [] (Forall_nil _)) by (intros []).
  - symmetry. apply str_in_char. apply in_or_app. right. now left.
Qed.

End Percent.

(** X18.  An address whose at sign is written [%40] is decoded: when
    a page holds the address in that form, has no other percent sign
    and no [&], and the text before the address does not end with a
    character of an address nor the text after it begin with a
    character of a domain, [unquote] restores the at sign and the
    signal extractor returns the address, in lowercase. *)
Theorem percent_address_found (env : PyEnv) (before local_part domain rest : str) :
  canonical_email (local_part ++ lit "@" ++ domain) ->
  ~ In "%"%char (before ++ local_part ++ domain ++ rest) ->
  ~ In "&"%char (before ++ rest) ->
  ends_outside address_char before -> stops Cloudflare.domain_char rest ->
  let text := before ++ local_part ++ lit "%40" ++ domain ++ rest in
  let e := local_part ++ lit "@" ++ domain in
  unquote text = before ++ e ++ rest
  /\ In (lower e) (Cloudflare._extract_advanced_emails text)
  /\ In (lower e) (Cloudflare.extract_emails_from_text text).
Proof.
  intros He Hp Hamp Hb Hr text e.
  assert (Hp1 : ~ In "%"%char (before ++ local_part)).
  { intros X. apply Hp. rewrite app_assoc. apply in_or_app. now left. }
  assert (Hp2 : ~ In "%"%char (domain ++ rest)).
  { intros X. apply Hp. rewrite app_assoc. apply in_or_app. now right. }
  assert (Hpe : ~ In "%"%char e).
  { unfold e. intros X. apply in_app_or in X as [X|[X|X]].
    - apply Hp1. apply in_or_app. now right.
    - discriminate.
    - apply Hp2. apply in_or_app. now left. }
  assert (Hun : unquote text = before ++ e ++ rest).
  { unfold text, e.
    replace (before ++ local_part ++ lit "%40" ++ domain ++ rest)
      with ((before ++ local_part) ++ lit "%40" ++ domain ++ rest)
      by (now rewrite <- app_assoc).
    rewrite (unquote_at _ _ Hp1 Hp2). now rewrite <- !app_assoc. }
  split; [exact Hun|].
  pose proof (canonical_chars e He) as Hchars.
  assert (Hnoamp : ~ In "&"%char text).
  { unfold text. intros X.
    assert (Hadr : forall s, incl s e -> ~ In "&"%char s).
    { intros s Hs Y. apply Hs in Y. apply (Forall_elim Hchars) in Y. discriminate. }
    apply in_app_or in X as [X|X]; [apply Hamp; apply in_or_app; now left|].
    apply in_app_or in X as [X|X].
    { apply (Hadr local_part); [|exact X]. intros x Hx. apply in_or_app. now left. }
    apply in_app_or in X as [X|X]; [destruct X as [X|[X|[X|[]]]]; discriminate|].
    apply in_app_or in X as [X|X]; [|apply Hamp; apply in_or_app; now right].
    apply (Hadr domain); [|exact X]. intros x Hx. apply in_or_app. right. now right. }
  assert (Hne : text <> []).
  { unfold text. intros E. apply app_eq_nil in E as [_ E]. apply app_eq_nil in E as [_ E].
    discriminate. }
  assert (Hneq : PyStr.eqb (unquote text) text = false).
  { apply eqb_neq. rewrite Hun. unfold text, e. intros X.
    apply (f_equal (@List.length ascii)) in X.
    rewrite !length_app in X. simpl in X. lia. }
  assert (Hfound : In (lower e) (Cloudflare._extract_from_decoded (unquote text))).
  { rewrite Hun. now apply extract_from_decoded_address. }
  clearbody text e.
  assert (Hadv : In (lower e) (Cloudflare._extract_advanced_emails text)).
  { unfold Cloudflare._extract_advanced_emails.
    destruct text as [|c text'] eqn:E; [contradiction|].
    rewrite <- E in *. cbv zeta.
    rewrite (html_unescape_plain env text Hnoamp), Hneq.
    cbn [negb]. apply set_update_In. now right. }
  split; [exact Hadv|].
  unfold Cloudflare.extract_emails_from_text.
  destruct text as [|c text'] eqn:E; [contradiction|].
  rewrite <- E in Hadv |- *. apply set_update_In. now right.
Qed.

(** [ops%40airline.aero] in the address of a link. *)
Lemma percent_address_found_witness :
  @unquote example_env (lit "<a href=/write?to=" ++ lit "Ops" ++ lit "%40"
                            ++ lit "Airline.AERO" ++ lit ">Write</a>")
  = lit "<a href=/write?to=Ops@Airline.AERO>Write</a>"
  /\ In (lit "ops@airline.aero")
        (@Cloudflare.extract_emails_from_text example_env
           (lit "<a href=/write?to=" ++ lit "Ops" ++ lit "%40"
                ++ lit "Airline.AERO" ++ lit ">Write</a>")).
Proof.
  assert (He : canonical_email (lit "Ops" ++ lit "@" ++ lit "Airline.AERO")).
  { exists (lit "Ops"), (lit "Airline"), (lit "AERO").
    repeat split; try discriminate; try (simpl; lia); repeat constructor. }
  destruct (percent_address_found example_env (lit "<a href=/write?to=") (lit "Ops")
                                  (lit "Airline.AERO") (lit ">Write</a>") He)
    as (H1 & _ & H2).
  - simpl. intuition discriminate.
  - simpl. intuition discriminate.
  - right. exists (lit "<a href=/write?to"), "="%char. split; reflexivity.
  - reflexivity.
  - split; [exact H1 | exact H2].
Defined.
